(** * MegaBonk image scrapers: a shallow embedding of the name-resolution,
      download and catalog-sync code of [scripts/*.py]

    Strings are lists of characters.  A character is a code point below 256
    (ASCII and Latin-1), which is what Rocq's [ascii] holds; on that range
    [str.lower], [str.isspace] and the regular-expression classes [\s], [\d]
    and [a-z0-9] are written out below as Python 3 defines them.
    Python sets are [gset]s; the order in which a [for] loop walks a set is
    not fixed by the language, so it is a section variable, of which the
    proofs use only that it lists the elements of the set.  Python dicts whose
    iteration order is observed are association lists in insertion order; the
    others are [gmap]s. *)

From Stdlib Require Import Ascii String.
From Stdlib Require Init.Byte.
From stdpp Require Import base option list sets gmap strings.

Local Open Scope char_scope.

(** ** Characters and strings *)

Abbreviation pystr := (list ascii).

Definition str (s : string) : pystr := list_ascii_of_string s.

Arguments str : simpl never.

Definition code (c : ascii) : N := N_of_ascii c.

Definition between (lo hi n : N) : bool := ((lo <=? n) && (n <=? hi))%N.

(** [str.isspace] and the class [\s] of [re] on text patterns: TAB..CR,
    FS..US, SPACE, NEL and NBSP. *)
Definition is_space (c : ascii) : bool :=
  between 9 13 (code c) || between 28 32 (code c)
  || (code c =? 133)%N || (code c =? 160)%N.

Definition is_digit (c : ascii) : bool := between 48 57 (code c).

Definition is_lower_az (c : ascii) : bool := between 97 122 (code c).

Definition is_upper_az (c : ascii) : bool := between 65 90 (code c).

(** [str.lower] on one character: A-Z and the Latin-1 capitals. *)
Definition lower_char (c : ascii) : ascii :=
  if is_upper_az c || between 192 214 (code c) || between 216 222 (code c)
  then ascii_of_N (code c + 32) else c.

Definition lower (s : pystr) : pystr := lower_char <$> s.

Fixpoint lstrip_by (p : ascii → bool) (s : pystr) : pystr :=
  match s with
  | [] => []
  | c :: t => if p c then lstrip_by p t else s
  end.

Definition rstrip_by (p : ascii → bool) (s : pystr) : pystr :=
  reverse (lstrip_by p (reverse s)).

Definition strip_by (p : ascii → bool) (s : pystr) : pystr :=
  rstrip_by p (lstrip_by p s).

(** [s.strip()] *)
Definition strip (s : pystr) : pystr := strip_by is_space s.

Definition char_in (chars : pystr) (c : ascii) : bool :=
  bool_decide (c ∈ chars).

(** [s.strip(chars)] *)
Definition strip_chars (chars s : pystr) : pystr := strip_by (char_in chars) s.

Fixpoint starts_with (p s : pystr) : bool :=
  match p, s with
  | [], _ => true
  | _ :: _, [] => false
  | a :: p', c :: s' => bool_decide (a = c) && starts_with p' s'
  end.

(** [needle in hay] on strings. *)
Fixpoint contains (needle hay : pystr) : bool :=
  starts_with needle hay ||
  match hay with
  | [] => false
  | _ :: t => contains needle t
  end.

(** [s.replace(old, new)] for a non-empty [old], as at every call site: the
    occurrences are found left to right and do not overlap.  [skip] counts the
    characters of the occurrence just replaced that are still to be passed. *)
Fixpoint replace_go (old new : pystr) (skip : nat) (s : pystr) : pystr :=
  match s with
  | [] => []
  | c :: t =>
      match skip with
      | S k => replace_go old new k t
      | O =>
          if starts_with old s
          then new ++ replace_go old new (length old - 1) t
          else c :: replace_go old new 0 t
      end
  end.

Definition replace (old new s : pystr) : pystr := replace_go old new 0 s.

(** [re.sub(pat, '', s)] for a pattern that never matches the empty string:
    [m s] is the length of the match of [pat] at the head of [s], if any. *)
Fixpoint re_delete_go (m : pystr → option nat) (skip : nat) (s : pystr) : pystr :=
  match s with
  | [] => []
  | c :: t =>
      match skip with
      | S k => re_delete_go m k t
      | O =>
          match m s with
          | Some n => re_delete_go m (n - 1) t
          | None => c :: re_delete_go m 0 t
          end
      end
  end.

Definition re_delete (m : pystr → option nat) (s : pystr) : pystr :=
  re_delete_go m 0 s.

(** A pattern of the shape [body$]: [p] decides whether a whole tail matches
    [body].  Every string the scripts apply such a pattern to comes out of a
    name normaliser and holds no newline, so [$] is the end of the string. *)
Definition match_tail (p : pystr → bool) (s : pystr) : option nat :=
  if p s then Some (length s) else None.

(** ** [normalize_name] of scrape-images-v2.py and scrape-megabonk-wiki.py *)

(** [re.sub(r'[^a-z0-9\s]', '', s)] *)
Definition keep_char (c : ascii) : bool :=
  is_lower_az c || is_digit c || is_space c.

Definition drop_special (s : pystr) : pystr := filter (λ c, keep_char c = true) s.

(** [re.sub(r'\s+', sep, s)]: [in_run] tells that the previous character was
    white space, already replaced. *)
Fixpoint sub_ws_go (sep : ascii) (in_run : bool) (s : pystr) : pystr :=
  match s with
  | [] => []
  | c :: t =>
      if is_space c
      then (if in_run then sub_ws_go sep true t else sep :: sub_ws_go sep true t)
      else c :: sub_ws_go sep false t
  end.

Definition sub_ws (sep : ascii) (s : pystr) : pystr := sub_ws_go sep false s.

Definition normalize_name (name : pystr) : pystr :=
  match name with
  | [] => []
  | _ =>
      let normalized := strip (lower name) in
      let normalized := drop_special normalized in
      let normalized := sub_ws " " normalized in
      normalized
  end.


(** ** [create_name_variants] of scrape-images-v2.py *)

Definition suffixes : list pystr :=
  [str " icon"; str " img"; str " image"; str " item"; str " weapon";
   str " tome"; str " char"].

(** The match of [\s*\([^)]*\)] at the head of [s]: both stars are greedy and
    giving characters back never helps, since what follows each star is a
    character the star does not take. *)
Definition match_parens (s : pystr) : option nat :=
  match lstrip_by is_space s with
  | "(" :: t =>
      match lstrip_by (λ c, negb (bool_decide (c = ")"))) t with
      | ")" :: rest => Some (length s - length rest)
      | _ => None
      end
  | _ => None
  end.

(** A whole tail matches [[\s_]+\d*]. *)
Definition is_sep_digits_tail (s : pystr) : bool :=
  let rest := lstrip_by (λ c, is_space c || bool_decide (c = "_")) s in
  (length rest <? length s)%nat && forallb is_digit rest.

Definition create_name_variants (name : pystr) : gset pystr :=
  let variants : gset pystr := ∅ in
  (* Original *)
  let variants := variants ∪ {[ normalize_name name ]} in
  (* Without common suffixes *)
  let variants :=
    foldl (λ vs suffix, vs ∪ {[ normalize_name (replace suffix [] name) ]})
          variants suffixes in
  (* ID form (underscores) *)
  let id_form := replace (str " ") (str "_") (normalize_name name) in
  let variants := variants ∪ {[ id_form ]} in
  (* Without parentheses content *)
  let no_parens := re_delete match_parens name in
  let variants := variants ∪ {[ normalize_name no_parens ]} in
  (* Handle "X's Y" -> "xs y" *)
  let no_apostrophe := replace (str "'") [] (replace (str "'s") (str "s") name) in
  let variants := variants ∪ {[ normalize_name no_apostrophe ]} in
  (* Remove trailing numbers/underscores *)
  let clean := re_delete (match_tail is_sep_digits_tail) (normalize_name name) in
  let variants := variants ∪ {[ clean ]} in
  (* Remove leading/trailing underscores or spaces from variants *)
  set_map (strip_chars (str "_ "))
          (filter (λ v, strip_chars (str "_ ") v ≠ []) variants).

(** Membership in the result of [create_name_variants], in terms of the
    strings added to the set before the final comprehension. *)
Definition raw_variant (name x : pystr) : Prop :=
  x = normalize_name name
  ∨ (∃ suffix, suffix ∈ suffixes ∧ x = normalize_name (replace suffix [] name))
  ∨ x = replace (str " ") (str "_") (normalize_name name)
  ∨ x = normalize_name (re_delete match_parens name)
  ∨ x = normalize_name (replace (str "'") [] (replace (str "'s") (str "s") name))
  ∨ x = re_delete (match_tail is_sep_digits_tail) (normalize_name name).

(** ** The world the scripts act on

    The asset tree maps a path, written as the per-type directory and the file
    name in it, to the bytes of the file.  The network is an oracle: the answer
    to a request may depend on the url and on how many requests were made
    before it; [None] stands for the exception [urlopen] raises (time-out,
    refused connection, error status).  The log lists the requests made, each
    with the purpose the caller made it for (the listing page of a type, the
    pages tried for one entry, the image saved for one entry); it is what "a
    request for entry E" refers to.  [time.sleep] and [print] change nothing
    that is modelled. *)

Abbreviation payload := (list Byte.byte).

Abbreviation path := (pystr * pystr)%type.

(** [len(data)] *)
Definition len {A} (l : list A) : Z := Z.of_nat (length l).

Inductive purpose : Type :=
  | Listing
  | PageOf (entity_type entity_id : pystr)
  | ImageOf (entity_type entity_id : pystr).

Global Instance purpose_eq_dec : EqDecision purpose.
Proof. solve_decision. Defined.

Record world : Type := World {
  fs : gmap path payload;
  log : list (purpose * pystr)
}.

Definition record_request (who : purpose) (url : pystr) (w : world) : world :=
  World (fs w) (log w ++ [(who, url)]).

Definition write_file (save_path : path) (data : payload) (w : world) : world :=
  World (<[save_path := data]> (fs w)) (log w).

(** [output_dir / f"{entity_id}.{ext}"] *)
Definition asset_path (output_dir entity_id ext : pystr) : path :=
  (output_dir, entity_id ++ str "." ++ ext).

(** ** Catalog files and asset file names

    A catalog file holds a JSON object whose members are lists of entity
    records, [{"items": [{"id": ..., "name": ..., ...}, ...]}].  An entity
    record is a dict from field names to JSON values.  A floating-point number
    is kept as its text. *)

#[local] Unset Elimination Schemes.

Inductive json : Type :=
  | JNull
  | JBool (b : bool)
  | JInt (n : Z)
  | JFloat (repr : pystr)
  | JStr (s : pystr)
  | JArr (items : list json)
  | JObj (members : list (pystr * json)).

#[local] Set Elimination Schemes.

Abbreviation entity := (gmap pystr json).

Abbreviation catalog := (gmap pystr (list entity)).

(** [entity.get(key, default)] with the empty string as the default *)
Definition entity_get (e : entity) (key : pystr) : json :=
  default (JStr []) (e !! key).

(** The same, where the scripts go on to use the value as a
    string; the catalog schema has strings for "id" and "name". *)
Definition entity_get_str (e : entity) (key : pystr) : pystr :=
  match entity_get e key with
  | JStr s => s
  | _ => []
  end.

(** [name.rfind('.')] *)
Fixpoint rfind_dot_go (i : nat) (found : option nat) (s : pystr) : option nat :=
  match s with
  | [] => found
  | c :: t => rfind_dot_go (S i) (if bool_decide (c = ".") then Some i else found) t
  end.

Definition rfind_dot (s : pystr) : option nat := rfind_dot_go 0 None s.

(** [Path(name).stem]: the name without its last suffix; a dot that starts or
    ends the name does not start a suffix. *)
Definition stem (name : pystr) : pystr :=
  match rfind_dot name with
  | Some i => if (0 <? i)%nat && (i <? length name - 1)%nat then take i name else name
  | None => name
  end.

(** [f"images/{entity_type}/{img_file.name}"] *)
Definition rel_path (entity_type file_name : pystr) : pystr :=
  str "images/" ++ entity_type ++ str "/" ++ file_name.

(** The dict [images] the sync code builds from a directory listing: the
    names of the regular files of the directory, in the order [iterdir] yields
    them.  A later file with the same stem replaces an earlier one. *)
Definition images_of_listing (entity_type : pystr) (files : list pystr)
    : gmap pystr pystr :=
  foldl (λ images img_file, <[stem img_file := rel_path entity_type img_file]> images)
        ∅ files.

(** [entity_id in images], for the value read from the record: a string is
    looked up, an array or object is unhashable and raises [TypeError] (here
    [None]), any other value is not a key. *)
Definition images_get (images : gmap pystr pystr) (entity_id : json)
    : option (option pystr) :=
  match entity_id with
  | JStr s => Some (images !! s)
  | JArr _ | JObj _ => None
  | _ => Some None
  end.

(** ** update-json-images.py *)

Module Sync.

(** [listing] is [None] when the image directory does not exist. *)
Definition get_available_images (entity_type : pystr)
    (listing : option (list pystr)) : gmap pystr pystr :=
  match listing with
  | None => ∅
  | Some files => images_of_listing entity_type files
  end.

(** The body of the loop over the entities: the record after the step and
    whether it counts as updated. *)
Definition update_entity (images : gmap pystr pystr) (e : entity)
    : option (entity * bool) :=
  let entity_id := entity_get e (str "id") in
  found ← images_get images entity_id;
  match found with
  | Some rel => Some (<[str "image" := JStr rel]> e, true)
  | None =>
      (* Remove image field if no image exists *)
      Some (delete (str "image") e, false)
  end.

Fixpoint update_entities (images : gmap pystr pystr) (entities : list entity)
    (updated : nat) : option (list entity * nat) :=
  match entities with
  | [] => Some ([], updated)
  | e :: rest =>
      '(e', hit) ← update_entity images e;
      '(rest', updated) ← update_entities images rest
                            (if hit : bool then S updated else updated);
      Some (e' :: rest', updated)
  end.

(** [json_file] is the content of [<entity_type>.json], [None] when the file
    does not exist.  The result is [None] when an exception leaves the
    function before the file is written back; otherwise it is the content of
    the file afterwards and the returned count. *)
Definition update_json_file (json_file : option catalog)
    (listing : option (list pystr)) (entity_type list_key : pystr)
    : option (option catalog * nat) :=
  match json_file with
  | None => Some (None, 0)
  | Some data =>
      let images := get_available_images entity_type listing in
      match data !! list_key with
      | Some entities =>
          '(entities, updated) ← update_entities images entities 0;
          Some (Some (<[list_key := entities]> data), updated)
      | None => Some (Some data, 0)
      end
  end.

Definition configs : list (pystr * pystr) :=
  [(str "items", str "items"); (str "weapons", str "weapons");
   (str "characters", str "characters"); (str "tomes", str "tomes")].

(** [main]: [json_files] maps a type to the content of its catalog file and
    [listings] a type to the listing of its image directory.  The result is
    the catalog files afterwards and the total reported, [None] when an
    exception ends the script; the files written before it stay written. *)
Definition main (json_files : gmap pystr catalog)
    (listings : pystr → option (list pystr))
    : gmap pystr catalog * option nat :=
  foldl (λ acc config,
           let '(files, total) := acc in
           match total with
           | Some total =>
               let '(entity_type, list_key) := config in
               (* Update each entity type *)
               match update_json_file (files !! entity_type)
                                      (listings entity_type) entity_type list_key
               with
               | Some (Some data, count) =>
                   (<[entity_type := data]> files, Some (total + count))
               | Some (None, count) => (files, Some (total + count))
               | None => (files, None)
               end
           | None => acc
           end)
        (json_files, Some 0) configs.

End Sync.

(** ** fetch-missing-images.py: the catalog update at the end of [main] *)

Module MissingSync.

Definition update_entity (images : gmap pystr pystr) (e : entity)
    : option entity :=
  let entity_id := entity_get e (str "id") in
  found ← images_get images entity_id;
  match found with
  | Some rel => Some (<[str "image" := JStr rel]> e)
  | None => Some e
  end.

(** The body of [for entity_type in ["items", "weapons", "tomes"]]: opening a
    missing catalog file and listing a missing directory both raise. *)
Definition update_json (json_file : option catalog)
    (listing : option (list pystr)) (entity_type : pystr) : option catalog :=
  data ← json_file;
  files ← listing;
  let images := images_of_listing entity_type files in
  match data !! entity_type with
  | Some entities =>
      entities ← mapM (update_entity images) entities;
      Some (<[entity_type := entities]> data)
  | None => Some data
  end.

End MissingSync.

(** ** Dicts whose iteration order is observed *)

Abbreviation dict := (list (pystr * pystr)).

(** [d.get(key)] *)
Fixpoint dict_get (d : dict) (key : pystr) : option pystr :=
  match d with
  | [] => None
  | (k, v) :: rest => if decide (k = key) then Some v else dict_get rest key
  end.

(** [d[key] = value] for a key that [d] does not hold: the new item comes
    last in the iteration order. *)
Definition dict_add (d : dict) (key value : pystr) : dict := d ++ [(key, value)].

(** ** File extensions of image urls *)

Definition image_exts : list pystr := [str "png"; str "jpg"; str "jpeg"; str "gif"].

(** The alternative of [\.(png|jpg|jpeg|gif)] that matches at the head of [s]
    under [re.IGNORECASE], lowercased. *)
Definition ext_at (s : pystr) : option pystr :=
  list_find (λ ext, starts_with (str "." ++ ext) (lower s) = true) image_exts
  ≫= λ hit, Some hit.2.

(** [re.search(r'\.(png|jpg|jpeg|gif)', url, re.IGNORECASE)], then
    [group(1).lower()] *)
Fixpoint search_ext (s : pystr) : option pystr :=
  match ext_at s with
  | Some ext => Some ext
  | None =>
      match s with
      | [] => None
      | _ :: t => search_ext t
      end
  end.

(** [ext_match.group(1).lower() if ext_match else "png"] *)
Definition image_ext (img_url : pystr) : pystr :=
  default (str "png") (search_ext img_url).

(** The files of the per-type image directory, as the stems the scripts
    collect: [{f.stem for f in img_dir.iterdir() if f.is_file()}], empty when
    the directory does not exist. *)
Definition existing_stems (w : world) (entity_type : pystr) : gset pystr :=
  set_omap (λ p : path, if decide (p.1 = entity_type) then Some (stem p.2) else None)
           (dom (fs w)).

(** ** scrape-images-v2.py *)

Module V2.

Definition BASE_URL : pystr := str "https://megabonk.fandom.com".

Definition WIKI_PAGES : dict :=
  [(str "items", str "/wiki/Items"); (str "weapons", str "/wiki/Weapons");
   (str "characters", str "/wiki/Characters"); (str "tomes", str "/wiki/Tomes")].

Section pipeline.
(** The order in which a [for] loop walks a set. *)
Variable iter_set : gset pystr → list pystr.
(** [urlopen(...).read().decode('utf-8')] and [urlopen(...).read()], [None]
    when an exception is raised. *)
Variable http_text : nat → pystr → option pystr.
Variable http_bytes : nat → pystr → option payload.
(** The (alt text or file name, url) pairs of the [img] tags of a page that
    [WikiImageParser] looks at, in document order. *)
Variable img_tags : pystr → list (pystr * pystr).
(** [str.title] *)
Variable title : pystr → pystr.

(** [parser.feed(html); parser.images]: a pair is kept [if name and img_url]. *)
Definition parse_images (html : pystr) : list (pystr * pystr) :=
  filter (λ img, img.1 ≠ [] ∧ img.2 ≠ []) (img_tags html).

Definition fetch_page (who : purpose) (url : pystr) (w : world)
    : option pystr * world :=
  (http_text (length (log w)) url, record_request who url w).

Definition download_image (who : purpose) (url : pystr) (save_path : path)
    (w : world) : bool * world :=
  match http_bytes (length (log w)) url with
  | Some data =>
      let w := record_request who url w in
      (true, write_file save_path data w)
  | None => (false, record_request who url w)
  end.

(** [if variant and variant not in name_to_id: name_to_id[variant] = entity_id] *)
Definition claim_variant (entity_id : pystr) (name_to_id : dict)
    (variant : pystr) : dict :=
  if bool_decide (variant ≠ []) && bool_decide (dict_get name_to_id variant = None)
  then dict_add name_to_id variant entity_id
  else name_to_id.

(** The body of [for entity in entities]. *)
Definition load_entity (existing : gset pystr) (acc : dict * list pystr)
    (e : entity) : dict * list pystr :=
  let '(name_to_id, missing_ids) := acc in
  let entity_id := entity_get_str e (str "id") in
  let entity_name := entity_get_str e (str "name") in
  (* Skip if we already have this image *)
  if decide (entity_id ∈ existing) then (name_to_id, missing_ids)
  else
    let missing_ids := missing_ids ++ [entity_id] in
    (* Create all name variants and map them to this ID *)
    let variants := create_name_variants entity_name in
    let variants :=
      variants ∪ create_name_variants (replace (str "_") (str " ") entity_id) in
    (foldl (claim_variant entity_id) name_to_id (iter_set variants), missing_ids).

(** [json_file] is the content of [<entity_type>.json], [None] when the file
    does not exist. *)
Definition load_entities (json_file : option catalog) (w : world)
    (entity_type : pystr) : dict * list pystr :=
  match json_file with
  | None => ([], [])
  | Some data =>
      let entities := default [] (data !! entity_type) in
      (* Check what images we already have *)
      let existing := existing_stems w entity_type in
      foldl (load_entity existing) ([], []) entities
  end.

(** [for variant in variants: if variant in name_to_id: return name_to_id[variant]] *)
Fixpoint exact_tier (variants : list pystr) (name_to_id : dict) : option pystr :=
  match variants with
  | [] => None
  | variant :: rest =>
      match dict_get name_to_id variant with
      | Some entity_id => Some entity_id
      | None => exact_tier rest name_to_id
      end
  end.

(** The loop over [name_to_id.items()] that tries partial matching. *)
Fixpoint weak_tier (normalized : pystr) (items : dict) : option pystr :=
  match items with
  | [] => None
  | (name, entity_id) :: rest =>
      if (3 <? len name)%Z && (3 <? len normalized)%Z
         && (contains name normalized || contains normalized name)
      then Some entity_id
      else weak_tier normalized rest
  end.

Definition match_image_to_entity (img_name : pystr) (name_to_id : dict)
    : option pystr :=
  let variants := create_name_variants img_name in
  match exact_tier (iter_set variants) name_to_id with
  | Some entity_id => Some entity_id
  | None =>
      (* Try partial matching for longer names *)
      let normalized := normalize_name img_name in
      weak_tier normalized name_to_id
  end.

(** The state of the first loop of [scrape_entity_type].  [assigned] is not a
    variable of the script: it lists, in order, the (entity id, candidate)
    pairs for which the download succeeded, that is the iterations that
    count a download and add the id to [matched]. *)
Record pass : Type := Pass {
  downloaded : nat;
  matched : gset pystr;
  assigned : list (pystr * (pystr * pystr));
  now : world
}.

(** The body of [for img_name, img_url in parser.images]. *)
Definition match_step (name_to_id : dict) (entity_type : pystr) (st : pass)
    (img : pystr * pystr) : pass :=
  let '(img_name, img_url) := img in
  match match_image_to_entity img_name name_to_id with
  | Some entity_id =>
      if bool_decide (entity_id ≠ []) && bool_decide (entity_id ∉ matched st)
      then
        let ext := image_ext img_url in
        let save_path := asset_path entity_type entity_id ext in
        let '(ok, w) :=
          download_image (ImageOf entity_type entity_id) img_url save_path (now st) in
        if ok
        then Pass (S (downloaded st)) ({[entity_id]} ∪ matched st)
                  (assigned st ++ [(entity_id, img)]) w
        else Pass (downloaded st) (matched st) (assigned st) w
      else st
  | None => st
  end.

Definition match_pass (name_to_id : dict) (entity_type : pystr)
    (images : list (pystr * pystr)) (w : world) : pass :=
  foldl (match_step name_to_id entity_type) (Pass 0 ∅ [] w) images.

(** The loop over the images of the page of one entity: the first image that
    is not a tiny icon and downloads ends the loop. *)
Fixpoint first_page_image (entity_type entity_id : pystr)
    (images : list (pystr * pystr)) (w : world) : bool * world :=
  match images with
  | [] => (false, w)
  | (img_name, img_url) :: rest =>
      (* Skip tiny icons *)
      if contains (str "icon") (lower img_url) && contains (str "32") img_url
      then first_page_image entity_type entity_id rest w
      else
        let ext := image_ext img_url in
        let save_path := asset_path entity_type entity_id ext in
        let '(ok, w) := download_image (ImageOf entity_type entity_id) img_url save_path w in
        if ok then (true, w)
        else first_page_image entity_type entity_id rest w
  end.

(** The body of [for entity_id in still_missing]. *)
Definition page_step (entity_type : pystr) (st : pass) (entity_id : pystr)
    : pass :=
  (* Convert ID to wiki page name *)
  let page_name :=
    replace (str " ") (str "_") (title (replace (str "_") (str " ") entity_id)) in
  let page_url := BASE_URL ++ str "/wiki/" ++ page_name in
  let '(html, w) := fetch_page (PageOf entity_type entity_id) page_url (now st) in
  match html with
  | Some ((_ :: _) as html) =>
      let '(ok, w) :=
        first_page_image entity_type entity_id (parse_images html) w in
      if ok
      then Pass (S (downloaded st)) ({[entity_id]} ∪ matched st) (assigned st) w
      else Pass (downloaded st) (matched st) (assigned st) w
  | _ => Pass (downloaded st) (matched st) (assigned st) w
  end.

(** The result is the count returned and the world afterwards. *)
Definition scrape_entity_type (json_file : option catalog)
    (entity_type wiki_path : pystr) (w : world) : nat * world :=
  let '(name_to_id, missing_ids) := load_entities json_file w entity_type in
  match missing_ids with
  | [] => (0, w)
  | _ =>
      (* Fetch main wiki page *)
      let url := BASE_URL ++ wiki_path in
      let '(html, w) := fetch_page Listing url w in
      match html with
      | Some ((_ :: _) as html) =>
          let st := match_pass name_to_id entity_type (parse_images html) w in
          (* Try individual pages for remaining missing items *)
          let still_missing :=
            filter (λ eid, eid ∉ matched st) missing_ids in
          let st :=
            if bool_decide (still_missing ≠ []) && (len still_missing <=? 30)%Z
            then foldl (page_step entity_type) st still_missing
            else st in
          (downloaded st, now st)
      | _ => (0, w)
      end
  end.

(** The body of [for entity_type in WIKI_PAGES.keys()] of
    [update_json_with_images]: the content of the catalog file afterwards.
    A missing catalog file and a missing image directory both end the
    iteration with [continue], before anything is written; the loop over the
    entities is the loop of update-json-images.py.  [None] is an exception. *)
Definition update_json_type (json_file : option catalog)
    (listing : option (list pystr)) (entity_type : pystr)
    : option (option catalog) :=
  match json_file with
  | None => Some None
  | Some data =>
      match listing with
      | None => Some (Some data)
      | Some files =>
          (* Get available images *)
          let images := images_of_listing entity_type files in
          (* Update entities *)
          match data !! entity_type with
          | Some entities =>
              '(entities, updated) ← Sync.update_entities images entities 0;
              Some (Some (<[entity_type := entities]> data))
          | None => Some (Some data)
          end
      end
  end.

(** [iterdir ty w] is the listing of the image directory of a type in the
    world [w], [None] when the directory does not exist. *)
Variable iterdir : pystr → world → option (list pystr).

(** [json_files] maps a type to the content of its catalog file. *)
Definition update_json_with_images (json_files : gmap pystr catalog) (w : world)
    : option (gmap pystr catalog) :=
  foldl (λ acc entity_type,
           files ← acc;
           out ← update_json_type (files !! entity_type) (iterdir entity_type w)
                                  entity_type;
           match out with
           | Some data => Some (<[entity_type := data]> files)
           | None => Some files
           end)
        (Some json_files) (WIKI_PAGES.*1).

(** The loop of [main] over the types: the total count and the world. *)
Definition scrape_all (json_files : gmap pystr catalog) (w : world)
    : nat * world :=
  foldl (λ acc page,
           let '(total_downloaded, w) := acc in
           let '(entity_type, wiki_path) := page in
           let '(count, w) :=
             scrape_entity_type (json_files !! entity_type) entity_type wiki_path w in
           (total_downloaded + count, w))
        (0, w) WIKI_PAGES.

(** [main]: the catalog files afterwards ([None] when the update raises),
    the total count and the world. *)
Definition main (json_files : gmap pystr catalog) (w : world)
    : option (gmap pystr catalog) * nat * world :=
  let '(total_downloaded, w) := scrape_all json_files w in
  (* Update JSON files *)
  (update_json_with_images json_files w, total_downloaded, w).

End pipeline.
End V2.

(** ** scrape-images.py *)

Module V1.

Definition BASE_URL : pystr := str "https://megabonk.fandom.com".

Definition WIKI_PAGES : dict :=
  [(str "items", str "/wiki/Items"); (str "weapons", str "/wiki/Weapons");
   (str "characters", str "/wiki/Characters"); (str "tomes", str "/wiki/Tomes")].

(** [None] is Python's [None], returned for an empty name. *)
Definition normalize_name (name : pystr) : option pystr :=
  match name with
  | [] => None
  | _ =>
      let normalized := strip (lower name) in
      let normalized := drop_special normalized in
      let normalized := sub_ws "_" normalized in
      Some normalized
  end.

(** A whole tail matches [_(icon|img|image)]. *)
Definition is_icon_tail (s : pystr) : bool :=
  bool_decide (s ∈ [str "_icon"; str "_img"; str "_image"]).

(** A whole tail matches [_+]. *)
Definition is_underscores_tail (s : pystr) : bool :=
  bool_decide (s ≠ []) && forallb (λ c, bool_decide (c = "_")) s.

(** A whole tail matches [_\d+]. *)
Definition is_number_tail (s : pystr) : bool :=
  match s with
  | "_" :: ((_ :: _) as digits) => forallb is_digit digits
  | _ => false
  end.

(** The body of [for entity in entities] of [load_entity_names]; [None] when
    the name is empty, where [re.sub] is handed [None] and raises. *)
Definition load_entity (name_to_id : gmap pystr pystr) (e : entity)
    : option (gmap pystr pystr) :=
  let entity_id := entity_get_str e (str "id") in
  let entity_name := entity_get_str e (str "name") in
  normalized ← normalize_name entity_name;
  (* Map various name forms to the ID *)
  let name_to_id := <[normalized := entity_id]> name_to_id in
  let name_to_id := <[entity_id := entity_id]> name_to_id in
  (* Also map without common suffixes *)
  let name_no_suffix := re_delete (match_tail is_icon_tail) normalized in
  Some (<[name_no_suffix := entity_id]> name_to_id).

Definition known_types : list pystr :=
  [str "items"; str "weapons"; str "characters"; str "tomes"].

Definition load_entity_names (json_file : option catalog) (entity_type : pystr)
    : option (gmap pystr pystr) :=
  match json_file with
  | None => Some ∅
  | Some data =>
      let entities :=
        if bool_decide (entity_type ∈ known_types)
        then default [] (data !! entity_type) else [] in
      foldl (λ acc e, name_to_id ← acc; load_entity name_to_id e) (Some ∅) entities
  end.

(** [if not entity_id] for the result of [name_to_id.get(...)]. *)
Definition falsy (entity_id : option pystr) : bool :=
  match entity_id with
  | Some (_ :: _) => false
  | _ => true
  end.

(** The entity a candidate resolves to; the outer [None] is the [TypeError]
    of [re.sub] on a name that normalises to [None]. *)
Definition resolve (name_to_id : gmap pystr pystr) (img_name : pystr)
    : option (option pystr) :=
  let normalized := normalize_name img_name in
  let entity_id := normalized ≫= λ n, name_to_id !! n in
  (* Try alternate normalizations *)
  entity_id ←
    (if falsy entity_id
     then
       n ← normalized;
       (* Remove trailing underscores or numbers *)
       let alt_normalized := re_delete (match_tail is_underscores_tail) n in
       let alt_normalized := re_delete (match_tail is_number_tail) alt_normalized in
       Some (name_to_id !! alt_normalized)
     else Some entity_id);
  if falsy entity_id
  then
    (* Try the raw name *)
    Some (name_to_id !! replace (str " ") (str "_") (lower img_name))
  else Some entity_id.

Section pipeline.
Variable http_text : nat → pystr → option pystr.
Variable http_bytes : nat → pystr → option payload.
Variable img_tags : pystr → list (pystr * pystr).

Definition parse_images (html : pystr) : list (pystr * pystr) :=
  filter (λ img, img.1 ≠ [] ∧ img.2 ≠ []) (img_tags html).

Definition fetch_page (who : purpose) (url : pystr) (w : world)
    : option pystr * world :=
  (http_text (length (log w)) url, record_request who url w).

Definition download_image (who : purpose) (url : pystr) (save_path : path)
    (w : world) : bool * world :=
  match http_bytes (length (log w)) url with
  | Some data =>
      let w := record_request who url w in
      (true, write_file save_path data w)
  | None => (false, record_request who url w)
  end.

(** The loop over [parser.images]; the count is [None] when an exception ends
    the script. *)
Fixpoint download_matches (name_to_id : gmap pystr pystr) (entity_type : pystr)
    (images : list (pystr * pystr)) (downloaded : nat) (matched : gset pystr)
    (w : world) : option nat * world :=
  match images with
  | [] => (Some downloaded, w)
  | (img_name, img_url) :: rest =>
      match resolve name_to_id img_name with
      | None => (None, w)
      | Some (Some ((_ :: _) as entity_id)) =>
          if bool_decide (entity_id ∉ matched)
          then
            (* Determine file extension from URL *)
            let ext := image_ext img_url in
            let save_path := asset_path entity_type entity_id ext in
            let '(ok, w) :=
              download_image (ImageOf entity_type entity_id) img_url save_path w in
            if ok
            then download_matches name_to_id entity_type rest (S downloaded)
                                  ({[entity_id]} ∪ matched) w
            else download_matches name_to_id entity_type rest downloaded matched w
          else download_matches name_to_id entity_type rest downloaded matched w
      | Some _ => download_matches name_to_id entity_type rest downloaded matched w
      end
  end.

Definition scrape_entity_type (json_file : option catalog)
    (entity_type wiki_path : pystr) (w : world) : option nat * world :=
  (* Load entity names for matching *)
  match load_entity_names json_file entity_type with
  | None => (None, w)
  | Some name_to_id =>
      (* Fetch wiki page *)
      let url := BASE_URL ++ wiki_path in
      let '(html, w) := fetch_page Listing url w in
      match html with
      | Some ((_ :: _) as html) =>
          download_matches name_to_id entity_type (parse_images html) 0 ∅ w
      | _ => (Some 0, w)
      end
  end.

End pipeline.
End V1.

(** ** Dict assignment and extension search, as scrape-megabonk-wiki.py
    uses them *)

(** [d[key] = value]: the value of a key that [d] holds is replaced where it
    stands, a new key comes last. *)
Fixpoint dict_set (d : dict) (key value : pystr) : dict :=
  match d with
  | [] => [(key, value)]
  | (k, v) :: rest =>
      if decide (k = key) then (k, value) :: rest
      else (k, v) :: dict_set rest key value
  end.

(** [re.search(r'\.(e1|e2|...)', url, re.IGNORECASE)] with the alternatives
    [exts], then [group(1).lower()]. *)
Definition ext_at_of (exts : list pystr) (s : pystr) : option pystr :=
  list_find (λ ext, starts_with (str "." ++ ext) (lower s) = true) exts
  ≫= λ hit, Some hit.2.

Fixpoint search_ext_of (exts : list pystr) (s : pystr) : option pystr :=
  match ext_at_of exts s with
  | Some ext => Some ext
  | None =>
      match s with
      | [] => None
      | _ :: t => search_ext_of exts t
      end
  end.

(** ** scrape-megabonk-wiki.py *)

Module Wiki.
Section net.
Variable http_bytes : nat → pystr → option payload.

Definition download_image (who : purpose) (url : pystr) (save_path : path)
    (w : world) : bool * world :=
  match http_bytes (length (log w)) url with
  | Some data =>
      let w := record_request who url w in
      (* Skip if too small (likely placeholder) *)
      if (len data <? 500)%Z then (false, w)
      (* Skip if it's the wiki logo (check for consistent size) *)
      else if (len data =? 5320)%Z then (false, w)
      else (true, write_file save_path data w)
  | None => (false, record_request who url w)
  end.
End net.

Definition BASE_URL : pystr := str "https://megabonk.wiki".

Definition WIKI_PAGES : dict :=
  [(str "items", str "/wiki/Items"); (str "weapons", str "/wiki/Weapons");
   (str "tomes", str "/wiki/Tomes"); (str "characters", str "/wiki/Characters")].

(** Convert display name to ID format. *)
Definition create_id_from_name (name : pystr) : pystr :=
  match name with
  | [] => []
  | _ =>
      (* Convert to lowercase, replace spaces with underscores *)
      let id_form := strip (lower name) in
      let id_form := drop_special id_form in
      let id_form := sub_ws "_" id_form in
      id_form
  end.

(** The body of [for entity in data.get(entity_type, [])] of
    [load_entity_ids]. *)
Definition load_entity (name_to_id : dict) (e : entity) : dict :=
  let entity_id := entity_get_str e (str "id") in
  let entity_name := entity_get_str e (str "name") in
  if bool_decide (entity_id = []) then name_to_id
  else
    (* Add various forms *)
    let name_to_id := dict_set name_to_id (normalize_name entity_name) entity_id in
    let name_to_id :=
      dict_set name_to_id
               (normalize_name (replace (str "_") (str " ") entity_id)) entity_id in
    let name_to_id := dict_set name_to_id entity_id entity_id in
    (* Handle special cases *)
    let name_to_id :=
      if contains (str "'") entity_name
      then dict_set name_to_id
                    (normalize_name (replace (str "'") [] entity_name)) entity_id
      else name_to_id in
    let name_to_id :=
      if contains (str "(") entity_name
      then dict_set name_to_id
                    (normalize_name (re_delete match_parens entity_name)) entity_id
      else name_to_id in
    name_to_id.

(** [json_file] is the content of [<entity_type>.json], [None] when the file
    does not exist. *)
Definition load_entity_ids (json_file : option catalog) (entity_type : pystr)
    : dict :=
  match json_file with
  | None => []
  | Some data => foldl load_entity [] (default [] (data !! entity_type))
  end.

Definition prefixes : list pystr :=
  [str "item "; str "weapon "; str "tome "; str "character "].

(** [for prefix in [...]: if normalized.startswith(prefix): clean = ...; if
    clean in name_to_id: return name_to_id[clean]] *)
Fixpoint match_without_prefix (normalized : pystr) (name_to_id : dict)
    (prefixes : list pystr) : option pystr :=
  match prefixes with
  | [] => None
  | prefix :: rest =>
      if starts_with prefix normalized
      then
        let clean := drop (length prefix) normalized in
        match dict_get name_to_id clean with
        | Some entity_id => Some entity_id
        | None => match_without_prefix normalized name_to_id rest
        end
      else match_without_prefix normalized name_to_id rest
  end.

(** The partial match at the end is the loop of scrape-images-v2.py. *)
Definition match_image_to_entity (img_name : pystr) (name_to_id : dict)
    : option pystr :=
  (* Direct match *)
  let normalized := normalize_name img_name in
  match dict_get name_to_id normalized with
  | Some entity_id => Some entity_id
  | None =>
      (* Try without common prefixes/suffixes *)
      match match_without_prefix normalized name_to_id prefixes with
      | Some entity_id => Some entity_id
      | None =>
          (* Try ID form *)
          let id_form := create_id_from_name img_name in
          match dict_get name_to_id id_form with
          | Some entity_id => Some entity_id
          | None =>
              (* Partial match *)
              V2.weak_tier normalized name_to_id
          end
      end
  end.

Definition image_exts : list pystr :=
  [str "png"; str "jpg"; str "jpeg"; str "gif"; str "webp"].

(** [ext_match.group(1).lower() if ext_match else "png"] *)
Definition image_ext (img_url : pystr) : pystr :=
  default (str "png") (search_ext_of image_exts img_url).

Section pipeline.
Variable http_text : nat → pystr → option pystr.
Variable http_bytes : nat → pystr → option payload.
(** The (alt text or file name, full url) pairs of the [img] tags of a page
    that [WikiImageParser] accepts, in document order. *)
Variable img_tags : pystr → list (pystr * pystr).

(** [parser.feed(html); parser.images]: a pair is kept [if name]. *)
Definition parse_images (html : pystr) : list (pystr * pystr) :=
  filter (λ img, img.1 ≠ []) (img_tags html).

Definition fetch_page (who : purpose) (url : pystr) (w : world)
    : option pystr * world :=
  (http_text (length (log w)) url, record_request who url w).

Record pass : Type := Pass {
  downloaded : nat;
  matched : gset pystr;
  now : world
}.

(** The body of [for img_name, img_url in parser.images]. *)
Definition match_step (name_to_id : dict) (existing : gset pystr)
    (entity_type : pystr) (st : pass) (img : pystr * pystr) : pass :=
  let '(img_name, img_url) := img in
  match match_image_to_entity img_name name_to_id with
  | Some entity_id =>
      if bool_decide (entity_id ≠ []) && bool_decide (entity_id ∉ matched st)
      then
        (* Skip if already have this image *)
        if decide (entity_id ∈ existing)
        then Pass (downloaded st) ({[entity_id]} ∪ matched st) (now st)
        else
          (* Determine extension *)
          let ext := image_ext img_url in
          let save_path := asset_path entity_type entity_id ext in
          let '(ok, w) :=
            download_image http_bytes (ImageOf entity_type entity_id) img_url
                           save_path (now st) in
          if ok
          then Pass (S (downloaded st)) ({[entity_id]} ∪ matched st) w
          else Pass (downloaded st) (matched st) w
      else st
  | None => st
  end.

(** The result is the count returned and the world afterwards. *)
Definition scrape_entity_type (json_file : option catalog)
    (entity_type wiki_path : pystr) (w : world) : nat * world :=
  let name_to_id := load_entity_ids json_file entity_type in
  match name_to_id with
  | [] => (0, w)
  | _ =>
      (* Check existing images *)
      let existing := existing_stems w entity_type in
      (* Fetch wiki page *)
      let url := BASE_URL ++ wiki_path in
      let '(html, w) := fetch_page Listing url w in
      match html with
      | Some ((_ :: _) as html) =>
          let st :=
            foldl (match_step name_to_id existing entity_type) (Pass 0 ∅ w)
                  (parse_images html) in
          (downloaded st, now st)
      | _ => (0, w)
      end
  end.

(** [iterdir ty w] is the listing of the image directory of a type in the
    world [w], [None] when the directory does not exist. *)
Variable iterdir : pystr → world → option (list pystr).

(** [json_files] maps a type to the content of its catalog file.  The body of
    the loop over the types is that of scrape-images-v2.py. *)
Definition update_json_with_images (json_files : gmap pystr catalog) (w : world)
    : option (gmap pystr catalog) :=
  foldl (λ acc entity_type,
           files ← acc;
           out ← V2.update_json_type (files !! entity_type) (iterdir entity_type w)
                                     entity_type;
           match out with
           | Some data => Some (<[entity_type := data]> files)
           | None => Some files
           end)
        (Some json_files) (WIKI_PAGES.*1).

(** The loop of [main] over the types: the total count and the world. *)
Definition scrape_all (json_files : gmap pystr catalog) (w : world)
    : nat * world :=
  foldl (λ acc page,
           let '(total_downloaded, w) := acc in
           let '(entity_type, wiki_path) := page in
           let '(count, w) :=
             scrape_entity_type (json_files !! entity_type) entity_type wiki_path w in
           (total_downloaded + count, w))
        (0, w) WIKI_PAGES.

(** [main]: the catalog files afterwards ([None] when the update raises),
    the total count and the world. *)
Definition main (json_files : gmap pystr catalog) (w : world)
    : option (gmap pystr catalog) * nat * world :=
  let '(total_downloaded, w) := scrape_all json_files w in
  (* Update JSON files *)
  (update_json_with_images json_files w, total_downloaded, w).

End pipeline.
End Wiki.

(** ** fetch-missing-images.py *)

Module Missing.

Definition BASE_URL : pystr := str "https://megabonk.fandom.com".

Abbreviation table := (list (pystr * list pystr)).

(** Missing items with possible wiki page names to try *)
Definition MISSING_ITEMS : table :=
  [ (str "anvil", [str "Anvil"; str "Anvil_(Item)"; str "Anvil_Item"]);
    (str "big_bonk", [str "Big_Bonk"; str "BigBonk"; str "Big_bonk"]);
    (str "spicy_meatball", [str "Spicy_Meatball"; str "SpicyMeatball"; str "Spicy_meatball"]);
    (str "sucky_magnet", [str "Sucky_Magnet"; str "SuckyMagnet"; str "Magnet"]);
    (str "za_warudo", [str "Za_Warudo"; str "ZaWarudo"; str "Za_warudo"; str "The_World"]);
    (str "holy_book", [str "Holy_Book"; str "HolyBook"; str "Holy_book"]);
    (str "chonkplate", [str "Chonkplate"; str "Chonk_Plate"; str "ChonkPlate"]);
    (str "overpowered_lamp", [str "Overpowered_Lamp"; str "OP_Lamp"; str "Lamp"]);
    (str "lightning_orb", [str "Lightning_Orb"; str "LightningOrb"; str "Lightning_orb"]);
    (str "ice_cube", [str "Ice_Cube"; str "IceCube"; str "Ice_cube"]);
    (str "dragonfire", [str "Dragonfire"; str "Dragon_Fire"; str "DragonFire"]);
    (str "joes_dagger", [str "Joe%27s_Dagger"; str "Joes_Dagger"; str "Joe's_Dagger"]);
    (str "bloody_cleaver", [str "Bloody_Cleaver"; str "BloodyCleaver"; str "Bloody_cleaver"]);
    (str "soul_harvester", [str "Soul_Harvester"; str "SoulHarvester"; str "Soul_harvester"]);
    (str "energy_core", [str "Energy_Core"; str "EnergyCore"; str "Energy_core"]);
    (str "speed_boi", [str "Speed_Boi"; str "SpeedBoi"; str "Speed_boi"]);
    (str "giant_fork", [str "Giant_Fork"; str "GiantFork"; str "Giant_fork"]);
    (str "power_gloves", [str "Power_Gloves"; str "PowerGloves"; str "Power_gloves"]);
    (str "tactical_glasses", [str "Tactical_Glasses"; str "TacticalGlasses"; str "Tactical_glasses"]) ].

Definition MISSING_WEAPONS : table :=
  [ (str "bow", [str "Bow"; str "Bow_(Weapon)"; str "Bow_Weapon"]);
    (str "black_hole", [str "Black_Hole"; str "BlackHole"; str "Black_hole"]);
    (str "slutty_rocket", [str "Slutty_Rocket"; str "SluttyRocket"; str "Slutty_rocket"]);
    (str "firestaff", [str "Firestaff"; str "Fire_Staff"; str "FireStaff"]);
    (str "chunkers", [str "Chunkers"; str "Chunker"; str "Chunkers_(Weapon)"]);
    (str "hero_sword", [str "Hero_Sword"; str "HeroSword"; str "Hero_sword"]);
    (str "flamewalker", [str "Flamewalker"; str "Flame_Walker"; str "FlameWalker"]) ].

Definition MISSING_TOMES : table :=
  [ (str "hp", [str "HP_Tome"; str "HPTome"; str "HP"; str "Health_Tome"]);
    (str "projectile_speed",
     [str "Projectile_Speed_Tome"; str "ProjectileSpeedTome"; str "Projectile_Speed"]);
    (str "xp", [str "XP_Tome"; str "XPTome"; str "XP"; str "Experience_Tome"]) ].

(** [list(output_dir.glob(f"{entity_id}.*"))] is not empty: some entry of the
    directory has a name that starts with the id and a dot.  The ids of the
    tables hold no character that is special in a glob pattern. *)
Definition glob_exists (w : world) (output_dir entity_id : pystr) : bool :=
  bool_decide (set_Exists
                 (λ p : path, p.1 = output_dir
                              ∧ starts_with (entity_id ++ str ".") p.2 = true)
                 (dom (fs w))).

Section pipeline.
Variable http_text : nat → pystr → option pystr.
Variable http_bytes : nat → pystr → option payload.
(** The urls [ImageExtractor] collects from a page, in document order. *)
Variable extract_images : pystr → list pystr.

Definition fetch_page (who : purpose) (url : pystr) (w : world)
    : option pystr * world :=
  (http_text (length (log w)) url, record_request who url w).

Definition download_image (who : purpose) (url : pystr) (save_path : path)
    (w : world) : bool * world :=
  match http_bytes (length (log w)) url with
  | Some data =>
      let w := record_request who url w in
      (true, write_file save_path data w)
  | None => (false, record_request who url w)
  end.

(** The loops of the form [for img_url in parser.images: if accept: ... if
    download_image(img_url, save_path): return True]. *)
Fixpoint first_image (entity_id output_dir : pystr) (accept : pystr → bool)
    (images : list pystr) (w : world) : bool * world :=
  match images with
  | [] => (false, w)
  | img_url :: rest =>
      if accept img_url
      then
        let ext := image_ext img_url in
        let save_path := asset_path output_dir entity_id ext in
        let '(ok, w) :=
          download_image (ImageOf output_dir entity_id) img_url save_path w in
        if ok then (true, w)
        else first_image entity_id output_dir accept rest w
      else first_image entity_id output_dir accept rest w
  end.

(** Fetch one page and try its images. *)
Definition try_page (entity_id output_dir : pystr) (accept : pystr → bool)
    (url : pystr) (w : world) : bool * world :=
  let '(html, w) := fetch_page (PageOf output_dir entity_id) url w in
  match html with
  | Some ((_ :: _) as html) =>
      first_image entity_id output_dir accept (extract_images html) w
  | _ => (false, w)
  end.

(** Try multiple wiki page names to find an image. *)
Fixpoint try_fetch_from_wiki (entity_id : pystr) (page_names : list pystr)
    (output_dir : pystr) (w : world) : bool * world :=
  match page_names with
  | [] => (false, w)
  | page_name :: rest =>
      let url := BASE_URL ++ str "/wiki/" ++ page_name in
      let '(found, w) :=
        try_page entity_id output_dir (λ img_url, bool_decide (img_url ≠ [])) url w in
      if found then (true, w)
      else try_fetch_from_wiki entity_id rest output_dir w
  end.

(** The body of [for term in search_terms]. *)
Definition search_term (entity_id output_dir term : pystr) (w : world)
    : bool * world :=
  (* Try File: namespace *)
  let url := BASE_URL ++ str "/wiki/File:" ++ term ++ str ".png" in
  let '(found, w) :=
    try_page entity_id output_dir
      (λ img_url, contains (lower term) (lower img_url)) url w in
  if found then (true, w)
  else
    (* Also try .jpg *)
    let url := BASE_URL ++ str "/wiki/File:" ++ term ++ str ".jpg" in
    try_page entity_id output_dir (λ _, true) url w.

Fixpoint search_terms_loop (entity_id output_dir : pystr) (terms : list pystr)
    (w : world) : bool * world :=
  match terms with
  | [] => (false, w)
  | term :: rest =>
      let '(found, w) := search_term entity_id output_dir term w in
      if found then (true, w)
      else search_terms_loop entity_id output_dir rest w
  end.

(** Search the wiki's file/image gallery. *)
Definition search_in_gallery (entity_name output_dir entity_id : pystr)
    (w : world) : bool * world :=
  let search_terms :=
    [ replace (str " ") (str "_") entity_name;
      replace (str " ") [] entity_name;
      replace (str " ") (str "_") (replace (str "'") [] entity_name) ] in
  search_terms_loop entity_id output_dir search_terms w.

(** The body of [for entity_id, page_names in MISSING_....items()].  Every
    list of page names in the tables has a first element. *)
Definition find_entity (output_dir : pystr) (st : nat * world)
    (row : pystr * list pystr) : nat * world :=
  let '(total, w) := st in
  let '(entity_id, page_names) := row in
  (* Check if already exists *)
  if glob_exists w output_dir entity_id then (total, w)
  else
    (* Try wiki pages *)
    let '(found, w) := try_fetch_from_wiki entity_id page_names output_dir w in
    if found then (S total, w)
    else
      (* Try file gallery *)
      let entity_name := replace (str "_") (str " ") (default [] (head page_names)) in
      let '(found, w) := search_in_gallery entity_name output_dir entity_id w in
      if found then (S total, w) else (total, w).

Definition find_table (rows : table) (output_dir : pystr) (st : nat * world)
    : nat * world :=
  foldl (find_entity output_dir) st rows.

(** The three loops of [main]: the number of images found and the world
    afterwards. *)
Definition main_fetch (w : world) : nat * world :=
  let st := find_table MISSING_ITEMS (str "items") (0, w) in
  let st := find_table MISSING_WEAPONS (str "weapons") st in
  find_table MISSING_TOMES (str "tomes") st.

(** [iterdir ty w] is the listing of the image directory of a type in the
    world [w], [None] when the directory does not exist. *)
Variable iterdir : pystr → world → option (list pystr).

(** [main]: the catalog files afterwards ([None] when the update raises) and
    the world. *)
Definition main (json_files : gmap pystr catalog) (w : world)
    : option (gmap pystr catalog) * world :=
  let '(total, w) := main_fetch w in
  (* Update JSON *)
  if (0 <? total)%nat
  then
    (foldl (λ acc entity_type,
              files ← acc;
              data ← MissingSync.update_json (files !! entity_type)
                                             (iterdir entity_type w) entity_type;
              Some (<[entity_type := data]> files))
           (Some json_files) [str "items"; str "weapons"; str "tomes"], w)
  else (Some json_files, w).

End pipeline.
End Missing.

(** * Predicates of the statements, and the data of the examples *)

Definition is_alnum_az (c : ascii) : bool :=
  is_lower_az c || is_upper_az c || is_digit c.

Definition placeholder_payload : payload := replicate (Z.to_nat 5320) Byte.x00.

Definition rejected (data : payload) : Prop :=
  (len data < 500 ∨ len data = 5320)%Z.

Definition anvil_png : path := asset_path (str "items") (str "anvil") (str "png").

(** An asset file for the id [s] exists among [files]. *)
Definition has_asset (files : list pystr) (s : pystr) : Prop :=
  ∃ f, f ∈ files ∧ stem f = s.

(** The value read as the id of a record can be looked up in a dict. *)
Definition hashable (j : json) : Prop :=
  match j with
  | JArr _ | JObj _ => False
  | _ => True
  end.

(** What one step of the loop of [update_json_file] does to the image
    reference of a record. *)
Definition image_synced (ty : pystr) (files : list pystr) (e e' : entity) : Prop :=
  match entity_get e (str "id") with
  | JStr s =>
      (has_asset files s →
         ∃ f, f ∈ files ∧ stem f = s
              ∧ e' !! str "image" = Some (JStr (rel_path ty f)))
      ∧ (¬ has_asset files s → e' !! str "image" = None)
  | _ => e' !! str "image" = None
  end.

Definition same_but_image (e e' : entity) : Prop :=
  ∀ field, field ≠ str "image" → e' !! field = e !! field.

Definition ids_hashable (entities : list entity) : Prop :=
  Forall (λ e, hashable (entity_get e (str "id"))) entities.

(** The records of the examples: an anvil with a stale image reference and a
    bow, and a directory that holds an image for the anvil only. *)
Definition anvil_entity : entity :=
  {[ str "id" := JStr (str "anvil"); str "name" := JStr (str "Anvil");
     str "image" := JStr (str "images/items/old.gif") ]}.

Definition bow_entity : entity :=
  {[ str "id" := JStr (str "bow"); str "name" := JStr (str "Bow");
     str "tier" := JInt 2;
     str "image" := JStr (str "images/items/bow.png") ]}.

Definition items_catalog : catalog :=
  {[ str "items" := [anvil_entity; bow_entity] ]}.

(** What the catalog update of fetch-missing-images.py does to a record: the
    image reference is set when an asset file exists, and the record is left
    as it is otherwise. *)
Definition image_added (ty : pystr) (files : list pystr) (e e' : entity) : Prop :=
  match entity_get e (str "id") with
  | JStr s =>
      (has_asset files s →
         ∃ f, f ∈ files ∧ stem f = s
              ∧ e' = <[str "image" := JStr (rel_path ty f)]> e)
      ∧ (¬ has_asset files s → e' = e)
  | _ => e' = e
  end.

(** The image references of the records of a catalog file, in order. *)
Definition image_refs (file : option catalog) (list_key : pystr)
    : option (list (option json)) :=
  match file with
  | Some data =>
      match data !! list_key with
      | Some entities => Some (map (λ e : entity, e !! str "image") entities)
      | None => None
      end
  | None => None
  end.

(** The keys an entry brings to the index: the variants of its display name
    and of its id read as a name. *)
Definition entry_id (e : entity) : pystr := entity_get_str e (str "id").

Definition entry_keys (e : entity) : gset pystr :=
  create_name_variants (entity_get_str e (str "name"))
  ∪ create_name_variants (replace (str "_") (str " ") (entry_id e)).

(** The index as the specification words it: a key belongs to the first
    entry, in catalog order and among the entries without an asset file, that
    has it among its variants. *)
Fixpoint first_writer (existing : gset pystr) (entities : list entity)
    (key : pystr) : option pystr :=
  match entities with
  | [] => None
  | e :: rest =>
      if decide ((entry_id e ∉ existing) ∧ key ∈ entry_keys e)
      then Some (entry_id e)
      else first_writer existing rest key
  end.

(** A catalog of two swords: the second one's name extends the first one's by
    a suffix word. *)
Definition sword_entity : entity :=
  {[ str "id" := JStr (str "sword"); str "name" := JStr (str "Sword") ]}.

Definition sword_icon_entity : entity :=
  {[ str "id" := JStr (str "sword_icon"); str "name" := JStr (str "Sword Icon") ]}.

Definition swords_catalog : catalog :=
  {[ str "items" := [sword_entity; sword_icon_entity] ]}.

(** A world in which the sword has its image. *)
Definition sword_world : world :=
  World {[ asset_path (str "items") (str "sword") (str "png") := [Byte.x89] ]} [].

(** [v] is a variant of the candidate's name and a key of the index, for the
    entry [A]. *)
Definition exact_hit (img_name : pystr) (name_to_id : dict) (v A : pystr) : Prop :=
  v ∈ create_name_variants img_name ∧ dict_get name_to_id v = Some A.

Definition swords_index : dict :=
  (V2.load_entities elements (Some swords_catalog) (World ∅ []) (str "items")).1.

(** What holds of the state of the first loop of [scrape_entity_type] after
    every iteration. *)
Record pass_ok (iter_set : gset pystr → list pystr) (name_to_id : dict)
    (entity_type : pystr) (st : V2.pass) : Prop := PassOk {
  ok_matched : ∀ e, e ∈ V2.matched st ↔ e ∈ (V2.assigned st).*1;
  ok_nodup : NoDup (V2.assigned st).*1;
  ok_resolved : ∀ e img, (e, img) ∈ V2.assigned st →
                  V2.match_image_to_entity iter_set img.1 name_to_id = Some e;
  ok_count : V2.downloaded st = length (V2.assigned st);
  ok_saved : ∀ e img, (e, img) ∈ V2.assigned st →
               is_Some (fs (V2.now st)
                        !! asset_path entity_type e (image_ext img.2))
}.

(** The request [who] is made for the entry [entity_id] of [entity_type]:
    one of its pages is fetched or its image is downloaded. *)
Definition for_entry (entity_type entity_id : pystr) (who : purpose) : Prop :=
  who = PageOf entity_type entity_id ∨ who = ImageOf entity_type entity_id.

(** Every request of [reqs] made for an entry is made for one that [P] holds
    of. *)
Definition only_for (P : pystr → pystr → Prop) (reqs : list (purpose * pystr))
    : Prop :=
  Forall (λ r, match r.1 with
               | Listing => True
               | PageOf ty e | ImageOf ty e => P ty e
               end) reqs.

(** From [w] to [w'] requests are added to the log, all of them allowed by
    [P], and no file goes away. *)
Definition grows (P : pystr → pystr → Prop) (w w' : world) : Prop :=
  (∃ new, log w' = log w ++ new ∧ only_for P new)
  ∧ dom (fs w) ⊆ dom (fs w').

(** The entries of [entity_type] that had no asset file in [w0]. *)
Definition unresolved (entity_type : pystr) (w0 : world) (ty e : pystr) : Prop :=
  ty = entity_type ∧ e ∉ existing_stems w0 ty.

(** The requests made while one entry is looked for are made for it. *)
Definition just (output_dir entity_id ty e : pystr) : Prop :=
  ty = output_dir ∧ e = entity_id.

(** The entries without a file [<id>.*] in their directory in [w0]. *)
Definition absent (w0 : world) (ty e : pystr) : Prop :=
  Missing.glob_exists w0 ty e = false.

(** The worlds and networks of the examples: the image directory of the
    items holds anvil.png; every page has one image tag, for the anvil; every
    request succeeds. *)
Definition anvil_world : world := World {[ anvil_png := [Byte.x89] ]} [].

Definition anvil_url : pystr :=
  str "https://static.wikia.nocookie.net/megabonk/images/a/ab/Anvil.png/revision/latest".

Definition one_page (_ : nat) (_ : pystr) : option pystr := Some (str "<html>").

Definition one_payload (_ : nat) (_ : pystr) : option payload := Some [Byte.x89].

Definition anvil_tags (_ : pystr) : list (pystr * pystr) := [(str "Anvil", anvil_url)].

Definition anvil_catalog : catalog := {[ str "items" := [anvil_entity; bow_entity] ]}.

(** A page with three candidates: two of them resolve to the sword. *)
Definition sword_images : list (pystr * pystr) :=
  [ (str "Sword", str "https://img/1/Sword.png");
    (str "sword", str "https://img/2/sword.JPG");
    (str "Sword Icon", str "https://img/3/Sword_Icon.gif") ].

(** A character of a normalised name: a lower-case letter, a digit or a
    space. *)
Definition name_char (c : ascii) : bool :=
  is_lower_az c || is_digit c || bool_decide (c = " ").

(** A string as [normalize_name] returns them: made of such characters, with
    no two spaces in a row. *)
Definition normalized_form (s : pystr) : Prop :=
  Forall (λ c, name_char c = true) s ∧ sub_ws " " s = s.

(** The number of records that carry an image reference. *)
Definition with_image (entities : list entity) : nat :=
  length (filter (λ e : entity, is_Some (e !! str "image")) entities).

Arguments with_image : simpl never.

(** The records of a type in a set of catalog files. *)
Definition records (json_files : gmap pystr catalog) (entity_type : pystr)
    : list entity :=
  default [] (json_files !! entity_type ≫= λ data, data !! entity_type).

(** The catalog of the items after a sync with a directory that holds
    anvil.png only. *)
Definition items_catalog_synced : catalog :=
  <[ str "items" :=
       [ <[str "image" := JStr (str "images/items/anvil.png")]> anvil_entity;
         delete (str "image") bow_entity ] ]> items_catalog.

(** From [w] to [w'] every file is left as it was, or it is now the asset
    file [<id>.<ext>] of an entry that [P] holds of, with a payload that [Q]
    holds of. *)
Definition writes (P : pystr → pystr → Prop) (Q : payload → Prop)
    (w w' : world) : Prop :=
  ∀ p, fs w' !! p = fs w !! p
       ∨ ∃ ty e ext data,
           p = asset_path ty e ext ∧ P ty e ∧ ext ∈ Wiki.image_exts
           ∧ fs w' !! p = Some data ∧ Q data.

(** The entries of [entity_type] with an id that had no asset file in [w0]. *)
Definition missing_entry (entity_type : pystr) (w0 : world) (ty e : pystr)
    : Prop :=
  ty = entity_type ∧ e ≠ [] ∧ e ∉ existing_stems w0 ty.

(** Every file of [w] is in [w'], with the same content. *)
Definition keeps (w w' : world) : Prop :=
  ∀ p data, fs w !! p = Some data → fs w' !! p = Some data.

Definition any_payload (_ : payload) : Prop := True.

(** What holds of the state of the loops of [scrape_entity_type] of
    scrape-images-v2.py, for a run that started in [w0]: the files written
    are assets of entries that had none, and the stems of the image directory
    are those of [w0] and the ids in [matched]. *)
Record pass_stems (entity_type : pystr) (w0 : world) (st : V2.pass) : Prop :=
  PassStems {
    st_writes : writes (missing_entry entity_type w0) any_payload w0 (V2.now st);
    st_stems : existing_stems (V2.now st) entity_type
               = existing_stems w0 entity_type ∪ V2.matched st;
    st_new : V2.matched st ## existing_stems w0 entity_type
  }.

(** The records of the list of a catalog file, none when the file or the list
    is missing. *)
Definition file_records (json_file : option catalog) (entity_type : pystr)
    : list entity :=
  default [] (json_file ≫= λ data, data !! entity_type).

(** Every record has an id, and no two records share one. *)
Definition ids_given (entities : list entity) : Prop :=
  Forall (λ e, entry_id e ≠ []) entities.

Definition ids_distinct (entities : list entity) : Prop :=
  NoDup (entry_id <$> entities).

(** The entries, of any type, with an id that had no asset file in [w0]. *)
Definition without_asset (w0 : world) (ty e : pystr) : Prop :=
  e ∉ existing_stems w0 ty.

Definition missing_any (w0 : world) (ty e : pystr) : Prop :=
  e ≠ [] ∧ e ∉ existing_stems w0 ty.



(** A directory listing for the examples: the items have anvil.png and
    bow.png, the other types have no directory. *)
Definition items_listing (ty : pystr) (_ : world) : option (list pystr) :=
  if decide (ty = str "items") then Some [str "anvil.png"; str "bow.png"]
  else None.

(** A payload that the size checks of scrape-megabonk-wiki.py let pass. *)
Definition accepted (data : payload) : Prop := ¬ rejected data.

(** What holds of the state of the loop of [scrape_entity_type] of
    scrape-megabonk-wiki.py, for a run that started in [w0]. *)
Record wiki_pass_ok (entity_type : pystr) (w0 : world) (st : Wiki.pass)
    : Prop := WikiPassOk {
  wiki_writes : writes (missing_entry entity_type w0) accepted w0 (Wiki.now st);
  wiki_grows : grows (unresolved entity_type w0) w0 (Wiki.now st);
  wiki_stems : existing_stems (Wiki.now st) entity_type
               = existing_stems w0 entity_type ∪ Wiki.matched st;
  wiki_count : Wiki.downloaded st
               = size (Wiki.matched st ∖ existing_stems w0 entity_type)
}.

(** The keys under which [load_entity_ids] of scrape-megabonk-wiki.py files a
    record. *)
Definition wiki_keys (e : entity) : list pystr :=
  let entity_id := entry_id e in
  let entity_name := entity_get_str e (str "name") in
  [ normalize_name entity_name;
    normalize_name (replace (str "_") (str " ") entity_id);
    entity_id ]
  ++ (if contains (str "'") entity_name
      then [normalize_name (replace (str "'") [] entity_name)] else [])
  ++ (if contains (str "(") entity_name
      then [normalize_name (re_delete match_parens entity_name)] else []).

(** The id of the last record, in catalog order and among the records with
    an id, that has [key] among its keys. *)
Fixpoint last_writer (entities : list entity) (key : pystr) : option pystr :=
  match entities with
  | [] => None
  | e :: rest =>
      match last_writer rest key with
      | Some A => Some A
      | None =>
          if decide (entry_id e ≠ [] ∧ key ∈ wiki_keys e)
          then Some (entry_id e) else None
      end
  end.

(** [a in b] for strings *)
Definition substring (a b : pystr) : Prop := ∃ l1 l2, b = l1 ++ a ++ l2.

(** The item [(name, entity_id)] passes the test of the loop that tries a
    partial match for [normalized]. *)
Definition weak_hit (normalized name : pystr) : Prop :=
  (3 < len name)%Z ∧ (3 < len normalized)%Z
  ∧ (substring name normalized ∨ substring normalized name).

(** The outcome [r] of a search of fetch-missing-images.py for one entry,
    started in [w]: when it reports success and made [n] requests or more,
    one file was written, the asset of the entry; when it reports failure no
    file was written.  The log only grows. *)
Definition found_one (output_dir entity_id : pystr) (w : world)
    (r : bool * world) : Prop :=
  (∃ new, log r.2 = log w ++ new)
  ∧ if r.1
    then ∃ ext data,
           ext ∈ image_exts
           ∧ fs r.2 = <[asset_path output_dir entity_id ext := data]> (fs w)
    else fs r.2 = fs w.

(** The rows of the three tables of fetch-missing-images.py, each with the
    directory of its type. *)
Definition missing_rows : list (pystr * pystr) :=
  ((λ row : pystr * list pystr, (str "items", row.1)) <$> Missing.MISSING_ITEMS)
  ++ ((λ row : pystr * list pystr, (str "weapons", row.1))
        <$> Missing.MISSING_WEAPONS)
  ++ ((λ row : pystr * list pystr, (str "tomes", row.1)) <$> Missing.MISSING_TOMES).

(** What the loops of [main] of fetch-missing-images.py keep true of the
    count and the world, for a run that started in [w0] with the count 0. *)
Definition found_so_far (w0 : world) (st : nat * world) : Prop :=
  st.1 = size (dom (fs st.2) ∖ dom (fs w0))
  ∧ keeps w0 st.2
  ∧ dom (fs w0) ⊆ dom (fs st.2)
  ∧ length (log w0) ≤ length (log st.2).



(** The number of entries of [ty] that have an asset file in [w'] and had
    none in [w]. *)
Definition new_stems (w w' : world) (ty : pystr) : nat :=
  size (existing_stems w' ty ∖ existing_stems w ty).

Arguments new_stems : simpl never.

(** * Properties *)

Example normalize_name_ex1 :
  normalize_name (str "  Joe's  Dagger (Rare)") = str "joes dagger rare".
Proof. vm_compute. reflexivity. Qed.

Example normalize_name_ex2 :
  normalize_name (str "Big Bonk !") = str "big bonk ".
Proof. vm_compute. reflexivity. Qed.

Example replace_examples :
  replace (str "aa") (str "b") (str "aaa") = str "ba"
  ∧ replace (str "'s") (str "s") (str "Joe's's") = str "Joess"
  ∧ replace (str " ") [] (str "Big Bonk") = str "BigBonk".
Proof. repeat split; compute_done. Qed.

Example re_delete_examples :
  re_delete match_parens (str "Bow (Weapon) x (y") = str "Bow x (y"
  ∧ re_delete match_parens (str "a  (b)  (c)d") = str "ad"
  ∧ re_delete (match_tail is_sep_digits_tail) (str "a 1 2") = str "a 1"
  ∧ re_delete (match_tail is_sep_digits_tail) (str "sword 2") = str "sword"
  ∧ re_delete (match_tail is_sep_digits_tail) (str "a b") = str "a b".
Proof. repeat split; compute_done. Qed.

Example stem_examples :
  stem (str "anvil.png") = str "anvil"
  ∧ stem (str "a.b.png") = str "a.b"
  ∧ stem (str ".hidden") = str ".hidden"
  ∧ stem (str "anvil.") = str "anvil."
  ∧ stem (str "anvil") = str "anvil".
Proof. repeat split; compute_done. Qed.

Example image_ext_examples :
  image_ext (str "https://img/a/Anvil.PNG/revision/latest") = str "png"
  ∧ image_ext (str "x.JPEG.png") = str "jpeg"
  ∧ image_ext (str "https://img/a/Anvil.webp") = str "png".
Proof. repeat split; compute_done. Qed.

Example variants_ex1 :
  create_name_variants (str "Sword icon (Rare) 2")
  = {[ str "sword icon rare 2"; str "sword rare 2"; str "sword_icon_rare_2";
       str "sword icon 2"; str "sword icon rare" ]}.
Proof. compute_done. Qed.

(** ** Facts about stripping *)

Section strip_facts.
Variable p : ascii → bool.

Lemma lstrip_by_head s c : head (lstrip_by p s) = Some c → p c = false.
Proof.
  induction s as [|a s IH]; simpl; [done|].
  destruct (p a) eqn:Ha; [done|]. simpl. by intros [= <-].
Qed.

Lemma lstrip_by_suffix s : lstrip_by p s `suffix_of` s.
Proof.
  induction s as [|a s IH]; simpl; [done|].
  destruct (p a); [by apply suffix_cons_r | done].
Qed.

Lemma lstrip_by_elem s x : x ∈ s → p x = false → x ∈ lstrip_by p s.
Proof.
  induction s as [|a s IH]; simpl; [done|].
  intros Hx Hp. destruct (p a) eqn:Ha; [|done].
  apply elem_of_cons in Hx as [->|Hx]; [congruence | by apply IH].
Qed.

Lemma rstrip_by_prefix s : rstrip_by p s `prefix_of` s.
Proof.
  unfold rstrip_by.
  destruct (lstrip_by_suffix (reverse s)) as [k Hk].
  exists (reverse k).
  rewrite <- reverse_app, <- Hk. by rewrite reverse_involutive.
Qed.

Lemma rstrip_by_last s c : last (rstrip_by p s) = Some c → p c = false.
Proof.
  unfold rstrip_by. rewrite last_reverse. apply lstrip_by_head.
Qed.

Lemma rstrip_by_elem s x : x ∈ s → p x = false → x ∈ rstrip_by p s.
Proof.
  intros Hx Hp. unfold rstrip_by. apply elem_of_reverse.
  apply lstrip_by_elem; [by apply elem_of_reverse | done].
Qed.

Lemma strip_by_head s c : head (strip_by p s) = Some c → p c = false.
Proof.
  unfold strip_by. intros Hc.
  destruct (rstrip_by_prefix (lstrip_by p s)) as [k Hk].
  apply (lstrip_by_head s). rewrite Hk.
  destruct (rstrip_by p (lstrip_by p s)); [done|]. exact Hc.
Qed.

Lemma strip_by_last s c : last (strip_by p s) = Some c → p c = false.
Proof. apply rstrip_by_last. Qed.

Lemma strip_by_elem s x : x ∈ s → p x = false → x ∈ strip_by p s.
Proof.
  intros Hx Hp. apply rstrip_by_elem; [|done]. by apply lstrip_by_elem.
Qed.
End strip_facts.

Lemma char_in_sep c : char_in (str "_ ") c = false ↔ c ≠ "_" ∧ c ≠ " ".
Proof.
  unfold char_in, str. simpl. rewrite bool_decide_eq_false.
  rewrite !elem_of_cons, elem_of_nil. tauto.
Qed.

Lemma elem_of_create_name_variants name v :
  v ∈ create_name_variants name ↔
  ∃ x, raw_variant name x ∧ v = strip_chars (str "_ ") x ∧ v ≠ [].
Proof.
  unfold create_name_variants, raw_variant.
  rewrite elem_of_map. setoid_rewrite elem_of_filter.
  unfold suffixes. cbn [foldl].
  split.
  - intros (x & -> & Hne & Hx). exists x.
    split; [|done].
    rewrite !elem_of_union, !elem_of_singleton, elem_of_empty in Hx.
    destruct_or!; try tauto;
      (right; left; eexists; split; [|eassumption]);
      repeat first [apply list_elem_of_here | apply list_elem_of_further].
  - intros (x & Hx & -> & Hne). exists x. split; [done|]. split; [done|].
    rewrite !elem_of_union, !elem_of_singleton.
    destruct Hx as [Hx|[(suffix & Hs & Hx)|Hx]]; [tauto| |tauto].
    repeat (apply elem_of_cons in Hs as [->|Hs]; [tauto|]).
    by apply elem_of_nil in Hs.
Qed.

(** ** The variant generator: what every variant looks like (C9) *)

Lemma nonempty_of_variant name key : key ∈ create_name_variants name → key ≠ [].
Proof. rewrite elem_of_create_name_variants. by intros (x & _ & _ & Hne). Qed.

(** C9.  Every string in the set returned by [create_name_variants] is
    non-empty, and neither its first nor its last character is a space or an
    underscore. *)
Theorem create_name_variants_stripped (name v : pystr) :
  v ∈ create_name_variants name →
  v ≠ []
  ∧ (∀ c, head v = Some c → c ≠ " " ∧ c ≠ "_")
  ∧ (∀ c, last v = Some c → c ≠ " " ∧ c ≠ "_").
Proof.
  intros Hv. split; [by eapply nonempty_of_variant|].
  apply elem_of_create_name_variants in Hv as (x & _ & -> & _).
  split; intros c Hc.
  - apply strip_by_head, char_in_sep in Hc. tauto.
  - apply strip_by_last, char_in_sep in Hc. tauto.
Qed.

Lemma create_name_variants_stripped_witness :
  str "sword rare 2" ≠ []
  ∧ (∀ c, head (str "sword rare 2") = Some c → c ≠ " " ∧ c ≠ "_")
  ∧ (∀ c, last (str "sword rare 2") = Some c → c ≠ " " ∧ c ≠ "_").
Proof.
  apply (create_name_variants_stripped (str "Sword icon (Rare) 2")).
  vm_compute. reflexivity.
Defined.

(** ** The variant generator: when the result is empty (C3) *)

Lemma lower_char_alnum c :
  is_alnum_az c = true →
  is_space (lower_char c) = false
  ∧ keep_char (lower_char c) = true
  ∧ char_in (str "_ ") (lower_char c) = false.
Proof.
  destruct c as [[] [] [] [] [] [] [] []]; vm_compute; intros H;
    first [discriminate H | done].
Qed.

Lemma sub_ws_go_elem sep b s x :
  x ∈ s → is_space x = false → x ∈ sub_ws_go sep b s.
Proof.
  revert b. induction s as [|a s IH]; intros b Hx Hsp; simpl; [done|].
  apply elem_of_cons in Hx as [<-|Hx].
  - rewrite Hsp. left.
  - destruct (is_space a), b; repeat right; by apply IH.
Qed.

Lemma normalize_name_keeps name c :
  c ∈ name → is_alnum_az c = true → lower_char c ∈ normalize_name name.
Proof.
  intros Hc Hal. destruct (lower_char_alnum c Hal) as (Hsp & Hk & _).
  destruct name as [|a name]; [by apply elem_of_nil in Hc|].
  unfold normalize_name, sub_ws, drop_special, strip, lower.
  apply sub_ws_go_elem; [|done].
  apply list_elem_of_filter. split; [done|].
  apply strip_by_elem; [|done].
  by apply list_elem_of_fmap_2.
Qed.

(** C3, as the code has it.  A name that holds at least one ASCII letter or
    digit has a non-empty set of variants. *)
Theorem create_name_variants_nonempty (name : pystr) (c : ascii) :
  c ∈ name → is_alnum_az c = true → create_name_variants name ≠ ∅.
Proof.
  intros Hc Hal.
  pose proof (normalize_name_keeps name c Hc Hal) as Hn.
  destruct (lower_char_alnum c Hal) as (_ & _ & Hsep).
  pose proof (strip_by_elem _ _ _ Hn Hsep) as Hs.
  assert (strip_chars (str "_ ") (normalize_name name)
          ∈ create_name_variants name) as Hin.
  { apply elem_of_create_name_variants. exists (normalize_name name).
    split; [by left|]. split; [done|].
    unfold strip_chars. intros Heq. rewrite Heq in Hs.
    by apply elem_of_nil in Hs. }
  intros Hempty. rewrite Hempty in Hin. by apply elem_of_empty in Hin.
Qed.

Lemma create_name_variants_nonempty_witness :
  create_name_variants (str "Anvil") ≠ ∅.
Proof.
  apply (create_name_variants_nonempty (str "Anvil") "A").
  - vm_compute. left.
  - reflexivity.
Defined.

(** C3, as stated, fails: a name made of punctuation only is not empty, yet
    every one of its variants is blank and is discarded. *)
Lemma create_name_variants_empty_counterexample :
  str "!" ≠ [] ∧ create_name_variants (str "!") = ∅.
Proof. split; [done|]. compute_done. Qed.

(** ** [normalize_name] applied twice (C2) *)

Lemma name_char_facts c :
  name_char c = true →
  lower_char c = c ∧ keep_char c = true ∧ (is_space c = true → c = " ").
Proof.
  destruct c as [[] [] [] [] [] [] [] []]; vm_compute; intros H;
    first [discriminate H | repeat split; congruence].
Qed.

Lemma keep_char_facts c :
  keep_char c = true → is_space c = false → name_char c = true.
Proof.
  destruct c as [[] [] [] [] [] [] [] []]; vm_compute; congruence.
Qed.

Lemma sub_ws_go_length sep b s : length (sub_ws_go sep b s) ≤ length s.
Proof.
  revert b. induction s as [|c s IH]; intros b; simpl; [done|].
  pose proof (IH true). pose proof (IH false).
  destruct (is_space c), b; simpl; lia.
Qed.

Lemma sub_ws_go_chars b s :
  Forall (λ c, keep_char c = true) s →
  Forall (λ c, name_char c = true) (sub_ws_go " " b s).
Proof.
  intros Hs. revert b. induction Hs as [|c s Hc _ IH]; intros b; simpl;
    [constructor|].
  destruct (is_space c) eqn:Hsp.
  - destruct b; [apply IH|]. constructor; [done|apply IH].
  - constructor; [by apply keep_char_facts | apply IH].
Qed.

Lemma sub_ws_go_idem b s :
  sub_ws_go " " b (sub_ws_go " " b s) = sub_ws_go " " b s.
Proof.
  revert b. induction s as [|c s IH]; intros b; simpl; [done|].
  destruct (is_space c) eqn:Hsp.
  - destruct b; [apply IH|]. simpl. by rewrite IH.
  - simpl. by rewrite Hsp, IH.
Qed.

(** A fixed point of [sub_ws_go] stays one when characters are taken off
    its front or its back. *)
Lemma sub_ws_go_fixed_tail b c s :
  sub_ws_go " " b (c :: s) = c :: s → sub_ws_go " " (is_space c) s = s.
Proof.
  simpl. destruct (is_space c) eqn:Hsp.
  - destruct b; [|by intros [= _ H]].
    intros H. pose proof (sub_ws_go_length " " true s) as Hlen.
    rewrite H in Hlen. simpl in Hlen. lia.
  - by intros [= H].
Qed.

Lemma sub_ws_go_fixed_lstrip b b' s :
  sub_ws_go " " b s = s →
  sub_ws_go " " b' (lstrip_by is_space s) = lstrip_by is_space s.
Proof.
  revert b. induction s as [|c s IH]; intros b H; [done|].
  pose proof (sub_ws_go_fixed_tail b c s H) as Ht.
  simpl. destruct (is_space c) eqn:Hsp.
  - by apply (IH true).
  - simpl. rewrite Hsp. simpl in H. rewrite Hsp in H. by rewrite H.
Qed.

Lemma sub_ws_go_fixed_prefix b s k :
  sub_ws_go " " b (s ++ k) = s ++ k → sub_ws_go " " b s = s.
Proof.
  revert b. induction s as [|c s IH]; intros b H; [done|].
  pose proof (sub_ws_go_fixed_tail b c (s ++ k) H) as Ht.
  apply IH in Ht. simpl in *. destruct (is_space c) eqn:Hsp.
  - destruct b.
    + pose proof (sub_ws_go_length " " true (s ++ k)) as Hlen.
      rewrite H in Hlen. simpl in Hlen. lia.
    + injection H as <- _. by rewrite Ht.
  - by rewrite Ht.
Qed.

Lemma lstrip_by_id (p : ascii → bool) s :
  (∀ c, head s = Some c → p c = false) → lstrip_by p s = s.
Proof.
  destruct s as [|c s]; [done|]. intros H. simpl. by rewrite (H c).
Qed.

Lemma strip_by_idem (p : ascii → bool) s :
  strip_by p (strip_by p s) = strip_by p s.
Proof.
  unfold strip_by at 1.
  rewrite (lstrip_by_id p (strip_by p s)) by apply strip_by_head.
  unfold rstrip_by. rewrite lstrip_by_id, reverse_involutive; [done|].
  intros c. rewrite head_reverse. apply strip_by_last.
Qed.

Lemma strip_by_infix (p : ascii → bool) s :
  ∃ k1 k2, s = k1 ++ strip_by p s ++ k2.
Proof.
  destruct (lstrip_by_suffix p s) as [k1 H1].
  destruct (rstrip_by_prefix p (lstrip_by p s)) as [k2 H2].
  exists k1, k2. unfold strip_by. by rewrite <- H2.
Qed.

Lemma normalized_form_strip s :
  normalized_form s → normalized_form (strip s).
Proof.
  intros [Hch Hfix]. split.
  - destruct (strip_by_infix is_space s) as (k1 & k2 & Hs).
    rewrite Hs in Hch. by apply Forall_app in Hch as [_ [? _]%Forall_app].
  - unfold strip, strip_by, sub_ws.
    destruct (rstrip_by_prefix is_space (lstrip_by is_space s)) as [k Hk].
    apply (sub_ws_go_fixed_prefix false _ k). rewrite <- Hk.
    by apply (sub_ws_go_fixed_lstrip false).
Qed.

Lemma normalize_name_normalized_form x : normalized_form (normalize_name x).
Proof.
  destruct x as [|a x]; [by split|].
  unfold normalize_name. split.
  - apply sub_ws_go_chars. unfold drop_special.
    apply Forall_forall. by intros c [? _]%list_elem_of_filter.
  - apply sub_ws_go_idem.
Qed.

Lemma lower_name_chars s :
  Forall (λ c, name_char c = true) s → lower s = s.
Proof.
  unfold lower. induction 1 as [|c t Hc _ IH]; [done|].
  rewrite fmap_cons, IH. by destruct (name_char_facts c Hc) as [-> _].
Qed.

Lemma drop_special_name_chars s :
  Forall (λ c, name_char c = true) s → drop_special s = s.
Proof.
  unfold drop_special. induction 1 as [|c t Hc _ IH]; [done|].
  rewrite filter_cons, IH. destruct (name_char_facts c Hc) as (_ & Hk & _).
  by rewrite decide_True.
Qed.

(** On a string of that form [normalize_name] does nothing but trim. *)
Lemma normalize_name_of_normalized s :
  normalized_form s → normalize_name s = strip s.
Proof.
  intros Hs. destruct s as [|a s]; [done|].
  unfold normalize_name.
  rewrite (lower_name_chars (a :: s)) by apply Hs.
  destruct (normalized_form_strip _ Hs) as [Hch Hfix].
  by rewrite drop_special_name_chars.
Qed.

(** What does hold of [normalize_name]: a second application trims the
    result of the first, and a third one changes nothing any more. *)
Lemma normalize_name_twice x :
  normalize_name (normalize_name x) = strip (normalize_name x).
Proof. apply normalize_name_of_normalized, normalize_name_normalized_form. Qed.

Lemma normalize_name_thrice x :
  normalize_name (normalize_name (normalize_name x))
  = normalize_name (normalize_name x).
Proof.
  rewrite (normalize_name_twice x).
  rewrite normalize_name_of_normalized
    by apply normalized_form_strip, normalize_name_normalized_form.
  apply strip_by_idem.
Qed.

(** C2 fails on the code.  [normalize_name] trims before it removes the
    special characters, so a space that stood before a removed character is
    left at the end; a second application trims it. *)
Theorem normalize_name_not_idempotent :
  normalize_name (str "Big Bonk !") = str "big bonk "
  ∧ normalize_name (normalize_name (str "Big Bonk !")) = str "big bonk"
  ∧ normalize_name (normalize_name (str "Big Bonk !"))
    ≠ normalize_name (str "Big Bonk !").
Proof. vm_compute. repeat split; discriminate. Qed.

(** ** Validation of downloaded payloads (C1) *)

(** C1, as the code has it.  In scrape-megabonk-wiki.py a payload shorter than
    500 bytes or exactly 5320 bytes long makes [download_image] return
    failure and leaves the asset tree as it was; any other payload is written
    at the save path, and nothing else is.  In fetch-missing-images.py
    [download_image] has no check on the size: every payload received is
    written at the save path. *)
Theorem download_image_validation
    (http_bytes : nat → pystr → option payload)
    (who : purpose) (url : pystr) (save_path : path) (w : world)
    (data : payload) :
  http_bytes (length (log w)) url = Some data →
  (rejected data →
     (Wiki.download_image http_bytes who url save_path w).1 = false
     ∧ fs (Wiki.download_image http_bytes who url save_path w).2 = fs w)
  ∧ (¬ rejected data →
     (Wiki.download_image http_bytes who url save_path w).1 = true
     ∧ fs (Wiki.download_image http_bytes who url save_path w).2
       = <[save_path := data]> (fs w))
  ∧ (Missing.download_image http_bytes who url save_path w).1 = true
  ∧ fs (Missing.download_image http_bytes who url save_path w).2
    = <[save_path := data]> (fs w).
Proof.
  intros Hget. unfold Wiki.download_image, Missing.download_image, rejected.
  rewrite Hget.
  destruct (Z.ltb_spec (len data) 500) as [Hlt|Hge];
    [|destruct (Z.eqb_spec (len data) 5320) as [Heq|Hne]]; simpl;
    repeat split; try done; intros; lia.
Qed.

Lemma download_image_validation_witness :
  let net := λ (_ : nat) (_ : pystr), Some (placeholder_payload) in
  let w := World ∅ [] in
  (rejected (placeholder_payload) →
     (Wiki.download_image net Listing (str "u") anvil_png w).1 = false
     ∧ fs (Wiki.download_image net Listing (str "u") anvil_png w).2 = fs w)
  ∧ (¬ rejected (placeholder_payload) →
     (Wiki.download_image net Listing (str "u") anvil_png w).1 = true
     ∧ fs (Wiki.download_image net Listing (str "u") anvil_png w).2
       = <[anvil_png := placeholder_payload]> (fs w))
  ∧ (Missing.download_image net Listing (str "u") anvil_png w).1 = true
  ∧ fs (Missing.download_image net Listing (str "u") anvil_png w).2
    = <[anvil_png := placeholder_payload]> (fs w).
Proof.
  intros net w.
  apply (download_image_validation net Listing (str "u") anvil_png w).
  reflexivity.
Defined.

(** When the request itself fails, neither script writes anything. *)
Lemma download_image_network_failure
    (http_bytes : nat → pystr → option payload) who url save_path w :
  http_bytes (length (log w)) url = None →
  Wiki.download_image http_bytes who url save_path w
    = (false, record_request who url w)
  ∧ Missing.download_image http_bytes who url save_path w
    = (false, record_request who url w).
Proof. intros H. unfold Wiki.download_image, Missing.download_image. by rewrite H. Qed.

(** C1, as stated, fails on fetch-missing-images.py: an empty payload, and a
    payload of the placeholder's length, are both written to the asset
    directory and reported as a success. *)
Lemma download_image_unchecked_counterexample :
  let net := λ (_ : nat) (_ : pystr), Some (placeholder_payload) in
  let r := Missing.download_image net (ImageOf (str "items") (str "anvil")) (str "u")
             anvil_png (World ∅ []) in
  rejected (placeholder_payload)
  ∧ r.1 = true
  ∧ fs r.2 !! anvil_png = Some (placeholder_payload).
Proof.
  split; [right; reflexivity|]. split; [reflexivity|].
  apply lookup_insert_eq.
Qed.

(** ** The catalog sync (C7, C10) *)

Lemma images_of_listing_snoc ty files f :
  images_of_listing ty (files ++ [f])
  = <[stem f := rel_path ty f]> (images_of_listing ty files).
Proof. unfold images_of_listing. by rewrite foldl_app. Qed.

Lemma images_of_listing_Some ty files s r :
  images_of_listing ty files !! s = Some r →
  ∃ f, f ∈ files ∧ stem f = s ∧ r = rel_path ty f.
Proof.
  induction files as [|f files IH] using rev_ind.
  - unfold images_of_listing. simpl. by rewrite lookup_empty.
  - rewrite images_of_listing_snoc.
    destruct (decide (stem f = s)) as [Heq|Hne].
    + rewrite Heq, lookup_insert_eq. intros [= <-].
      exists f. rewrite elem_of_app, list_elem_of_singleton. auto.
    + rewrite lookup_insert_ne by done. intros (g & Hg & Hs & Hr)%IH.
      exists g. rewrite elem_of_app. auto.
Qed.

Lemma images_of_listing_None ty files s :
  images_of_listing ty files !! s = None ↔ ¬ has_asset files s.
Proof.
  unfold has_asset. induction files as [|f files IH] using rev_ind.
  - unfold images_of_listing. simpl. rewrite lookup_empty.
    split; [|done]. intros _ (f & Hf & _). by apply elem_of_nil in Hf.
  - rewrite images_of_listing_snoc.
    destruct (decide (stem f = s)) as [Heq|Hne].
    + rewrite Heq, lookup_insert_eq. split; [done|]. intros H. destruct H.
      exists f. rewrite elem_of_app, list_elem_of_singleton. auto.
    + rewrite lookup_insert_ne, IH by done.
      split; intros H (g & Hg & Hs); apply H; exists g.
      * apply elem_of_app in Hg as [Hg|Hg%list_elem_of_singleton]; [done|].
        congruence.
      * rewrite elem_of_app. auto.
Qed.

Lemma sync_update_entity_total images e :
  hashable (entity_get e (str "id")) → is_Some (Sync.update_entity images e).
Proof.
  unfold Sync.update_entity.
  destruct (entity_get e (str "id")); simpl; try done;
    try (intros _; eexists; reflexivity).
  intros _. destruct (images !! s); eexists; reflexivity.
Qed.

Lemma sync_update_entity_frame images e e' hit :
  Sync.update_entity images e = Some (e', hit) → same_but_image e e'.
Proof.
  unfold Sync.update_entity. intros H field Hf.
  destruct (images_get images (entity_get e (str "id"))) as [[rel|]|];
    simplify_eq/=.
  - by rewrite lookup_insert_ne.
  - by rewrite lookup_delete_ne.
Qed.

Lemma sync_update_entity_image ty files e e' hit :
  Sync.update_entity (images_of_listing ty files) e = Some (e', hit) →
  image_synced ty files e e'.
Proof.
  unfold Sync.update_entity, image_synced.
  destruct (entity_get e (str "id")) as [| | | |s| |]; simpl;
    try (intros [= <- <-]; apply lookup_delete_eq); try done.
  destruct (images_of_listing ty files !! s) as [rel|] eqn:Himg;
    intros [= <- <-].
  - split.
    + intros _. apply images_of_listing_Some in Himg as (f & Hf & Hs & ->).
      exists f. by rewrite lookup_insert_eq.
    + intros Hno. apply (images_of_listing_None ty) in Hno. congruence.
  - split.
    + intros Has. by apply images_of_listing_None in Himg.
    + intros _. apply lookup_delete_eq.
Qed.

Lemma sync_update_entities_total images entities n :
  Forall (λ e, hashable (entity_get e (str "id"))) entities →
  is_Some (Sync.update_entities images entities n).
Proof.
  intros Hall. revert n.
  induction Hall as [|e rest He _ IH]; intros n; simpl; [by eexists|].
  destruct (sync_update_entity_total images e He) as [[e' hit] ->]. simpl.
  destruct (IH (if hit then S n else n)) as [[rest' n'] ->]. by eexists.
Qed.

Lemma sync_update_entities_pointwise images entities n entities' n' :
  Sync.update_entities images entities n = Some (entities', n') →
  Forall2 (λ e e', ∃ hit, Sync.update_entity images e = Some (e', hit))
          entities entities'.
Proof.
  revert n entities' n'.
  induction entities as [|e rest IH]; intros n entities' n'; simpl.
  - intros [= <- <-]. constructor.
  - destruct (Sync.update_entity images e) as [[e' hit]|] eqn:He; [|done].
    simpl.
    destruct (Sync.update_entities images rest _) as [[rest' m]|] eqn:Hr;
      [|done].
    simpl. intros [= <- <-]. constructor; [by exists hit|]. by eapply IH.
Qed.

(** C10.  [update_json_file] returns in every run in which the ids can be
    looked up at all, and then the entity list written back has the records of
    the list read, in the same number and order, each with every field other
    than "image" as it was; the other members of the file are untouched. *)
Theorem update_json_file_frame (data : catalog) (listing : option (list pystr))
    (entity_type list_key : pystr) (entities : list entity) :
  data !! list_key = Some entities →
  ids_hashable entities →
  ∃ entities' updated,
    Sync.update_json_file (Some data) listing entity_type list_key
      = Some (Some (<[list_key := entities']> data), updated)
    ∧ length entities' = length entities
    ∧ ∀ i e, entities !! i = Some e →
        ∃ e', entities' !! i = Some e' ∧ same_but_image e e'.
Proof.
  intros Hkey Hids. unfold Sync.update_json_file. rewrite Hkey.
  destruct (sync_update_entities_total
              (Sync.get_available_images entity_type listing) entities 0 Hids)
    as [[entities' updated] Hup].
  rewrite Hup. simpl. exists entities', updated. split; [done|].
  apply sync_update_entities_pointwise in Hup.
  split; [symmetry; by eapply Forall2_length|].
  intros i e He.
  destruct (Forall2_lookup_l _ _ _ _ _ Hup He) as (e' & He' & hit & Hstep).
  exists e'. split; [done|]. by eapply sync_update_entity_frame.
Qed.

Lemma ids_hashable_items : ids_hashable [anvil_entity; bow_entity].
Proof. repeat constructor. Qed.

Lemma update_json_file_frame_witness :
  ∃ entities' updated,
    Sync.update_json_file (Some items_catalog) (Some [str "anvil.png"])
                          (str "items") (str "items")
      = Some (Some (<[str "items" := entities']> items_catalog), updated)
    ∧ length entities' = 2
    ∧ ∀ i e, [anvil_entity; bow_entity] !! i = Some e →
        ∃ e', entities' !! i = Some e' ∧ same_but_image e e'.
Proof.
  apply (update_json_file_frame items_catalog (Some [str "anvil.png"])
           (str "items") (str "items") [anvil_entity; bow_entity]).
  - reflexivity.
  - exact ids_hashable_items.
Defined.

(** A missing image directory is read as an empty one. *)
Lemma get_available_images_no_directory entity_type :
  Sync.get_available_images entity_type None
  = Sync.get_available_images entity_type (Some []).
Proof. reflexivity. Qed.

(** The two ways [update_json_file] leaves the catalog alone. *)
Lemma update_json_file_no_catalog listing entity_type list_key :
  Sync.update_json_file None listing entity_type list_key = Some (None, 0).
Proof. reflexivity. Qed.

Lemma update_json_file_no_list data listing entity_type list_key :
  data !! list_key = None →
  Sync.update_json_file (Some data) listing entity_type list_key
    = Some (Some data, 0).
Proof. intros H. unfold Sync.update_json_file. by rewrite H. Qed.

Lemma missing_update_entity_total images e :
  hashable (entity_get e (str "id")) →
  is_Some (MissingSync.update_entity images e).
Proof.
  unfold MissingSync.update_entity.
  destruct (entity_get e (str "id")); simpl; try done;
    try (intros _; eexists; reflexivity).
  intros _. destruct (images !! s); eexists; reflexivity.
Qed.

Lemma missing_update_entity_image ty files e e' :
  MissingSync.update_entity (images_of_listing ty files) e = Some e' →
  image_added ty files e e'.
Proof.
  unfold MissingSync.update_entity, image_added.
  destruct (entity_get e (str "id")) as [| | | |s| |]; simpl;
    try (by intros [= <-]); try done.
  destruct (images_of_listing ty files !! s) as [rel|] eqn:Himg;
    intros [= <-].
  - split.
    + intros _. apply images_of_listing_Some in Himg as (f & Hf & Hs & ->).
      by exists f.
    + intros Hno. apply (images_of_listing_None ty) in Hno. congruence.
  - split.
    + intros Has. by apply images_of_listing_None in Himg.
    + done.
Qed.

(** C7, as the code has it.  After [update_json_file] of update-json-images.py
    every record keeps its place, its image reference is the relative path of
    an asset file whose stem is the id of the record when there is one, and
    it is absent when there is none.  The catalog update at the end of
    fetch-missing-images.py sets the reference in the same way when such a
    file exists, and leaves the record as it is when none does: a reference
    set before is not cleared there. *)
Theorem image_reference_sync (data : catalog) (files : list pystr)
    (entity_type : pystr) (entities : list entity) :
  data !! entity_type = Some entities →
  ids_hashable entities →
  (∃ entities' updated,
     Sync.update_json_file (Some data) (Some files) entity_type entity_type
       = Some (Some (<[entity_type := entities']> data), updated)
     ∧ Forall2 (image_synced entity_type files) entities entities')
  ∧ (∃ entities',
       MissingSync.update_json (Some data) (Some files) entity_type
         = Some (<[entity_type := entities']> data)
       ∧ Forall2 (image_added entity_type files) entities entities').
Proof.
  intros Hkey Hids. split.
  - unfold Sync.update_json_file. rewrite Hkey.
    destruct (sync_update_entities_total
                (images_of_listing entity_type files) entities 0 Hids)
      as [[entities' updated] Hup].
    simpl. rewrite Hup. simpl. exists entities', updated. split; [done|].
    apply sync_update_entities_pointwise in Hup.
    eapply Forall2_impl; [exact Hup|].
    intros e e' (hit & Hstep). by eapply sync_update_entity_image.
  - unfold MissingSync.update_json. simpl. rewrite Hkey.
    assert (∃ entities',
              mapM (MissingSync.update_entity
                      (images_of_listing entity_type files)) entities
              = Some entities') as [entities' Hmap].
    { apply mapM_is_Some. eapply Forall_impl; [exact Hids|].
      intros e He. by apply missing_update_entity_total. }
    rewrite Hmap. simpl. exists entities'. split; [done|].
    apply mapM_Some in Hmap.
    eapply Forall2_impl; [exact Hmap|].
    intros e e' Hstep. by eapply missing_update_entity_image.
Qed.

Lemma image_reference_sync_witness :
  (∃ entities' updated,
     Sync.update_json_file (Some items_catalog) (Some [str "anvil.png"])
                           (str "items") (str "items")
       = Some (Some (<[str "items" := entities']> items_catalog), updated)
     ∧ Forall2 (image_synced (str "items") [str "anvil.png"])
               [anvil_entity; bow_entity] entities')
  ∧ (∃ entities',
       MissingSync.update_json (Some items_catalog) (Some [str "anvil.png"])
                               (str "items")
         = Some (<[str "items" := entities']> items_catalog)
       ∧ Forall2 (image_added (str "items") [str "anvil.png"])
                 [anvil_entity; bow_entity] entities').
Proof.
  apply (image_reference_sync items_catalog [str "anvil.png"] (str "items")
           [anvil_entity; bow_entity]).
  - reflexivity.
  - exact ids_hashable_items.
Defined.

Example update_json_file_items :
  let r := Sync.update_json_file (Some items_catalog) (Some [str "anvil.png"])
                                 (str "items") (str "items") in
  (r ≫= λ out, image_refs out.1 (str "items"))
  = Some [Some (JStr (str "images/items/anvil.png")); None]
  ∧ snd <$> r = Some 1.
Proof. split; compute_done. Qed.

(** C7, as stated, fails on the catalog update of fetch-missing-images.py: no
    asset file has the stem "bow", yet the record of the bow still carries its
    image reference afterwards. *)
Lemma image_reference_not_cleared_counterexample :
  ¬ has_asset [str "anvil.png"] (str "bow")
  ∧ entity_get bow_entity (str "id") = JStr (str "bow")
  ∧ image_refs (MissingSync.update_json (Some items_catalog)
                  (Some [str "anvil.png"]) (str "items")) (str "items")
    = Some [ Some (JStr (str "images/items/anvil.png"));
             Some (JStr (str "images/items/bow.png")) ].
Proof.
  split; [|split].
  - intros (f & Hf & Hs). apply list_elem_of_singleton in Hf as ->.
    vm_compute in Hs. discriminate Hs.
  - compute_done.
  - compute_done.
Qed.

(** ** The entity index of scrape-images-v2.py (C6) *)

Lemma dict_get_add d k v key :
  dict_get (dict_add d k v) key
  = match dict_get d key with
    | Some x => Some x
    | None => if decide (k = key) then Some v else None
    end.
Proof.
  unfold dict_add. induction d as [|[k' v'] d IH]; simpl; [done|].
  by destruct (decide (k' = key)).
Qed.

Lemma dict_get_Some_elem d key v : dict_get d key = Some v → (key, v) ∈ d.
Proof.
  induction d as [|[k' v'] d IH]; simpl; [done|].
  destruct (decide (k' = key)) as [->|].
  - intros [= ->]. left.
  - intros H. right. by apply IH.
Qed.

Lemma dict_get_None d key : dict_get d key = None ↔ ∀ v, (key, v) ∉ d.
Proof.
  induction d as [|[k' v'] d IH]; simpl.
  - split; [|done]. intros _ v Hv. by apply elem_of_nil in Hv.
  - destruct (decide (k' = key)) as [->|Hne].
    + split; [done|]. intros H. destruct (H v'). left.
    + rewrite IH. split.
      * intros H v [Heq|Hin]%elem_of_cons; [congruence|]. by apply (H v).
      * intros H v Hin. apply (H v). by right.
Qed.

Section index.
Variable iter_set : gset pystr → list pystr.
Hypothesis iter_set_perm : ∀ X, iter_set X ≡ₚ elements X.

Lemma elem_of_iter_set X x : x ∈ iter_set X ↔ x ∈ X.
Proof. by rewrite iter_set_perm, elem_of_elements. Qed.

Lemma claim_variants_get entity_id variants d key :
  dict_get (foldl (V2.claim_variant entity_id) d variants) key
  = match dict_get d key with
    | Some x => Some x
    | None => if decide (key ∈ variants ∧ key ≠ []) then Some entity_id else None
    end.
Proof.
  revert d. induction variants as [|v variants IH]; intros d; simpl.
  - by destruct (dict_get d key).
  - rewrite IH. unfold V2.claim_variant.
    destruct (decide (v = [])) as [Hv|Hv].
    { rewrite bool_decide_eq_false_2 by tauto. simpl.
      destruct (dict_get d key); [done|]. apply decide_ext.
      rewrite elem_of_cons. split; [tauto|]. intros [[->|?] ?]; tauto. }
    rewrite bool_decide_eq_true_2 by done. simpl.
    destruct (dict_get d v) as [x|] eqn:Hdv.
    { rewrite bool_decide_eq_false_2 by done.
      destruct (dict_get d key) eqn:Hdk; [done|]. apply decide_ext.
      rewrite elem_of_cons. split; [tauto|]. intros [[->|?] ?]; [|tauto].
      congruence. }
    rewrite bool_decide_eq_true_2 by done. rewrite dict_get_add.
    destruct (dict_get d key) eqn:Hdk; [done|].
    destruct (decide (v = key)) as [<-|Hne].
    + rewrite decide_True; [done|]. split; [left|done].
    + apply decide_ext. rewrite elem_of_cons.
      split; [tauto|]. intros [[->|?] ?]; tauto.
Qed.

Lemma load_entity_get existing d m e key :
  dict_get (V2.load_entity iter_set existing (d, m) e).1 key
  = match dict_get d key with
    | Some x => Some x
    | None => first_writer existing [e] key
    end.
Proof.
  unfold V2.load_entity. cbv zeta. fold (entry_id e). fold (entry_keys e).
  destruct (decide (entry_id e ∈ existing)) as [Hex|Hex]; cbn [fst first_writer].
  - destruct (dict_get d key); [done|]. rewrite decide_False; tauto.
  - rewrite claim_variants_get. destruct (dict_get d key); [done|].
    apply decide_ext. rewrite elem_of_iter_set.
    split; [tauto|]. intros [_ Hk]. split; [done|]. unfold entry_keys in Hk.
    apply elem_of_union in Hk as [Hk|Hk]; by eapply nonempty_of_variant.
Qed.

Lemma load_entities_fold_get existing entities d m key :
  dict_get (foldl (V2.load_entity iter_set existing) (d, m) entities).1 key
  = match dict_get d key with
    | Some x => Some x
    | None => first_writer existing entities key
    end.
Proof.
  revert d m. induction entities as [|e entities IH]; intros d m.
  - simpl. by destruct (dict_get d key).
  - cbn [foldl].
    destruct (V2.load_entity iter_set existing (d, m) e) as [d' m'] eqn:Hstep.
    rewrite IH.
    pose proof (load_entity_get existing d m e key) as Hget.
    rewrite Hstep in Hget. simpl in Hget. rewrite Hget.
    destruct (dict_get d key); [done|]. simpl.
    by destruct (decide ((entry_id e ∉ existing) ∧ key ∈ entry_keys e)).
Qed.

Lemma load_entity_skip existing acc e :
  entry_id e ∈ existing → V2.load_entity iter_set existing acc e = acc.
Proof.
  intros Hex. unfold V2.load_entity. destruct acc as [d m].
  fold (entry_id e). by rewrite decide_True.
Qed.

(** C6.  [load_entities] walks the entries in catalog order.  An entry whose
    id is the stem of a file of the image directory leaves the index (and the
    list of missing ids) as they are; any other entry maps each of the
    variants of its name and of its id read as a name to its id, unless the
    key is taken already.  So every key of the index belongs to its first
    writer. *)
Theorem load_entities_first_writer (data : catalog) (w : world)
    (entity_type : pystr) :
  let existing := existing_stems w entity_type in
  let entities := default [] (data !! entity_type) in
  (∀ acc e, entry_id e ∈ existing →
     V2.load_entity iter_set existing acc e = acc)
  ∧ (∀ d m e key, entry_id e ∉ existing →
       dict_get (V2.load_entity iter_set existing (d, m) e).1 key
       = match dict_get d key with
         | Some taken => Some taken
         | None => if decide (key ∈ entry_keys e) then Some (entry_id e) else None
         end)
  ∧ (∀ key,
       dict_get (V2.load_entities iter_set (Some data) w entity_type).1 key
       = first_writer existing entities key).
Proof.
  intros existing entities. split; [|split].
  - intros acc e. apply load_entity_skip.
  - intros d m e key Hex. rewrite load_entity_get. cbn [first_writer].
    destruct (dict_get d key); [done|]. apply decide_ext. tauto.
  - intros key. unfold V2.load_entities.
    by rewrite load_entities_fold_get.
Qed.

End index.

Lemma elements_perm (X : gset pystr) : elements X ≡ₚ elements X.
Proof. reflexivity. Qed.

Lemma load_entities_first_writer_witness :
  let w := sword_world in
  let existing := existing_stems w (str "items") in
  let entities := default [] (swords_catalog !! str "items") in
  (∀ acc e, entry_id e ∈ existing →
     V2.load_entity elements existing acc e = acc)
  ∧ (∀ d m e key, entry_id e ∉ existing →
       dict_get (V2.load_entity elements existing (d, m) e).1 key
       = match dict_get d key with
         | Some taken => Some taken
         | None => if decide (key ∈ entry_keys e) then Some (entry_id e) else None
         end)
  ∧ (∀ key,
       dict_get (V2.load_entities elements (Some swords_catalog) w (str "items")).1 key
       = first_writer existing entities key).
Proof.
  exact (load_entities_first_writer elements elements_perm swords_catalog
           sword_world (str "items")).
Defined.

Example load_entities_swords :
  let index := (V2.load_entities elements (Some swords_catalog) (World ∅ [])
                                 (str "items")).1 in
  dict_get index (str "sword") = Some (str "sword")
  ∧ dict_get index (str "sword icon") = Some (str "sword_icon")
  ∧ dict_get index (str "sword_icon") = Some (str "sword_icon").
Proof. repeat split; compute_done. Qed.

Example load_entities_skips_existing :
  let r := V2.load_entities elements (Some swords_catalog) sword_world
                            (str "items") in
  existing_stems sword_world (str "items") = {[ str "sword" ]} ∧
  r.2 = [str "sword_icon"]
  ∧ dict_get r.1 (str "sword") = Some (str "sword_icon")
  ∧ dict_get r.1 (str "sword icon") = Some (str "sword_icon").
Proof. repeat split; compute_done. Qed.

(** ** The resolver of scrape-images-v2.py: exact tier before weak tier (C5) *)

Lemma exact_tier_Some variants d A :
  V2.exact_tier variants d = Some A →
  ∃ v, v ∈ variants ∧ dict_get d v = Some A.
Proof.
  induction variants as [|v variants IH]; simpl; [done|].
  destruct (dict_get d v) as [x|] eqn:Hv.
  - intros [= <-]. exists v. split; [left|done].
  - intros (u & Hu & Hd)%IH. exists u. split; [by right|done].
Qed.

Lemma exact_tier_None variants d :
  V2.exact_tier variants d = None ↔ ∀ v, v ∈ variants → dict_get d v = None.
Proof.
  induction variants as [|v variants IH]; simpl.
  - split; [|done]. intros _ v Hv. by apply elem_of_nil in Hv.
  - destruct (dict_get d v) as [x|] eqn:Hv.
    + split; [done|]. intros H. specialize (H v). rewrite Hv in H.
      apply H. left.
    + rewrite IH. split.
      * intros H u [->|Hu]%elem_of_cons; [done|]. by apply H.
      * intros H u Hu. apply H. by right.
Qed.

Section resolver.
Variable iter_set : gset pystr → list pystr.
Hypothesis iter_set_perm : ∀ X, iter_set X ≡ₚ elements X.

Lemma match_exact img_name name_to_id v A :
  exact_hit img_name name_to_id v A →
  ∃ v' A', exact_hit img_name name_to_id v' A'
           ∧ V2.match_image_to_entity iter_set img_name name_to_id = Some A'.
Proof.
  intros [Hv Hd]. unfold V2.match_image_to_entity.
  destruct (V2.exact_tier (iter_set (create_name_variants img_name)) name_to_id)
    as [A'|] eqn:Hex.
  - apply exact_tier_Some in Hex as (v' & Hv' & Hd').
    exists v', A'. split; [|done]. split; [|done].
    by apply (elem_of_iter_set iter_set iter_set_perm).
  - rewrite exact_tier_None in Hex. rewrite Hex in Hd; [done|].
    by apply (elem_of_iter_set iter_set iter_set_perm).
Qed.

(** C5, as the code has it.  When some variant of the candidate's name is a
    key of the index, the resolver returns the entry of such a variant (the
    first one in the order the set of variants is walked), which is [A] when
    all the variants that are keys map to [A], and is never an entry that no
    exact key maps to; the weak tier decides only when no variant is a key. *)
Theorem match_exact_before_weak (img_name : pystr) (name_to_id : dict) :
  (∀ v A, exact_hit img_name name_to_id v A →
     (∃ v' A', exact_hit img_name name_to_id v' A'
               ∧ V2.match_image_to_entity iter_set img_name name_to_id = Some A')
     ∧ ((∀ u B, exact_hit img_name name_to_id u B → B = A) →
        V2.match_image_to_entity iter_set img_name name_to_id = Some A)
     ∧ (∀ B, (∀ u, ¬ exact_hit img_name name_to_id u B) →
        V2.match_image_to_entity iter_set img_name name_to_id ≠ Some B))
  ∧ ((∀ v A, ¬ exact_hit img_name name_to_id v A) →
     V2.match_image_to_entity iter_set img_name name_to_id
     = V2.weak_tier (normalize_name img_name) name_to_id).
Proof.
  split.
  - intros v A Hhit.
    destruct (match_exact img_name name_to_id v A Hhit) as (v' & A' & Hhit' & Hm).
    split; [by exists v', A'|]. split.
    + intros Huniq. by rewrite Hm, (Huniq v' A' Hhit').
    + intros B HB. rewrite Hm. intros [= ->]. by apply (HB v').
  - intros Hno. unfold V2.match_image_to_entity.
    destruct (V2.exact_tier (iter_set (create_name_variants img_name)) name_to_id)
      as [A'|] eqn:Hex; [|done].
    apply exact_tier_Some in Hex as (v' & Hv' & Hd').
    destruct (Hno v' A'). split; [|done].
    by apply (elem_of_iter_set iter_set iter_set_perm).
Qed.

End resolver.

Lemma match_exact_before_weak_witness :
  (∀ v A, exact_hit (str "Sword") swords_index v A →
     (∃ v' A', exact_hit (str "Sword") swords_index v' A'
               ∧ V2.match_image_to_entity elements (str "Sword") swords_index
                 = Some A')
     ∧ ((∀ u B, exact_hit (str "Sword") swords_index u B → B = A) →
        V2.match_image_to_entity elements (str "Sword") swords_index = Some A)
     ∧ (∀ B, (∀ u, ¬ exact_hit (str "Sword") swords_index u B) →
        V2.match_image_to_entity elements (str "Sword") swords_index ≠ Some B))
  ∧ ((∀ v A, ¬ exact_hit (str "Sword") swords_index v A) →
     V2.match_image_to_entity elements (str "Sword") swords_index
     = V2.weak_tier (normalize_name (str "Sword")) swords_index).
Proof.
  exact (match_exact_before_weak elements elements_perm (str "Sword") swords_index).
Defined.

Example match_sword :
  exact_hit (str "Sword") swords_index (str "sword") (str "sword")
  ∧ V2.match_image_to_entity elements (str "Sword") swords_index
    = Some (str "sword").
Proof. split; [split|]; compute_done. Qed.

(** A candidate that only the weak tier resolves: no variant of
    "Sword Icon Large" is a key, and the key "sword" is contained in its
    normalised name. *)
Example match_weak_tier :
  V2.exact_tier (elements (create_name_variants (str "Sword Icon Large")))
                swords_index = None
  ∧ V2.match_image_to_entity elements (str "Sword Icon Large") swords_index
    = Some (str "sword").
Proof. split; compute_done. Qed.

(** C5, as stated, fails when two variants of one candidate are keys of two
    entries: "sword icon" has the variant "sword", a key of the entry sword,
    and the variant "sword icon", a key of the entry sword_icon.  Whatever the
    order in which the variants are tried, the resolver returns one entry and
    not the other. *)
Lemma match_exact_ambiguous_counterexample :
  exact_hit (str "sword icon") swords_index (str "sword") (str "sword")
  ∧ exact_hit (str "sword icon") swords_index (str "sword icon") (str "sword_icon")
  ∧ ∀ iter_set : gset pystr → list pystr,
      V2.match_image_to_entity iter_set (str "sword icon") swords_index
        ≠ Some (str "sword")
      ∨ V2.match_image_to_entity iter_set (str "sword icon") swords_index
        ≠ Some (str "sword_icon").
Proof.
  split; [split; compute_done|].
  split; [split; compute_done|].
  intros iter_set.
  destruct (V2.match_image_to_entity iter_set (str "sword icon") swords_index)
    as [A|]; [|by left].
  destruct (decide (A = str "sword")) as [->|Hne].
  - right. discriminate.
  - left. congruence.
Qed.

(** ** One resolution pass of scrape-images-v2.py (C4) *)

Section pass_facts.
Variable iter_set : gset pystr → list pystr.
Variable http_bytes : nat → pystr → option payload.
Variable name_to_id : dict.
Variable entity_type : pystr.

Local Abbreviation step := (V2.match_step iter_set http_bytes name_to_id entity_type).
Local Abbreviation run := (V2.match_pass iter_set http_bytes name_to_id entity_type).
Local Abbreviation pass_ok := (pass_ok iter_set name_to_id entity_type).

Lemma v2_download_image_fs who url save_path w :
  match V2.download_image http_bytes who url save_path w with
  | (true, w') => ∃ data, fs w' = <[save_path := data]> (fs w)
  | (false, w') => fs w' = fs w
  end.
Proof.
  unfold V2.download_image. destruct (http_bytes _ _) as [data|]; [|done].
  by exists data.
Qed.

Lemma pass_ok_init w : pass_ok (V2.Pass 0 ∅ [] w).
Proof.
  split; simpl.
  - intros e. by rewrite elem_of_empty, elem_of_nil.
  - constructor.
  - intros e img H. by apply elem_of_nil in H.
  - done.
  - intros e img H. by apply elem_of_nil in H.
Qed.

Lemma pass_ok_step st img : pass_ok st → pass_ok (step st img).
Proof.
  intros [Hm Hn Hr Hc Hs]. unfold V2.match_step.
  destruct img as [img_name img_url].
  destruct (V2.match_image_to_entity iter_set img_name name_to_id)
    as [entity_id|] eqn:Hres; [|done].
  case_bool_decide as Hne; [|done]. case_bool_decide as Hnew; [|done]. simpl.
  pose proof (v2_download_image_fs (ImageOf entity_type entity_id) img_url
                (asset_path entity_type entity_id (image_ext img_url))
                (V2.now st)) as Hfs.
  destruct (V2.download_image http_bytes _ _ _ _) as [[] w].
  - destruct Hfs as [data Hfs]. split; simpl.
    + intros e. rewrite fmap_app, elem_of_app, elem_of_union, elem_of_singleton.
      simpl. rewrite list_elem_of_singleton, Hm. tauto.
    + rewrite fmap_app. simpl. apply NoDup_app. split; [done|]. split.
      * intros e He ->%list_elem_of_singleton. by apply Hnew, Hm.
      * apply NoDup_singleton.
    + intros e img [Hin|Hin%list_elem_of_singleton]%elem_of_app; [by apply Hr|].
      by simplify_eq.
    + rewrite length_app. simpl. lia.
    + intros e img Hin. rewrite Hfs. apply lookup_insert_is_Some'.
      apply elem_of_app in Hin as [Hin|Hin%list_elem_of_singleton].
      * right. by apply Hs.
      * left. by simplify_eq.
  - split; simpl; try done. intros e img Hin. rewrite Hfs. by apply Hs.
Qed.

Lemma pass_ok_fold images st :
  pass_ok st → pass_ok (foldl step st images).
Proof.
  revert st. induction images as [|img images IH]; intros st Hst; [done|].
  simpl. by apply IH, pass_ok_step.
Qed.

Lemma match_step_skips st img e :
  V2.match_image_to_entity iter_set img.1 name_to_id = Some e →
  e ∈ V2.matched st → step st img = st.
Proof.
  intros Hres Hin. unfold V2.match_step. destruct img as [img_name img_url].
  simpl in Hres. rewrite Hres.
  rewrite (bool_decide_eq_false_2 (e ∉ V2.matched st)) by tauto.
  by rewrite andb_false_r.
Qed.

(** C4.  The assignments of one pass over the candidates of a page form a
    partial matching: no entry id occurs in two assignments, a candidate is
    assigned the entry the resolver returns for it and no other, and a
    candidate that resolves to an entry assigned before it leaves the state of
    the pass as it is: nothing is downloaded and nothing is assigned for it.
    The assignments are the downloads the script counts, and each one has its
    file in the image directory. *)
Theorem match_pass_partial_matching (images : list (pystr * pystr)) (w : world) :
  NoDup (V2.assigned (run images w)).*1
  ∧ (∀ e1 e2 img, (e1, img) ∈ V2.assigned (run images w) →
       (e2, img) ∈ V2.assigned (run images w) → e1 = e2)
  ∧ (∀ e, e ∈ V2.matched (run images w) ↔ e ∈ (V2.assigned (run images w)).*1)
  ∧ V2.downloaded (run images w) = length (V2.assigned (run images w))
  ∧ (∀ e img, (e, img) ∈ V2.assigned (run images w) →
       V2.match_image_to_entity iter_set img.1 name_to_id = Some e
       ∧ is_Some (fs (V2.now (run images w))
                  !! asset_path entity_type e (image_ext img.2)))
  ∧ (∀ before img after e,
       images = before ++ img :: after →
       V2.match_image_to_entity iter_set img.1 name_to_id = Some e →
       e ∈ V2.matched (run before w) →
       run (before ++ [img]) w = run before w).
Proof.
  pose proof (pass_ok_fold images _ (pass_ok_init w)) as [Hm Hn Hr Hc Hs].
  fold (run images w) in Hm, Hn, Hr, Hc, Hs.
  split; [done|]. split; [|split; [done|]; split; [done|]; split].
  - intros e1 e2 img H1%Hr H2%Hr. congruence.
  - intros e img Hin. split; [by apply Hr | by apply Hs].
  - intros before img after e _ Hres Hin.
    unfold V2.match_pass. rewrite foldl_app. simpl.
    by eapply match_step_skips.
Qed.

End pass_facts.

Lemma match_pass_partial_matching_witness :
  let st := V2.match_pass elements one_payload swords_index (str "items")
              sword_images (World ∅ []) in
  NoDup (V2.assigned st).*1
  ∧ (∀ e1 e2 img, (e1, img) ∈ V2.assigned st → (e2, img) ∈ V2.assigned st → e1 = e2)
  ∧ (∀ e, e ∈ V2.matched st ↔ e ∈ (V2.assigned st).*1)
  ∧ V2.downloaded st = length (V2.assigned st)
  ∧ (∀ e img, (e, img) ∈ V2.assigned st →
       V2.match_image_to_entity elements img.1 swords_index = Some e
       ∧ is_Some (fs (V2.now st) !! asset_path (str "items") e (image_ext img.2)))
  ∧ (∀ before img after e,
       sword_images = before ++ img :: after →
       V2.match_image_to_entity elements img.1 swords_index = Some e →
       e ∈ V2.matched (V2.match_pass elements one_payload swords_index
                                     (str "items") before (World ∅ [])) →
       V2.match_pass elements one_payload swords_index (str "items")
                     (before ++ [img]) (World ∅ [])
       = V2.match_pass elements one_payload swords_index (str "items")
                       before (World ∅ [])).
Proof.
  exact (match_pass_partial_matching elements one_payload swords_index
           (str "items") sword_images (World ∅ [])).
Defined.

Example match_pass_swords :
  let st := V2.match_pass elements one_payload swords_index (str "items")
              sword_images (World ∅ []) in
  V2.assigned st
  = [ (str "sword", (str "Sword", str "https://img/1/Sword.png"));
      (str "sword_icon", (str "Sword Icon", str "https://img/3/Sword_Icon.gif")) ]
  ∧ V2.downloaded st = 2
  ∧ dom (fs (V2.now st))
    = {[ asset_path (str "items") (str "sword") (str "png");
         asset_path (str "items") (str "sword_icon") (str "gif") ]}.
Proof. repeat split; compute_done. Qed.

(** When the download for a candidate fails, the entry stays open for a later
    candidate. *)
Example match_pass_retry :
  let net := λ (t : nat) (_ : pystr), if t is O then None else Some [Byte.x89] in
  let st := V2.match_pass elements net swords_index (str "items")
              sword_images (World ∅ []) in
  V2.assigned st
  = [ (str "sword", (str "sword", str "https://img/2/sword.JPG"));
      (str "sword_icon", (str "Sword Icon", str "https://img/3/Sword_Icon.gif")) ]
  ∧ dom (fs (V2.now st))
    = {[ asset_path (str "items") (str "sword") (str "jpg");
         asset_path (str "items") (str "sword_icon") (str "gif") ]}.
Proof. repeat split; compute_done. Qed.

(** ** Requests made for entries that already have an asset (C8) *)

Lemma grows_refl P w : grows P w w.
Proof.
  split; [|done]. exists []. split; [by rewrite app_nil_r | constructor].
Qed.

Lemma grows_trans P w1 w2 w3 : grows P w1 w2 → grows P w2 w3 → grows P w1 w3.
Proof.
  intros [(n1 & H1 & F1) D1] [(n2 & H2 & F2) D2]. split; [|set_solver].
  exists (n1 ++ n2). split; [by rewrite H2, H1, app_assoc|].
  by apply Forall_app.
Qed.

Lemma grows_weaken (P Q : pystr → pystr → Prop) w w' :
  (∀ ty e, P ty e → Q ty e) → grows P w w' → grows Q w w'.
Proof.
  intros HPQ [(new & Hlog & Hall) Hdom]. split; [|done].
  exists new. split; [done|]. eapply Forall_impl; [exact Hall|].
  intros [[|ty e|ty e] url]; simpl; auto.
Qed.

Lemma grows_record_request (P : pystr → pystr → Prop) who url w :
  match who with Listing => True | PageOf ty e | ImageOf ty e => P ty e end →
  grows P w (record_request who url w).
Proof.
  intros Hwho. split; [|done]. exists [(who, url)]. split; [done|].
  by apply Forall_singleton.
Qed.

Lemma grows_write_file P save_path data w : grows P w (write_file save_path data w).
Proof.
  split; simpl.
  - exists []. split; [by rewrite app_nil_r | constructor].
  - rewrite dom_insert. set_solver.
Qed.

(** Nothing in what [grows] adds is a request for an entry outside [P]. *)
Lemma grows_no_request P w w' ty E :
  grows P w w' → ¬ P ty E →
  ∃ new, log w' = log w ++ new ∧ ∀ r, r ∈ new → ¬ for_entry ty E r.1.
Proof.
  intros [(new & Hlog & Hall) _] HnP. exists new. split; [done|].
  unfold only_for in Hall.
  intros r Hr [Hfor|Hfor]; rewrite Forall_forall in Hall;
    specialize (Hall r Hr); rewrite Hfor in Hall; done.
Qed.

Section v2_requests.
Variable iter_set : gset pystr → list pystr.
Variable http_text : nat → pystr → option pystr.
Variable http_bytes : nat → pystr → option payload.
Variable img_tags : pystr → list (pystr * pystr).
Variable title : pystr → pystr.

Lemma v2_fetch_page_grows (P : pystr → pystr → Prop) who url w :
  match who with Listing => True | PageOf ty e | ImageOf ty e => P ty e end →
  grows P w (V2.fetch_page http_text who url w).2.
Proof. apply grows_record_request. Qed.

Lemma v2_download_image_grows (P : pystr → pystr → Prop) who url save_path w :
  match who with Listing => True | PageOf ty e | ImageOf ty e => P ty e end →
  grows P w (V2.download_image http_bytes who url save_path w).2.
Proof.
  intros Hwho. unfold V2.download_image.
  destruct (http_bytes _ _); simpl.
  - eapply grows_trans; [by apply grows_record_request|apply grows_write_file].
  - by apply grows_record_request.
Qed.

(** The ids the index and the list of missing ids hold are ids without an
    asset file. *)
Lemma claim_variants_values (Q : pystr → Prop) entity_id variants d :
  Q entity_id → Forall (λ kv, Q kv.2) d →
  Forall (λ kv, Q kv.2) (foldl (V2.claim_variant entity_id) d variants).
Proof.
  intros HQ. revert d. induction variants as [|v variants IH]; intros d Hd; [done|].
  simpl. apply IH. unfold V2.claim_variant. case_match; [|done].
  apply Forall_app. split; [done|]. by apply Forall_singleton.
Qed.

Lemma load_entities_missing json_file w entity_type :
  Forall (λ kv, kv.2 ∉ existing_stems w entity_type)
         (V2.load_entities iter_set json_file w entity_type).1
  ∧ Forall (λ eid, eid ∉ existing_stems w entity_type)
           (V2.load_entities iter_set json_file w entity_type).2.
Proof.
  unfold V2.load_entities. destruct json_file as [data|]; [|by split].
  generalize (default [] (data !! entity_type)). intros entities.
  set (existing := existing_stems w entity_type).
  assert (∀ acc : dict * list pystr,
            Forall (λ kv, kv.2 ∉ existing) acc.1 ∧ Forall (λ eid, eid ∉ existing) acc.2 →
            Forall (λ kv, kv.2 ∉ existing)
                   (foldl (V2.load_entity iter_set existing) acc entities).1
            ∧ Forall (λ eid, eid ∉ existing)
                     (foldl (V2.load_entity iter_set existing) acc entities).2) as Hfold.
  { induction entities as [|e entities IH]; intros acc Hacc; [done|].
    simpl. apply IH. destruct acc as [d m]. destruct Hacc as [Hd Hm].
    unfold V2.load_entity. cbv zeta. fold (entry_id e).
    destruct (decide (entry_id e ∈ existing)) as [Hex|Hex]; [done|]. simpl. split.
    - by apply (claim_variants_values (λ x, x ∉ existing)).
    - apply Forall_app. split; [done|]. by apply Forall_singleton. }
  apply Hfold. by split.
Qed.

Lemma weak_tier_value normalized d e :
  V2.weak_tier normalized d = Some e → ∃ k, (k, e) ∈ d.
Proof.
  induction d as [|[name entity_id] d IH]; simpl; [done|].
  case_match.
  - intros [= ->]. exists name. left.
  - intros (k & Hk)%IH. exists k. by right.
Qed.

Lemma match_image_to_entity_value img_name d e :
  V2.match_image_to_entity iter_set img_name d = Some e → ∃ k, (k, e) ∈ d.
Proof.
  unfold V2.match_image_to_entity.
  destruct (V2.exact_tier _ d) as [x|] eqn:Hex.
  - intros [= ->]. apply exact_tier_Some in Hex as (v & _ & Hd).
    exists v. by apply dict_get_Some_elem.
  - apply weak_tier_value.
Qed.

Section one_type.
Variable entity_type : pystr.
Variable w0 : world.

Local Abbreviation unresolved := (unresolved entity_type w0).

Lemma match_step_grows name_to_id st img :
  Forall (λ kv, kv.2 ∉ existing_stems w0 entity_type) name_to_id →
  grows unresolved (V2.now st)
        (V2.now (V2.match_step iter_set http_bytes name_to_id entity_type st img)).
Proof.
  intros Hvals. unfold V2.match_step. destruct img as [img_name img_url].
  destruct (V2.match_image_to_entity iter_set img_name name_to_id)
    as [entity_id|] eqn:Hres; [|apply grows_refl].
  case_match; [|apply grows_refl].
  apply match_image_to_entity_value in Hres as (k & Hk).
  rewrite Forall_forall in Hvals. specialize (Hvals _ Hk). simpl in Hvals.
  pose proof (v2_download_image_grows unresolved
                (ImageOf entity_type entity_id) img_url
                (asset_path entity_type entity_id (image_ext img_url))
                (V2.now st)) as Hg.
  destruct (V2.download_image http_bytes _ _ _ _) as [[] w]; simpl in *;
    by apply Hg.
Qed.

Lemma match_pass_grows name_to_id images st :
  Forall (λ kv, kv.2 ∉ existing_stems w0 entity_type) name_to_id →
  grows unresolved (V2.now st)
        (V2.now (foldl (V2.match_step iter_set http_bytes name_to_id entity_type)
                       st images)).
Proof.
  intros Hvals. revert st.
  induction images as [|img images IH]; intros st; [apply grows_refl|].
  simpl. eapply grows_trans; [by apply match_step_grows | apply IH].
Qed.

Lemma first_page_image_grows entity_id images w :
  entity_id ∉ existing_stems w0 entity_type →
  grows unresolved w
        (V2.first_page_image http_bytes entity_type entity_id images w).2.
Proof.
  intros Hmiss. revert w.
  induction images as [|[img_name img_url] images IH]; intros w; simpl;
    [apply grows_refl|].
  case_match; [apply IH|].
  pose proof (v2_download_image_grows unresolved
                (ImageOf entity_type entity_id) img_url
                (asset_path entity_type entity_id (image_ext img_url)) w) as Hg.
  destruct (V2.download_image http_bytes _ _ _ _) as [[] w']; simpl in *.
  - by apply Hg.
  - eapply grows_trans; [by apply Hg | apply IH].
Qed.

Lemma page_step_grows st entity_id :
  entity_id ∉ existing_stems w0 entity_type →
  grows unresolved (V2.now st)
        (V2.now (V2.page_step http_text http_bytes img_tags title entity_type
                              st entity_id)).
Proof.
  intros Hmiss. unfold V2.page_step. cbv zeta.
  match goal with
  | |- context [V2.fetch_page http_text ?who ?url ?w] =>
      pose proof (v2_fetch_page_grows unresolved who url w) as Hf;
      destruct (V2.fetch_page http_text who url w) as [html w1]
  end.
  simpl in Hf. specialize (Hf (conj eq_refl Hmiss)).
  destruct html as [[|c html]|]; simpl; try done.
  pose proof (first_page_image_grows entity_id
                (V2.parse_images img_tags (c :: html)) w1 Hmiss) as Hg.
  destruct (V2.first_page_image http_bytes _ _ _ _) as [[] w2]; simpl in *;
    by eapply grows_trans.
Qed.

Lemma page_steps_grows st ids :
  Forall (λ eid, eid ∉ existing_stems w0 entity_type) ids →
  grows unresolved (V2.now st)
        (V2.now (foldl (V2.page_step http_text http_bytes img_tags title entity_type)
                       st ids)).
Proof.
  intros Hids. revert st.
  induction Hids as [|eid ids Heid _ IH]; intros st; [apply grows_refl|].
  simpl. eapply grows_trans; [by apply page_step_grows | apply IH].
Qed.

End one_type.

Lemma v2_scrape_entity_type_grows json_file entity_type wiki_path w :
  grows (unresolved entity_type w) w
        (V2.scrape_entity_type iter_set http_text http_bytes img_tags title
                               json_file entity_type wiki_path w).2.
Proof.
  unfold V2.scrape_entity_type.
  destruct (load_entities_missing json_file w entity_type) as [Hvals Hmiss].
  destruct (V2.load_entities iter_set json_file w entity_type)
    as [name_to_id missing_ids].
  simpl in Hvals, Hmiss.
  destruct missing_ids as [|m0 missing_ids]; [apply grows_refl|].
  set (missing := m0 :: missing_ids) in *.
  match goal with
  | |- context [V2.fetch_page http_text Listing ?url w] =>
      pose proof (v2_fetch_page_grows (unresolved entity_type w)
                    Listing url w I) as Hf;
      destruct (V2.fetch_page http_text Listing url w) as [html w1]
  end.
  simpl in Hf.
  destruct html as [[|c html]|]; simpl; try done.
  eapply grows_trans; [exact Hf|].
  pose proof (match_pass_grows entity_type w name_to_id
                (V2.parse_images img_tags (c :: html)) (V2.Pass 0 ∅ [] w1) Hvals)
    as Hpass.
  fold (V2.match_pass iter_set http_bytes name_to_id entity_type
          (V2.parse_images img_tags (c :: html)) w1) in Hpass.
  simpl in Hpass.
  case_match; [|exact Hpass].
  eapply grows_trans; [exact Hpass|].
  apply page_steps_grows.
  apply Forall_forall. intros eid [_ Hin]%list_elem_of_filter.
  rewrite Forall_forall in Hmiss. by apply Hmiss.
Qed.

End v2_requests.

Lemma glob_exists_mono w w' output_dir entity_id :
  dom (fs w) ⊆ dom (fs w') →
  Missing.glob_exists w output_dir entity_id = true →
  Missing.glob_exists w' output_dir entity_id = true.
Proof.
  unfold Missing.glob_exists. intros Hdom.
  rewrite !bool_decide_eq_true. intros (p & Hp & HP). exists p. split; [|done].
  by apply Hdom.
Qed.

Section missing_requests.
Variable http_text : nat → pystr → option pystr.
Variable http_bytes : nat → pystr → option payload.
Variable extract_images : pystr → list pystr.

Lemma missing_download_image_grows (P : pystr → pystr → Prop) who url save_path w :
  match who with Listing => True | PageOf ty e | ImageOf ty e => P ty e end →
  grows P w (Missing.download_image http_bytes who url save_path w).2.
Proof.
  intros Hwho. unfold Missing.download_image.
  destruct (http_bytes _ _); simpl.
  - eapply grows_trans; [by apply grows_record_request|apply grows_write_file].
  - by apply grows_record_request.
Qed.

Lemma first_image_grows entity_id output_dir accept images w :
  grows (just output_dir entity_id) w
        (Missing.first_image http_bytes entity_id output_dir accept images w).2.
Proof.
  revert w. induction images as [|img_url images IH]; intros w; simpl;
    [apply grows_refl|].
  destruct (accept img_url); [|apply IH].
  pose proof (missing_download_image_grows (just output_dir entity_id)
                (ImageOf output_dir entity_id) img_url
                (asset_path output_dir entity_id (image_ext img_url)) w
                (conj eq_refl eq_refl)) as Hg.
  destruct (Missing.download_image http_bytes _ _ _ _) as [[] w']; simpl in *;
    [done|].
  eapply grows_trans; [exact Hg | apply IH].
Qed.

Lemma try_page_grows entity_id output_dir accept url w :
  grows (just output_dir entity_id) w
        (Missing.try_page http_text http_bytes extract_images
                          entity_id output_dir accept url w).2.
Proof.
  unfold Missing.try_page, Missing.fetch_page.
  pose proof (grows_record_request (just output_dir entity_id)
                (PageOf output_dir entity_id) url w (conj eq_refl eq_refl)) as Hf.
  destruct (http_text _ _) as [[|c html]|]; simpl; try done.
  eapply grows_trans; [exact Hf | apply first_image_grows].
Qed.

Lemma try_fetch_from_wiki_grows entity_id page_names output_dir w :
  grows (just output_dir entity_id) w
        (Missing.try_fetch_from_wiki http_text http_bytes extract_images
                                     entity_id page_names output_dir w).2.
Proof.
  revert w. induction page_names as [|page_name rest IH]; intros w; simpl;
    [apply grows_refl|].
  match goal with
  | |- context [Missing.try_page _ _ _ ?e ?d ?a ?u w] =>
      pose proof (try_page_grows e d a u w) as Hp;
      destruct (Missing.try_page http_text http_bytes extract_images e d a u w)
        as [[] w1]
  end; simpl in *; [done|].
  eapply grows_trans; [exact Hp | apply IH].
Qed.

Lemma search_term_grows entity_id output_dir term w :
  grows (just output_dir entity_id) w
        (Missing.search_term http_text http_bytes extract_images
                             entity_id output_dir term w).2.
Proof.
  unfold Missing.search_term. cbv zeta.
  match goal with
  | |- context [Missing.try_page _ _ _ ?e ?d ?a ?u w] =>
      pose proof (try_page_grows e d a u w) as Hp;
      destruct (Missing.try_page http_text http_bytes extract_images e d a u w)
        as [[] w1]
  end; simpl in *; [done|].
  eapply grows_trans; [exact Hp | apply try_page_grows].
Qed.

Lemma search_terms_loop_grows entity_id output_dir terms w :
  grows (just output_dir entity_id) w
        (Missing.search_terms_loop http_text http_bytes extract_images
                                   entity_id output_dir terms w).2.
Proof.
  revert w. induction terms as [|term rest IH]; intros w; simpl;
    [apply grows_refl|].
  pose proof (search_term_grows entity_id output_dir term w) as Hp.
  destruct (Missing.search_term _ _ _ _ _ _ _) as [[] w1]; simpl in *; [done|].
  eapply grows_trans; [exact Hp | apply IH].
Qed.

Section run.
Variable w0 : world.

Local Abbreviation absent := (absent w0).

Lemma find_entity_grows output_dir total w row :
  grows absent w0 w →
  grows absent w
        (Missing.find_entity http_text http_bytes extract_images
                             output_dir (total, w) row).2.
Proof.
  intros [_ Hdom]. unfold Missing.find_entity. destruct row as [entity_id page_names].
  destruct (Missing.glob_exists w output_dir entity_id) eqn:Hglob;
    [apply grows_refl|].
  assert (∀ ty e, just output_dir entity_id ty e → absent ty e) as Hjust.
  { intros ty e [-> ->]. unfold absent.
    destruct (Missing.glob_exists w0 output_dir entity_id) eqn:H0; [|done].
    apply (glob_exists_mono _ w) in H0; [congruence|done]. }
  pose proof (try_fetch_from_wiki_grows entity_id page_names output_dir w) as H1.
  destruct (Missing.try_fetch_from_wiki _ _ _ _ _ _ _) as [[] w1]; simpl in *;
    [by eapply grows_weaken|].
  unfold Missing.search_in_gallery.
  match goal with
  | |- context [Missing.search_terms_loop _ _ _ ?e ?d ?ts w1] =>
      pose proof (search_terms_loop_grows e d ts w1) as H2;
      destruct (Missing.search_terms_loop http_text http_bytes extract_images
                  e d ts w1) as [[] w2]
  end; simpl in *;
    (eapply grows_trans; eapply grows_weaken; [exact Hjust|exact H1|exact Hjust|exact H2]).
Qed.

Lemma find_table_grows rows output_dir st :
  grows absent w0 st.2 →
  grows absent w0
        (Missing.find_table http_text http_bytes extract_images
                            rows output_dir st).2.
Proof.
  unfold Missing.find_table. revert st.
  induction rows as [|row rows IH]; intros st Hst; [done|].
  simpl. apply IH. destruct st as [total w]. simpl in Hst.
  eapply grows_trans; [exact Hst | by apply find_entity_grows].
Qed.

Lemma main_fetch_grows :
  grows absent w0
        (Missing.main_fetch http_text http_bytes extract_images w0).2.
Proof.
  unfold Missing.main_fetch.
  do 3 apply find_table_grows. apply grows_refl.
Qed.

End run.
End missing_requests.

Lemma missing_main_world http_text http_bytes extract_images iterdir json_files w :
  (Missing.main http_text http_bytes extract_images iterdir json_files w).2
  = (Missing.main_fetch http_text http_bytes extract_images w).2.
Proof.
  unfold Missing.main.
  destruct (Missing.main_fetch http_text http_bytes extract_images w) as [total w'].
  by destruct (0 <? total)%nat.
Qed.

(** C8, as the code has it.  In scrape-images-v2.py an entry whose id is the
    stem of a file of the image directory when [scrape_entity_type] starts is
    not in the list of missing ids, and the run requests none of its pages and
    downloads no image for it.  In fetch-missing-images.py an entry with a
    file [<id>.*] in its directory when [main] starts has no page fetched and
    no image downloaded either. *)
Theorem no_request_for_resolved_entry
    (iter_set : gset pystr → list pystr)
    (http_text : nat → pystr → option pystr)
    (http_bytes : nat → pystr → option payload)
    (img_tags : pystr → list (pystr * pystr)) (title : pystr → pystr)
    (extract_images : pystr → list pystr)
    (iterdir : pystr → world → option (list pystr))
    (json_file : option catalog) (json_files : gmap pystr catalog)
    (entity_type wiki_path : pystr) (w : world) (E : pystr) :
  (E ∈ existing_stems w entity_type →
     (E ∉ (V2.load_entities iter_set json_file w entity_type).2)
     ∧ ∃ new,
         log (V2.scrape_entity_type iter_set http_text http_bytes img_tags title
                                    json_file entity_type wiki_path w).2
         = log w ++ new
         ∧ ∀ r, r ∈ new → ¬ for_entry entity_type E r.1)
  ∧ (Missing.glob_exists w entity_type E = true →
     ∃ new,
       log (Missing.main http_text http_bytes extract_images iterdir
                         json_files w).2
       = log w ++ new
       ∧ ∀ r, r ∈ new → ¬ for_entry entity_type E r.1).
Proof.
  split.
  - intros HE. split.
    + destruct (load_entities_missing iter_set json_file w entity_type) as [_ Hm].
      rewrite Forall_forall in Hm. intros Hin. by apply (Hm E).
    + eapply grows_no_request;
        [apply v2_scrape_entity_type_grows|]. unfold unresolved. tauto.
  - intros HE. rewrite missing_main_world.
    eapply grows_no_request; [apply main_fetch_grows|].
    unfold absent. congruence.
Qed.

Lemma no_request_for_resolved_entry_witness :
  ((str "anvil" ∉ (V2.load_entities elements (Some anvil_catalog) anvil_world
                                    (str "items")).2)
   ∧ ∃ new,
       log (V2.scrape_entity_type elements one_page one_payload anvil_tags id
              (Some anvil_catalog) (str "items") (str "/wiki/Items") anvil_world).2
       = log anvil_world ++ new
       ∧ ∀ r, r ∈ new → ¬ for_entry (str "items") (str "anvil") r.1)
  ∧ (∃ new,
       log (Missing.main one_page one_payload (λ _, [anvil_url]) (λ _ _, None)
                         ∅ anvil_world).2
       = log anvil_world ++ new
       ∧ ∀ r, r ∈ new → ¬ for_entry (str "items") (str "anvil") r.1).
Proof.
  destruct (no_request_for_resolved_entry elements one_page one_payload
              anvil_tags id (λ _, [anvil_url]) (λ _ _, None)
              (Some anvil_catalog) ∅ (str "items") (str "/wiki/Items")
              anvil_world (str "anvil")) as [Hv2 Hmissing].
  split.
  - apply Hv2. compute_done.
  - apply Hmissing. compute_done.
Defined.

(** The run of scrape-images-v2.py in that world: the anvil is skipped, the
    candidate of the listing page resolves to no missing entry, and the page of
    the bow is tried. *)
Example v2_scrape_items :
  let r := V2.scrape_entity_type elements one_page one_payload anvil_tags id
             (Some anvil_catalog) (str "items") (str "/wiki/Items") anvil_world in
  r.1 = 1
  ∧ log r.2
    = [ (Listing, str "https://megabonk.fandom.com/wiki/Items");
        (PageOf (str "items") (str "bow"), str "https://megabonk.fandom.com/wiki/bow");
        (ImageOf (str "items") (str "bow"), anvil_url) ]
  ∧ fs r.2 !! asset_path (str "items") (str "bow") (str "png") = Some [Byte.x89].
Proof. repeat split; compute_done. Qed.

(** C8, as stated, fails on scrape-images.py, which never looks at the image
    directory: the anvil has its asset file, and its image is downloaded
    again as soon as a candidate of the listing page resolves to it. *)
Lemma v1_downloads_again_counterexample :
  str "anvil" ∈ existing_stems anvil_world (str "items")
  ∧ log (V1.scrape_entity_type one_page one_payload anvil_tags
           (Some anvil_catalog) (str "items") (str "/wiki/Items") anvil_world).2
    = [ (Listing, str "https://megabonk.fandom.com/wiki/Items");
        (ImageOf (str "items") (str "anvil"), anvil_url) ]
  ∧ for_entry (str "items") (str "anvil") (ImageOf (str "items") (str "anvil")).
Proof.
  split; [compute_done|].
  split; [compute_done|].
  by right.
Qed.

(** fetch-missing-images.py in a world where nothing can be fetched: every
    entry of the tables but the anvil has its pages tried. *)
Example missing_main_anvil_skipped :
  let r := Missing.main_fetch (λ _ _, None) one_payload (λ _, []) anvil_world in
  r.1 = 0
  ∧ head (log r.2)
    = Some (PageOf (str "items") (str "big_bonk"),
            str "https://megabonk.fandom.com/wiki/Big_Bonk")
  ∧ length (log r.2) = 255.
Proof. repeat split; compute_done. Qed.

(** The regular expressions of scrape-images.py on names as it normalises them. *)
Example v1_resolve_trailing_number :
  V1.resolve {[ str "big_bonk" := str "big_bonk" ]} (str "Big Bonk 2")
  = Some (Some (str "big_bonk"))
  ∧ V1.normalize_name (str "Big Bonk 2") = Some (str "big_bonk_2")
  ∧ V1.load_entity ∅ sword_icon_entity
    = Some {[ str "sword_icon" := str "sword_icon"; str "sword" := str "sword_icon" ]}.
Proof. repeat split; compute_done. Qed.

(** * Further properties of the name functions *)

(** ** What [normalize_name] returns *)

Lemma sub_ws_go_head_in_run sep s c :
  head (sub_ws_go sep true s) = Some c → is_space c = false.
Proof.
  induction s as [|a s IH]; simpl; [done|].
  destruct (is_space a) eqn:Ha; [done|]. simpl. by intros [= <-].
Qed.

Lemma sub_ws_go_single b s i d :
  sub_ws_go " " b s !! i = Some " " → sub_ws_go " " b s !! S i = Some d →
  is_space d = false.
Proof.
  revert b i. induction s as [|a s IH]; intros b i; simpl; [done|].
  destruct (is_space a) eqn:Ha.
  - destruct b; [apply IH|].
    destruct i as [|i]; simpl; [|apply IH].
    intros _ Hd. apply (sub_ws_go_head_in_run " " s).
    by rewrite head_lookup.
  - destruct i as [|i]; simpl; [|apply IH].
    intros [= ->]. done.
Qed.

(** X1.  The result of [normalize_name] is made of lower-case letters a-z,
    digits and spaces only, and no space in it is followed by another
    space. *)
Theorem normalize_name_alphabet (x : pystr) :
  (∀ c, c ∈ normalize_name x →
     is_lower_az c = true ∨ is_digit c = true ∨ c = " ")
  ∧ (∀ i, normalize_name x !! i = Some " " →
       normalize_name x !! S i ≠ Some " ").
Proof.
  split.
  - intros c Hc. destruct (normalize_name_normalized_form x) as [Hch _].
    rewrite Forall_forall in Hch. specialize (Hch c Hc).
    unfold name_char in Hch.
    apply orb_true_iff in Hch as [[?|?]%orb_true_iff|?%bool_decide_eq_true];
      auto.
  - intros i Hi Hnext. destruct x as [|a x]; [done|].
    unfold normalize_name, sub_ws in Hi, Hnext.
    by pose proof (sub_ws_go_single _ _ _ _ Hi Hnext).
Qed.

(** X2.  A second application of [normalize_name] trims the result of the
    first and does nothing else; after it the name no longer changes.  So
    [normalize_name] is idempotent on [x] exactly when its result has no
    space at either end. *)
Theorem normalize_name_settles (x : pystr) :
  normalize_name (normalize_name x) = strip (normalize_name x)
  ∧ normalize_name (normalize_name (normalize_name x))
    = normalize_name (normalize_name x)
  ∧ (normalize_name (normalize_name x) = normalize_name x
     ↔ strip (normalize_name x) = normalize_name x).
Proof.
  split; [apply normalize_name_twice|].
  split; [apply normalize_name_thrice|].
  by rewrite normalize_name_twice.
Qed.

Lemma lower_char_idem c : lower_char (lower_char c) = lower_char c.
Proof. destruct c as [[] [] [] [] [] [] [] []]; reflexivity. Qed.

(** X3.  [normalize_name] does not tell upper case from lower case. *)
Theorem normalize_name_ignores_case (x : pystr) :
  normalize_name (lower x) = normalize_name x.
Proof.
  assert (lower (lower x) = lower x) as Hl.
  { unfold lower. rewrite <- list_fmap_compose. apply list_fmap_ext.
    intros i c _. simpl. apply lower_char_idem. }
  destruct x as [|a x]; [done|].
  unfold normalize_name. rewrite Hl. reflexivity.
Qed.

(** ** The id form of a name *)

Lemma replace_char a b s :
  replace [a] [b] s = (λ c, if decide (c = a) then b else c) <$> s.
Proof.
  unfold replace. induction s as [|c s IH]; [done|].
  simpl. rewrite andb_true_r. case_bool_decide as Hac.
  - subst c. rewrite decide_True by done. simpl. by rewrite IH.
  - rewrite decide_False by congruence. by rewrite IH.
Qed.

Lemma sub_ws_go_sep sep b s :
  sub_ws_go sep b s
  = (λ c, if decide (c = " ") then sep else c) <$> sub_ws_go " " b s.
Proof.
  revert b. induction s as [|a s IH]; intros b; simpl; [done|].
  destruct (is_space a) eqn:Ha.
  - destruct b; [apply IH|]. simpl. by rewrite IH.
  - simpl. rewrite decide_False; [by rewrite IH|].
    intros ->. done.
Qed.

(** X4.  The three ways the scripts turn a name into an id agree:
    [create_id_from_name] of scrape-megabonk-wiki.py is [normalize_name]
    followed by the replacement of spaces by underscores, which is the id
    form among the variants of scrape-images-v2.py, and [normalize_name] of
    scrape-images.py returns the same string for every name but the empty
    one, for which it returns [None]. *)
Theorem create_id_from_name_normalize (x : pystr) :
  Wiki.create_id_from_name x
  = replace (str " ") (str "_") (normalize_name x)
  ∧ V1.normalize_name x
    = match x with [] => None | _ => Some (Wiki.create_id_from_name x) end.
Proof.
  split; [|by destruct x].
  destruct x as [|a x]; [done|].
  unfold Wiki.create_id_from_name, normalize_name, sub_ws.
  rewrite (sub_ws_go_sep "_"). symmetry. apply (replace_char " " "_").
Qed.

(** ** The characters of the variants *)

Lemma re_delete_go_elem m k s c : c ∈ re_delete_go m k s → c ∈ s.
Proof.
  revert k. induction s as [|a s IH]; intros k; simpl; [done|].
  destruct k as [|k]; [|intros H; right; by eapply IH].
  destruct (m (a :: s)).
  - intros H. right. by eapply IH.
  - intros [->|H]%elem_of_cons; [left|right; by eapply IH].
Qed.

Lemma replace_go_elem old new k s c :
  c ∈ replace_go old new k s → c ∈ s ∨ c ∈ new.
Proof.
  revert k. induction s as [|a s IH]; intros k; simpl.
  - intros H. by apply elem_of_nil in H.
  - destruct k as [|k].
    + destruct (starts_with old (a :: s)).
      * intros [H|H]%elem_of_app; [by right|].
        destruct (IH _ H); [left; by right | by right].
      * intros [->|H]%elem_of_cons; [left; left|].
        destruct (IH _ H); [left; by right | by right].
    + intros H. destruct (IH _ H); [left; by right | by right].
Qed.

Lemma strip_by_elem_of (p : ascii → bool) s c : c ∈ strip_by p s → c ∈ s.
Proof.
  intros Hc. destruct (strip_by_infix p s) as (k1 & k2 & Hs).
  rewrite Hs, !elem_of_app. auto.
Qed.


(** A character of a variant before the final stripping. *)
Lemma raw_variant_chars name x c :
  raw_variant name x → c ∈ x → name_char c = true ∨ c = "_".
Proof.
  assert (∀ y, c ∈ normalize_name y → name_char c = true) as Hn.
  { intros y Hc. destruct (normalize_name_normalized_form y) as [Hch _].
    rewrite Forall_forall in Hch. by apply Hch. }
  intros Hx Hc. unfold raw_variant in Hx.
  destruct Hx as [->|[(suffix & _ & ->)|[->|[->|[->| ->]]]]].
  - left. by eapply Hn.
  - left. by eapply Hn.
  - apply replace_go_elem in Hc as [Hc|Hc].
    + left. by eapply Hn.
    + right. by apply list_elem_of_singleton in Hc.
  - left. by eapply Hn.
  - left. by eapply Hn.
  - apply re_delete_go_elem in Hc. left. by eapply Hn.
Qed.

(** X5.  Every variant is made of lower-case letters a-z, digits, spaces and
    underscores only. *)
Theorem create_name_variants_alphabet (name v : pystr) (c : ascii) :
  v ∈ create_name_variants name → c ∈ v →
  is_lower_az c = true ∨ is_digit c = true ∨ c = " " ∨ c = "_".
Proof.
  intros (x & Hx & -> & _)%elem_of_create_name_variants Hc.
  apply strip_by_elem_of in Hc.
  destruct (raw_variant_chars name x c Hx Hc) as [Hch| ->]; [|auto].
  unfold name_char in Hch.
  apply orb_true_iff in Hch as [[?|?]%orb_true_iff|?%bool_decide_eq_true]; auto.
Qed.

Lemma create_name_variants_alphabet_witness :
  is_lower_az "_" = true ∨ is_digit "_" = true ∨ "_" = " " ∨ "_" = "_".
Proof.
  apply (create_name_variants_alphabet (str "Big Bonk") (str "big_bonk") "_").
  - compute_done.
  - compute_done.
Defined.

(** ** Names without letters or digits *)










(** * Further properties of asset file names *)

Lemma rfind_dot_go_no_dot i found s :
  "." ∉ s → rfind_dot_go i found s = found.
Proof.
  revert i found.
  induction s as [|c s IH]; intros i found Hs; cbn [rfind_dot_go]; [done|].
  rewrite bool_decide_eq_false_2.
  - apply IH. intros H. apply Hs. by right.
  - intros ->. apply Hs. left.
Qed.

Lemma rfind_dot_go_last i found s ext :
  "." ∉ ext → rfind_dot_go i found (s ++ "." :: ext) = Some (i + length s).
Proof.
  intros Hext. revert i found.
  induction s as [|c s IH]; intros i found; cbn [app rfind_dot_go length].
  - rewrite bool_decide_eq_true_2 by done.
    rewrite rfind_dot_go_no_dot by done. f_equal. lia.
  - rewrite IH. f_equal. lia.
Qed.

Lemma stem_with_ext entity_id ext :
  entity_id ≠ [] → ext ≠ [] → "." ∉ ext →
  stem (entity_id ++ str "." ++ ext) = entity_id.
Proof.
  intros Hid Hne Hdot. unfold stem, rfind_dot.
  change (str "." ++ ext) with ("." :: ext).
  rewrite rfind_dot_go_last by done. simpl.
  destruct entity_id as [|a entity_id]; [done|].
  destruct ext as [|b ext]; [done|].
  rewrite length_app. simpl.
  assert ((S (length entity_id) <? length entity_id + S (S (length ext)) - 0)%nat
          = true) as -> by (apply Nat.ltb_lt; lia).
  by rewrite take_app_length.
Qed.

Lemma search_ext_of_elem exts s ext :
  search_ext_of exts s = Some ext → ext ∈ exts.
Proof.
  induction s as [|c s IH]; simpl.
  - unfold ext_at_of. destruct (list_find _ exts) as [[i e]|] eqn:Hf; [|done].
    simpl. intros [= <-]. apply list_find_Some in Hf as (Hl & _).
    by eapply list_elem_of_lookup_2.
  - unfold ext_at_of at 1.
    destruct (list_find _ exts) as [[i e]|] eqn:Hf; simpl; [|done].
    intros [= <-]. apply list_find_Some in Hf as (Hl & _).
    by eapply list_elem_of_lookup_2.
Qed.

Lemma search_ext_as_of s : search_ext s = search_ext_of image_exts s.
Proof. induction s as [|c s IH]; simpl; [done|]. by rewrite IH. Qed.

Lemma image_ext_elem img_url : image_ext img_url ∈ image_exts.
Proof.
  unfold image_ext. rewrite search_ext_as_of.
  destruct (search_ext_of image_exts img_url) as [ext|] eqn:He; simpl.
  - by eapply search_ext_of_elem.
  - compute_done.
Qed.

Lemma wiki_image_ext_elem img_url : Wiki.image_ext img_url ∈ Wiki.image_exts.
Proof.
  unfold Wiki.image_ext.
  destruct (search_ext_of Wiki.image_exts img_url) as [ext|] eqn:He; simpl.
  - by eapply search_ext_of_elem.
  - compute_done.
Qed.

Lemma wiki_image_exts_plain ext :
  ext ∈ Wiki.image_exts → ext ≠ [] ∧ "." ∉ ext.
Proof.
  unfold Wiki.image_exts. rewrite !elem_of_cons, elem_of_nil.
  intros [->|[->|[->|[->|[->|[]]]]]]; split; try done; compute_done.
Qed.

Lemma image_exts_wiki ext : ext ∈ image_exts → ext ∈ Wiki.image_exts.
Proof.
  unfold image_exts, Wiki.image_exts. rewrite !elem_of_cons, !elem_of_nil. tauto.
Qed.

Lemma stem_asset entity_id ext :
  entity_id ≠ [] → ext ∈ Wiki.image_exts →
  stem (entity_id ++ str "." ++ ext) = entity_id.
Proof.
  intros Hid [Hne Hdot]%wiki_image_exts_plain. by apply stem_with_ext.
Qed.

(** X7.  The name under which the scripts save the image of an entry is read
    back as that entry: whatever the url, the extension chosen is one of png,
    jpg, jpeg and gif (or webp in scrape-megabonk-wiki.py), and the stem of
    [<entity_id>.<ext>] is the id again, when the id is not empty. *)
Theorem asset_path_stem (output_dir entity_id img_url : pystr) :
  entity_id ≠ [] →
  image_ext img_url ∈ image_exts
  ∧ Wiki.image_ext img_url ∈ Wiki.image_exts
  ∧ stem (asset_path output_dir entity_id (image_ext img_url)).2 = entity_id
  ∧ stem (asset_path output_dir entity_id (Wiki.image_ext img_url)).2 = entity_id.
Proof.
  intros Hid. split; [apply image_ext_elem|]. split; [apply wiki_image_ext_elem|].
  split; simpl.
  - apply stem_asset; [done|]. apply image_exts_wiki, image_ext_elem.
  - apply stem_asset; [done|]. apply wiki_image_ext_elem.
Qed.

Lemma asset_path_stem_witness :
  image_ext anvil_url ∈ image_exts
  ∧ Wiki.image_ext anvil_url ∈ Wiki.image_exts
  ∧ stem (asset_path (str "items") (str "za_warudo") (image_ext anvil_url)).2
    = str "za_warudo"
  ∧ stem (asset_path (str "items") (str "za_warudo") (Wiki.image_ext anvil_url)).2
    = str "za_warudo".
Proof.
  apply (asset_path_stem (str "items") (str "za_warudo") anvil_url).
  discriminate.
Defined.

(** The id has to be non-empty: the file saved for an entry without an id is
    not read back as its asset. *)
Example asset_path_stem_empty_id :
  stem (asset_path (str "items") [] (str "png")).2 = str ".png".
Proof. compute_done. Qed.

(** * Further properties of the catalog sync *)

Lemma id_not_image : str "id" ≠ str "image".
Proof. discriminate. Qed.

Lemma sync_update_entity_again images e e' hit :
  Sync.update_entity images e = Some (e', hit) →
  Sync.update_entity images e' = Some (e', hit).
Proof.
  unfold Sync.update_entity. intros H.
  assert (entity_get e' (str "id") = entity_get e (str "id")) as Hid.
  { unfold entity_get. f_equal.
    eapply sync_update_entity_frame; [exact H|exact id_not_image]. }
  rewrite Hid.
  destruct (images_get images (entity_get e (str "id"))) as [[rel|]|];
    simplify_eq/=.
  - by rewrite insert_insert_eq.
  - by rewrite delete_delete_eq.
Qed.

Lemma sync_update_entities_mono images entities n entities' n' :
  Sync.update_entities images entities n = Some (entities', n') → n ≤ n'.
Proof.
  revert n entities' n'.
  induction entities as [|e rest IH]; intros n entities' n'; simpl.
  - intros [= _ <-]. lia.
  - destruct (Sync.update_entity images e) as [[e' hit]|]; [|done]. simpl.
    destruct (Sync.update_entities images rest _) as [[rest' k]|] eqn:Hr;
      [|done].
    simpl. intros [= _ <-]. apply IH in Hr. destruct hit; lia.
Qed.

Lemma sync_update_entities_again images entities n entities' n' m :
  Sync.update_entities images entities n = Some (entities', n') →
  Sync.update_entities images entities' m = Some (entities', m + (n' - n)).
Proof.
  revert n entities' n' m.
  induction entities as [|e rest IH]; intros n entities' n' m; simpl.
  - intros [= <- <-]. simpl. do 2 f_equal. lia.
  - destruct (Sync.update_entity images e) as [[e' hit]|] eqn:He; [|done].
    simpl.
    destruct (Sync.update_entities images rest _) as [[rest' k]|] eqn:Hr;
      [|done].
    simpl. intros [= <- <-]. simpl.
    rewrite (sync_update_entity_again _ _ _ _ He). simpl.
    rewrite (IH _ _ _ (if hit then S m else m) Hr). simpl.
    do 2 f_equal. apply sync_update_entities_mono in Hr. destruct hit; lia.
Qed.

(** The count that [update_entities] adds is the number of records it leaves
    with an image reference. *)
Lemma sync_update_entities_count images entities n entities' n' :
  Sync.update_entities images entities n = Some (entities', n') →
  n' = n + with_image entities'.
Proof.
  unfold with_image. revert n entities' n'.
  induction entities as [|e rest IH]; intros n entities' n'; simpl.
  - intros [= <- <-]. simpl. lia.
  - unfold Sync.update_entity at 1.
    destruct (images_get images (entity_get e (str "id"))) as [[rel|]|];
      [| |done]; simpl.
    + destruct (Sync.update_entities images rest (S n)) as [[rest' k]|] eqn:Hr;
        [|done].
      simpl. intros [= <- <-]. apply IH in Hr.
      rewrite filter_cons_True by (rewrite lookup_insert_eq; by eexists).
      simpl. lia.
    + destruct (Sync.update_entities images rest n) as [[rest' k]|] eqn:Hr;
        [|done].
      simpl. intros [= <- <-]. apply IH in Hr.
      rewrite filter_cons_False; [done|].
      rewrite lookup_delete_eq. by intros [? ?].
Qed.

Lemma sync_update_json_file_again json_file out listing entity_type list_key
    updated :
  Sync.update_json_file json_file listing entity_type list_key
    = Some (out, updated) →
  Sync.update_json_file out listing entity_type list_key = Some (out, updated)
  ∧ updated = with_image (default [] (out ≫= λ data, data !! list_key)).
Proof.
  unfold Sync.update_json_file.
  destruct json_file as [data|]; [|by intros [= <- <-]].
  destruct (data !! list_key) as [entities|] eqn:Hkey.
  - destruct (Sync.update_entities _ entities 0) as [[entities' n]|] eqn:Hup;
      [|done].
    simpl. intros [= <- <-]. simpl. rewrite lookup_insert_eq. simpl.
    rewrite (sync_update_entities_again _ _ _ _ _ 0 Hup). simpl.
    rewrite insert_insert_eq. split; [do 3 f_equal; lia|].
    by apply sync_update_entities_count in Hup.
  - intros [= <- <-]. simpl. by rewrite Hkey.
Qed.

(** X8.  [update_json_file] of update-json-images.py can be run again: on the
    file it has written, with the image directory unchanged, it writes the
    same file and reports the same count; and the count it reports is the
    number of records of the list that carry an image reference in the file
    written. *)
Theorem update_json_file_idempotent (json_file out : option catalog)
    (listing : option (list pystr)) (entity_type list_key : pystr)
    (updated : nat) :
  Sync.update_json_file json_file listing entity_type list_key
    = Some (out, updated) →
  Sync.update_json_file out listing entity_type list_key = Some (out, updated)
  ∧ updated = with_image (default [] (out ≫= λ data, data !! list_key)).
Proof. apply sync_update_json_file_again. Qed.

Lemma update_json_file_idempotent_witness :
  Sync.update_json_file (Some items_catalog_synced) (Some [str "anvil.png"])
                        (str "items") (str "items")
    = Some (Some items_catalog_synced, 1)
  ∧ 1 = with_image
          (default [] (Some items_catalog_synced ≫= λ data, data !! str "items")).
Proof.
  apply (update_json_file_idempotent (Some items_catalog)
           (Some items_catalog_synced)
           (Some [str "anvil.png"]) (str "items") (str "items") 1).
  reflexivity.
Defined.

(** ** Two files for one id *)

(** X9.  When the image directory holds several files with the same stem,
    the one that [iterdir] yields last is the one the catalog will refer
    to. *)
Theorem get_available_images_last (entity_type : pystr)
    (before after : list pystr) (f : pystr) :
  (∀ g, g ∈ after → stem g ≠ stem f) →
  Sync.get_available_images entity_type (Some (before ++ f :: after)) !! stem f
  = Some (rel_path entity_type f).
Proof.
  unfold Sync.get_available_images.
  induction after as [|g after IH] using rev_ind; intros Hafter.
  - rewrite (images_of_listing_snoc entity_type before f).
    apply lookup_insert_eq.
  - replace (before ++ f :: after ++ [g]) with ((before ++ f :: after) ++ [g])
      by (by rewrite <- app_assoc).
    rewrite images_of_listing_snoc, lookup_insert_ne.
    + apply IH. intros h Hh. apply Hafter. apply elem_of_app. by left.
    + apply Hafter. apply elem_of_app. right. by apply list_elem_of_singleton.
Qed.

Lemma get_available_images_last_witness :
  Sync.get_available_images (str "items")
    (Some ([str "anvil.png"] ++ str "anvil.gif" :: [str "bow.png"]))
    !! stem (str "anvil.gif")
  = Some (rel_path (str "items") (str "anvil.gif")).
Proof.
  apply (get_available_images_last (str "items") [str "anvil.png"]
           [str "bow.png"] (str "anvil.gif")).
  intros g Hg%list_elem_of_singleton. subst g. discriminate.
Defined.

(** ** When the sync raises *)

Lemma sync_update_entities_hashable images entities n :
  is_Some (Sync.update_entities images entities n) → ids_hashable entities.
Proof.
  unfold ids_hashable. revert n.
  induction entities as [|e rest IH]; intros n; simpl; [constructor|].
  unfold Sync.update_entity at 1.
  destruct (entity_get e (str "id")) as [| | | |s| |] eqn:Hid; simpl;
    try (by intros [? [=]]).
  all: intros Hsome; constructor; [by rewrite Hid|].
  all: try destruct (images !! s); simpl in Hsome.
  all: destruct (Sync.update_entities images rest _) as [r|] eqn:Hr;
    [eapply IH; by rewrite Hr | by destruct Hsome as [? [=]]].
Qed.

(** X10.  [update_json_file] ends with an exception exactly when the list
    holds a record whose id is a JSON array or object, which cannot be looked
    up in the dict of the images; nothing is written then. *)
Theorem update_json_file_raises (data : catalog) (listing : option (list pystr))
    (entity_type list_key : pystr) (entities : list entity) :
  data !! list_key = Some entities →
  Sync.update_json_file (Some data) listing entity_type list_key = None
  ↔ ¬ ids_hashable entities.
Proof.
  intros Hkey. unfold Sync.update_json_file. rewrite Hkey.
  destruct (Sync.update_entities _ entities 0) as [[entities' n]|] eqn:Hup;
    simpl.
  - split; [done|]. intros []. eapply sync_update_entities_hashable.
    by rewrite Hup.
  - split; [|done]. intros _ Hids.
    destruct (sync_update_entities_total
                (Sync.get_available_images entity_type listing) entities 0 Hids)
      as [? Hsome].
    congruence.
Qed.

Lemma update_json_file_raises_witness :
  Sync.update_json_file (Some {[ str "items" := [{[ str "id" := JArr [] ]}] ]})
                        None (str "items") (str "items") = None
  ↔ ¬ ids_hashable [{[ str "id" := JArr [] ]}].
Proof.
  apply (update_json_file_raises
           {[ str "items" := [{[ str "id" := JArr [] ]}] ]} None
           (str "items") (str "items") [{[ str "id" := JArr [] ]}]).
  reflexivity.
Defined.

(** ** The catalog update of scrape-images-v2.py *)

Lemma sync_update_entities_no_images entities n entities' n' :
  Sync.update_entities ∅ entities n = Some (entities', n') →
  n' = n ∧ Forall (λ e : entity, e !! str "image" = None) entities'.
Proof.
  revert n entities' n'.
  induction entities as [|e rest IH]; intros n entities' n'; simpl.
  - intros [= <- <-]. by split.
  - unfold Sync.update_entity at 1.
    destruct (entity_get e (str "id")) as [| | | |s| |]; simpl; try done.
    all: try rewrite lookup_empty.
    all: simpl.
    all: destruct (Sync.update_entities ∅ rest n) as [[rest' k]|] eqn:Hr;
      simpl; [|done].
    all: intros [= <- <-]; apply IH in Hr as [-> Hall].
    all: split; [done|]; constructor; [apply lookup_delete_eq|done].
Qed.

(** X11.  The catalog update of scrape-images-v2.py writes what
    [update_json_file] of update-json-images.py writes when the image
    directory exists.  When it does not exist the two differ: the scraper
    leaves the catalog file as it is, update-json-images.py reads the
    directory as empty, reports 0 and strips the image reference from every
    record of the list. *)
Theorem update_json_type_as_sync (json_file : option catalog)
    (entity_type : pystr) :
  (∀ files,
     V2.update_json_type json_file (Some files) entity_type
     = fst <$> Sync.update_json_file json_file (Some files)
                                     entity_type entity_type)
  ∧ V2.update_json_type json_file None entity_type = Some json_file
  ∧ ∀ out updated,
      Sync.update_json_file json_file None entity_type entity_type
        = Some (out, updated) →
      updated = 0
      ∧ Forall (λ e : entity, e !! str "image" = None)
               (default [] (out ≫= λ data, data !! entity_type)).
Proof.
  split; [|split].
  - intros files. unfold V2.update_json_type, Sync.update_json_file.
    destruct json_file as [data|]; [|done]. simpl.
    destruct (data !! entity_type) as [entities|]; [|done].
    by destruct (Sync.update_entities _ entities 0) as [[entities' n]|].
  - by destruct json_file.
  - intros out updated. unfold Sync.update_json_file.
    destruct json_file as [data|]; [|by intros [= <- <-]]. simpl.
    destruct (data !! entity_type) as [entities|] eqn:Hkey.
    + destruct (Sync.update_entities ∅ entities 0) as [[entities' n]|] eqn:Hup;
        [|done].
      simpl. intros [= <- <-]. simpl. rewrite lookup_insert_eq. simpl.
      by apply sync_update_entities_no_images in Hup.
    + intros [= <- <-]. simpl. by rewrite Hkey.
Qed.

Example update_json_no_directory :
  image_refs (default None
                (V2.update_json_type (Some items_catalog) None (str "items")))
             (str "items")
  = Some [ Some (JStr (str "images/items/old.gif"));
           Some (JStr (str "images/items/bow.png")) ]
  ∧ (Sync.update_json_file (Some items_catalog) None (str "items") (str "items")
       ≫= λ out, image_refs out.1 (str "items"))
    = Some [None; None].
Proof. split; compute_done. Qed.

(** ** The whole of update-json-images.py *)

Section sync_main.
Variable listings : pystr → option (list pystr).

Local Abbreviation step :=
  (λ (acc : gmap pystr catalog * option nat) (config : pystr * pystr),
     let '(files, total) := acc in
     match total with
     | Some total =>
         let '(entity_type, list_key) := config in
         match Sync.update_json_file (files !! entity_type)
                                     (listings entity_type) entity_type list_key
         with
         | Some (Some data, count) =>
             (<[entity_type := data]> files, Some (total + count))
         | Some (None, count) => (files, Some (total + count))
         | None => (files, None)
         end
     | None => acc
     end).

Lemma sync_main_raised files configs :
  foldl step (files, None) configs = (files, None).
Proof. induction configs as [|c configs IH]; simpl; [done|apply IH]. Qed.

Lemma sync_main_fold (types : list pystr) files t files' t' :
  NoDup types →
  foldl step (files, Some t) ((λ ty, (ty, ty)) <$> types) = (files', Some t') →
  t' = t + sum_list ((λ ty, with_image (records files' ty)) <$> types)
  ∧ (∀ ty, ty ∉ types → files' !! ty = files !! ty)
  ∧ ∀ t0, foldl step (files', Some t0) ((λ ty, (ty, ty)) <$> types)
          = (files', Some (t0 + (t' - t))).
Proof.
  intros Hnd. revert files t.
  induction Hnd as [|ty types Hty Hnd IH]; intros files t; simpl.
  - intros [= <- <-]. repeat split; [lia|]. intros t0. do 2 f_equal. lia.
  - destruct (Sync.update_json_file (files !! ty) (listings ty) ty ty)
      as [[out count]|] eqn:Hup;
      [|rewrite sync_main_raised; by intros [=]].
    pose proof (sync_update_json_file_again _ _ _ _ _ _ Hup) as [Hagain Hcount].
    destruct out as [data|].
    + intros Hrest. destruct (IH _ _ Hrest) as (Hsum & Hframe & Hidem).
      assert (files' !! ty = Some data) as Hfile.
      { rewrite Hframe by done. apply lookup_insert_eq. }
      assert (records files' ty = default [] (data !! ty)) as Hrec.
      { unfold records. by rewrite Hfile. }
      split; [|split].
      * rewrite Hrec. simpl in Hcount. rewrite Hsum, Hcount.
        rewrite <- Nat.add_assoc. reflexivity.
      * intros ty' Hty'. rewrite not_elem_of_cons in Hty'.
        destruct Hty' as [Hne Hnot]. rewrite Hframe by done.
        by rewrite lookup_insert_ne.
      * intros t0. rewrite Hfile, Hagain. rewrite insert_id by done.
        rewrite Hidem. do 2 f_equal. lia.
    + intros Hrest. destruct (IH _ _ Hrest) as (Hsum & Hframe & Hidem).
      assert (files !! ty = None) as Hnone.
      { clear -Hup. revert Hup. unfold Sync.update_json_file.
        destruct (files !! ty) as [data|]; [|done].
        destruct (data !! ty) as [entities|]; [|done].
        by destruct (Sync.update_entities _ entities 0) as [[? ?]|]. }
      assert (files' !! ty = None) as Hfile by (by rewrite Hframe).
      assert (records files' ty = []) as Hrec.
      { unfold records. by rewrite Hfile. }
      split; [|split].
      * rewrite Hrec. simpl in Hcount. rewrite Hsum, Hcount.
        rewrite <- Nat.add_assoc. reflexivity.
      * intros ty' Hty'. rewrite not_elem_of_cons in Hty'.
        destruct Hty' as [Hne Hnot]. by rewrite Hframe.
      * intros t0. rewrite Hfile, Hagain. rewrite Hidem. do 2 f_equal. lia.
Qed.

End sync_main.

(** X12.  A run of update-json-images.py that ends without an exception
    reports the number of records, over the four catalogs, that carry an image
    reference in the files it leaves; it changes no other catalog file; and a
    second run over the files it leaves, with the image directories
    unchanged, leaves them as they are and reports the same total. *)
Theorem sync_main_total (json_files json_files' : gmap pystr catalog)
    (listings : pystr → option (list pystr)) (total : nat) :
  Sync.main json_files listings = (json_files', Some total) →
  total = with_image (records json_files' (str "items"))
          + with_image (records json_files' (str "weapons"))
          + with_image (records json_files' (str "characters"))
          + with_image (records json_files' (str "tomes"))
  ∧ (∀ ty, ty ∉ Sync.configs.*1 → json_files' !! ty = json_files !! ty)
  ∧ Sync.main json_files' listings = (json_files', Some total).
Proof.
  intros Hmain.
  destruct (sync_main_fold listings
              [str "items"; str "weapons"; str "characters"; str "tomes"]
              json_files 0 json_files' total) as (Hsum & Hframe & Hidem).
  - apply (bool_decide_unpack _). by vm_compute.
  - exact Hmain.
  - split; [|split].
    + simpl in Hsum. lia.
    + exact Hframe.
    + unfold Sync.main. change Sync.configs with
        ((λ ty : pystr, (ty, ty))
           <$> [str "items"; str "weapons"; str "characters"; str "tomes"]).
      rewrite (Hidem 0). do 2 f_equal. lia.
Qed.

Lemma sync_main_total_witness :
  1 = with_image (records {[ str "items" := items_catalog_synced ]} (str "items"))
      + with_image (records {[ str "items" := items_catalog_synced ]} (str "weapons"))
      + with_image (records {[ str "items" := items_catalog_synced ]}
                            (str "characters"))
      + with_image (records {[ str "items" := items_catalog_synced ]} (str "tomes"))
  ∧ (∀ ty, ty ∉ Sync.configs.*1 →
       ({[ str "items" := items_catalog_synced ]} : gmap pystr catalog) !! ty
       = ({[ str "items" := items_catalog ]} : gmap pystr catalog) !! ty)
  ∧ Sync.main {[ str "items" := items_catalog_synced ]}
              (λ _, Some [str "anvil.png"])
    = ({[ str "items" := items_catalog_synced ]}, Some 1).
Proof.
  apply (sync_main_total {[ str "items" := items_catalog ]}
           {[ str "items" := items_catalog_synced ]}
           (λ _, Some [str "anvil.png"]) 1).
  reflexivity.
Defined.

(** * Further properties of scrape-images-v2.py *)

(** ** The list of missing ids *)

Section v2_missing.
Variable iter_set : gset pystr → list pystr.

Lemma load_entities_fold_missing existing entities d m :
  (foldl (V2.load_entity iter_set existing) (d, m) entities).2
  = m ++ filter (λ eid, eid ∉ existing) (entry_id <$> entities).
Proof.
  revert d m. induction entities as [|e entities IH]; intros d m.
  - simpl. by rewrite app_nil_r.
  - cbn [foldl]. rewrite fmap_cons.
    destruct (V2.load_entity iter_set existing (d, m) e) as [d' m'] eqn:Hstep.
    rewrite IH. unfold V2.load_entity in Hstep. cbv zeta in Hstep.
    fold (entry_id e) in Hstep.
    destruct (decide (entry_id e ∈ existing)) as [Hex|Hex]; simplify_eq.
    + by rewrite filter_cons_False by (by intros []).
    + rewrite filter_cons_True by done. by rewrite <- app_assoc.
Qed.

Lemma load_entities_missing_ids data w entity_type :
  (V2.load_entities iter_set (Some data) w entity_type).2
  = filter (λ eid, eid ∉ existing_stems w entity_type)
           (entry_id <$> default [] (data !! entity_type)).
Proof. unfold V2.load_entities. by rewrite load_entities_fold_missing. Qed.

Section net.
Variable http_text : nat → pystr → option pystr.
Variable http_bytes : nat → pystr → option payload.
Variable img_tags : pystr → list (pystr * pystr).
Variable title : pystr → pystr.

(** X13.  [scrape_entity_type] of scrape-images-v2.py leaves the world as it
    is, without a single request, exactly when it has nothing to look for:
    the catalog file is missing, or every record of the list has an id that is
    the stem of a file of the image directory.  It returns 0 then. *)
Theorem v2_scrape_entity_type_idle (json_file : option catalog)
    (entity_type wiki_path : pystr) (w : world) :
  let r := V2.scrape_entity_type iter_set http_text http_bytes img_tags title
             json_file entity_type wiki_path w in
  (r.2 = w ↔
     ∀ data e, json_file = Some data →
       e ∈ default [] (data !! entity_type) →
       entry_id e ∈ existing_stems w entity_type)
  ∧ (r.2 = w → r.1 = 0).
Proof.
  cbv zeta. unfold V2.scrape_entity_type.
  destruct json_file as [data|].
  - destruct (V2.load_entities iter_set (Some data) w entity_type)
      as [name_to_id missing_ids] eqn:Hload.
    pose proof (load_entities_missing_ids data w entity_type) as Hm.
    rewrite Hload in Hm. simpl in Hm.
    destruct missing_ids as [|m0 missing_ids].
    + split; [|done]. split; [|done]. intros _ data' e [= <-] He.
      destruct (decide (entry_id e ∈ existing_stems w entity_type))
        as [Hex|Hex]; [done|].
      assert (entry_id e ∈ ([] : list pystr)) as Hin; [|by apply elem_of_nil in Hin].
      rewrite Hm. apply list_elem_of_filter. split; [done|].
      apply list_elem_of_fmap. by exists e.
    + assert (∀ r : nat * world, length (log w) < length (log r.2) → r.2 ≠ w)
        as Hneq.
      { intros r Hlt Heq. rewrite Heq in Hlt. lia. }
      assert (m0 ∉ existing_stems w entity_type) as Hm0.
      { assert (m0 ∈ m0 :: missing_ids) as Hin by left.
        rewrite Hm in Hin. by apply list_elem_of_filter in Hin as [? _]. }
      assert (∃ e, e ∈ default [] (data !! entity_type) ∧ entry_id e = m0)
        as (e0 & He0 & Hid0).
      { assert (m0 ∈ m0 :: missing_ids) as Hin by left.
        rewrite Hm in Hin. apply list_elem_of_filter in Hin as [_ Hin].
        apply list_elem_of_fmap in Hin as (e & -> & He). by exists e. }
      assert (∀ r : nat * world, length (log w) < length (log r.2) →
                (r.2 = w ↔
                   ∀ data' e, Some data = Some data' →
                     e ∈ default [] (data' !! entity_type) →
                     entry_id e ∈ existing_stems w entity_type)
                ∧ (r.2 = w → r.1 = 0)) as Hbusy.
      { intros r Hlt. split; [split|].
        - intros Heq. by apply Hneq in Hlt.
        - intros Hall. destruct Hm0. rewrite <- Hid0. by eapply Hall.
        - intros Heq. by apply Hneq in Hlt. }
      unfold V2.fetch_page.
      destruct (http_text (length (log w)) (V2.BASE_URL ++ wiki_path))
        as [[|c html]|]; try (apply Hbusy; simpl; rewrite length_app; simpl; lia).
      apply Hbusy. simpl.
      set (w1 := record_request Listing (V2.BASE_URL ++ wiki_path) w).
      assert (length (log w) < length (log w1)) as Hw1.
      { simpl. rewrite length_app. simpl. lia. }
      pose proof (load_entities_missing iter_set (Some data) w entity_type)
        as [Hvals Hmiss].
      rewrite Hload in Hvals, Hmiss. simpl in Hvals, Hmiss.
      pose proof (match_pass_grows iter_set http_bytes entity_type w name_to_id
                    (V2.parse_images img_tags (c :: html))
                    (V2.Pass 0 ∅ [] w1) Hvals) as Hpass.
      fold (V2.match_pass iter_set http_bytes name_to_id entity_type
              (V2.parse_images img_tags (c :: html)) w1) in Hpass.
      simpl in Hpass.
      set (st := V2.match_pass iter_set http_bytes name_to_id entity_type
                   (V2.parse_images img_tags (c :: html)) w1) in *.
      assert (length (log w) < length (log (V2.now st))) as Hst.
      { destruct Hpass as [(new & Hnew & _) _]. rewrite Hnew, length_app. lia. }
      case_match; [|exact Hst].
      match goal with
      | |- _ < length (log (V2.now ?st')) =>
          assert (grows (unresolved entity_type w) (V2.now st) (V2.now st'))
            as [(new & Hnew & _) _]
      end.
      { apply page_steps_grows. apply Forall_forall. intros eid [_ Hin]%list_elem_of_filter.
        rewrite Forall_forall in Hmiss. by apply Hmiss. }
      rewrite Hnew, length_app. lia.
  - simpl. split; [|done]. split; [|done]. by intros _ data e [=].
Qed.

End net.
End v2_missing.

(** ** The files a run writes *)

Lemma writes_refl P Q w : writes P Q w w.
Proof. intros p. by left. Qed.

Lemma writes_trans P Q w1 w2 w3 :
  writes P Q w1 w2 → writes P Q w2 w3 → writes P Q w1 w3.
Proof.
  intros H12 H23 p. destruct (H23 p) as [Heq|Hnew]; [|by right].
  destruct (H12 p) as [Heq'|(ty & e & ext & data & Hp & HP & Hext & Hfs & HQ)].
  - left. congruence.
  - right. exists ty, e, ext, data. repeat split; try done. congruence.
Qed.

Lemma writes_weaken (P P' : pystr → pystr → Prop) (Q Q' : payload → Prop) w w' :
  (∀ ty e, P ty e → P' ty e) → (∀ data, Q data → Q' data) →
  writes P Q w w' → writes P' Q' w w'.
Proof.
  intros HP HQ Hw p.
  destruct (Hw p) as [Heq|(ty & e & ext & data & Hp & HPe & Hext & Hfs & HQd)];
    [by left|].
  right. exists ty, e, ext, data. repeat split; auto.
Qed.

Lemma writes_record_request P Q who url w : writes P Q w (record_request who url w).
Proof. intros p. by left. Qed.

Lemma writes_write_file (P : pystr → pystr → Prop) (Q : payload → Prop)
    ty e ext data w :
  P ty e → ext ∈ Wiki.image_exts → Q data →
  writes P Q w (write_file (asset_path ty e ext) data w).
Proof.
  intros HP Hext HQ p. simpl.
  destruct (decide (p = asset_path ty e ext)) as [->|Hne].
  - right. exists ty, e, ext, data. rewrite lookup_insert_eq. by repeat split.
  - left. by rewrite lookup_insert_ne.
Qed.

Lemma writes_dom P Q w w' : writes P Q w w' → dom (fs w) ⊆ dom (fs w').
Proof.
  intros Hw p [x Hx]%elem_of_dom. apply elem_of_dom.
  destruct (Hw p) as [Heq|(ty & e & ext & data & _ & _ & _ & Hfs & _)].
  - rewrite Heq. by eexists.
  - by eexists.
Qed.

Lemma existing_stems_elem w ty s :
  s ∈ existing_stems w ty ↔ ∃ f, (ty, f) ∈ dom (fs w) ∧ stem f = s.
Proof.
  unfold existing_stems. rewrite elem_of_set_omap. split.
  - intros ([d f] & Hp & Hs). simpl in Hs.
    destruct (decide (d = ty)) as [->|]; [|done]. exists f. split; [done|].
    by injection Hs.
  - intros (f & Hf & Hs). exists (ty, f). split; [done|]. simpl.
    rewrite decide_True by done. by rewrite Hs.
Qed.

Lemma existing_stems_mono w w' ty :
  dom (fs w) ⊆ dom (fs w') → existing_stems w ty ⊆ existing_stems w' ty.
Proof.
  intros Hdom s. rewrite !existing_stems_elem. intros (f & Hf & Hs).
  exists f. split; [by apply Hdom|done].
Qed.

Lemma asset_in_existing_stems w ty e ext :
  e ≠ [] → ext ∈ Wiki.image_exts →
  asset_path ty e ext ∈ dom (fs w) → e ∈ existing_stems w ty.
Proof.
  intros He Hext Hin. apply existing_stems_elem.
  exists (e ++ str "." ++ ext). split; [done|]. by apply stem_asset.
Qed.

(** What is written for entries without an asset file overwrites nothing. *)
Lemma writes_keeps entity_type Q w w' :
  writes (missing_entry entity_type w) Q w w' → keeps w w'.
Proof.
  intros Hw p data Hp.
  destruct (Hw p) as [Heq|(ty & e & ext & d & -> & (-> & He & Hmiss) & Hext & _)];
    [congruence|].
  destruct Hmiss. apply asset_in_existing_stems with ext; [done..|].
  apply elem_of_dom. by eexists.
Qed.

Lemma existing_stems_write w ty e ext data :
  e ≠ [] → ext ∈ Wiki.image_exts →
  existing_stems (write_file (asset_path ty e ext) data w) ty
  = {[e]} ∪ existing_stems w ty.
Proof.
  intros He Hext. apply set_eq. intros s.
  rewrite elem_of_union, elem_of_singleton, !existing_stems_elem. simpl.
  setoid_rewrite dom_insert_L. setoid_rewrite elem_of_union.
  setoid_rewrite elem_of_singleton. split.
  - intros (f & [Hf|Hf] & Hs).
    + left. injection Hf as ->. rewrite <- Hs. by apply stem_asset.
    + right. by exists f.
  - intros [->|(f & Hf & Hs)].
    + exists (e ++ str "." ++ ext). split; [by left|]. by apply stem_asset.
    + exists f. auto.
Qed.

Section v2_files.
Variable iter_set : gset pystr → list pystr.
Variable http_text : nat → pystr → option pystr.
Variable http_bytes : nat → pystr → option payload.
Variable img_tags : pystr → list (pystr * pystr).
Variable title : pystr → pystr.
Variable entity_type : pystr.
Variable w0 : world.

Local Abbreviation missing := (missing_entry entity_type w0).
Local Abbreviation stems_ok := (pass_stems entity_type w0).

Lemma v2_download_image_cases who url save_path w :
  (∃ data, V2.download_image http_bytes who url save_path w
           = (true, write_file save_path data (record_request who url w)))
  ∨ V2.download_image http_bytes who url save_path w
    = (false, record_request who url w).
Proof.
  unfold V2.download_image.
  destruct (http_bytes (length (log w)) url) as [data|]; [left|right]; eauto.
Qed.

Lemma match_step_stems name_to_id st img :
  Forall (λ kv, kv.2 ∉ existing_stems w0 entity_type) name_to_id →
  stems_ok st →
  stems_ok (V2.match_step iter_set http_bytes name_to_id entity_type st img).
Proof.
  intros Hvals [Hw Hs Hn]. unfold V2.match_step. destruct img as [img_name img_url].
  destruct (V2.match_image_to_entity iter_set img_name name_to_id)
    as [e|] eqn:Hres; [|done].
  destruct (bool_decide (e ≠ [])) eqn:He; [|done].
  destruct (bool_decide (e ∉ V2.matched st)) eqn:Hm; [|done]. simpl.
  apply bool_decide_eq_true in He. apply bool_decide_eq_true in Hm.
  apply match_image_to_entity_value in Hres as (k & Hk).
  rewrite Forall_forall in Hvals. specialize (Hvals _ Hk). simpl in Hvals.
  assert (missing entity_type e) as HP by done.
  pose proof (image_exts_wiki _ (image_ext_elem img_url)) as Hext.
  destruct (v2_download_image_cases (ImageOf entity_type e) img_url
              (asset_path entity_type e (image_ext img_url)) (V2.now st))
    as [[data ->]| ->].
  - split; cbn [V2.now V2.matched].
    + eapply writes_trans; [exact Hw|]. eapply writes_trans.
      * apply writes_record_request.
      * by apply writes_write_file.
    + rewrite existing_stems_write by done.
      change (existing_stems (record_request _ _ (V2.now st)) entity_type)
        with (existing_stems (V2.now st) entity_type).
      rewrite Hs. set_solver.
    + set_solver.
  - by split.
Qed.

Lemma match_step_count name_to_id st img :
  V2.downloaded st = size (V2.matched st) →
  let st' := V2.match_step iter_set http_bytes name_to_id entity_type st img in
  V2.downloaded st' = size (V2.matched st').
Proof.
  intros Hc. cbv zeta. unfold V2.match_step. destruct img as [img_name img_url].
  destruct (V2.match_image_to_entity iter_set img_name name_to_id)
    as [e|]; [|done].
  destruct (bool_decide (e ≠ [])); [|done].
  destruct (bool_decide (e ∉ V2.matched st)) eqn:Hm; [|done]. simpl.
  apply bool_decide_eq_true in Hm.
  destruct (v2_download_image_cases (ImageOf entity_type e) img_url
              (asset_path entity_type e (image_ext img_url)) (V2.now st))
    as [[data ->]| ->]; [|done].
  cbn [V2.downloaded V2.matched].
  rewrite size_union by set_solver. rewrite size_singleton. simpl. by rewrite Hc.
Qed.

Lemma match_pass_stems name_to_id images st :
  Forall (λ kv, kv.2 ∉ existing_stems w0 entity_type) name_to_id →
  stems_ok st → V2.downloaded st = size (V2.matched st) →
  let st' := foldl (V2.match_step iter_set http_bytes name_to_id entity_type)
                   st images in
  stems_ok st' ∧ V2.downloaded st' = size (V2.matched st').
Proof.
  intros Hvals. revert st.
  induction images as [|img images IH]; intros st Hst Hc; [done|].
  cbn [foldl]. apply IH.
  - by apply match_step_stems.
  - by apply match_step_count.
Qed.

Lemma first_page_image_stems eid images w :
  missing entity_type eid →
  let r := V2.first_page_image http_bytes entity_type eid images w in
  writes missing any_payload w r.2
  ∧ existing_stems r.2 entity_type
    = (if r.1 then {[eid]} ∪ existing_stems w entity_type
       else existing_stems w entity_type).
Proof.
  intros HP. cbv zeta. revert w.
  induction images as [|[img_name img_url] images IH]; intros w; simpl.
  - split; [apply writes_refl|done].
  - case_match; [apply IH|].
    pose proof (image_exts_wiki _ (image_ext_elem img_url)) as Hext.
    destruct (v2_download_image_cases (ImageOf entity_type eid) img_url
                (asset_path entity_type eid (image_ext img_url)) w)
      as [[data ->]| ->].
    + simpl. split.
      * eapply writes_trans; [apply writes_record_request|].
        by apply writes_write_file.
      * destruct HP as (_ & Hne & _). by rewrite existing_stems_write.
    + destruct (IH (record_request (ImageOf entity_type eid) img_url w))
        as [Hw Hs].
      split; [|exact Hs].
      eapply writes_trans; [apply writes_record_request|exact Hw].
Qed.

Lemma page_step_stems st eid :
  missing entity_type eid → stems_ok st →
  stems_ok (V2.page_step http_text http_bytes img_tags title entity_type st eid).
Proof.
  intros HP [Hw Hs Hn]. unfold V2.page_step. cbv zeta. unfold V2.fetch_page.
  match goal with
  | |- context [record_request ?who ?url (V2.now st)] =>
      set (w1 := record_request who url (V2.now st))
  end.
  assert (pass_stems entity_type w0
            (V2.Pass (V2.downloaded st) (V2.matched st) (V2.assigned st) w1))
    as Hsame by (by split).
  destruct (http_text _ _) as [[|c html]|]; try exact Hsame.
  destruct (first_page_image_stems eid
              (V2.parse_images img_tags (c :: html)) w1 HP) as [Hw1 Hs1].
  destruct (V2.first_page_image http_bytes entity_type eid _ w1) as [[] w2];
    simpl in Hw1, Hs1.
  - split; cbn [V2.now V2.matched].
    + eapply writes_trans; [exact Hw|]. eapply writes_trans; [|exact Hw1].
      apply writes_record_request.
    + rewrite Hs1.
      change (existing_stems w1 entity_type)
        with (existing_stems (V2.now st) entity_type).
      rewrite Hs. set_solver.
    + destruct HP as (_ & _ & Hmiss). set_solver.
  - split; cbn [V2.now V2.matched]; [|by rewrite Hs1|done].
    eapply writes_trans; [exact Hw|]. eapply writes_trans; [|exact Hw1].
    apply writes_record_request.
Qed.

Lemma page_step_matched st eid :
  let st' := V2.page_step http_text http_bytes img_tags title entity_type st eid in
  (V2.matched st' = V2.matched st ∧ V2.downloaded st' = V2.downloaded st)
  ∨ (V2.matched st' = {[eid]} ∪ V2.matched st
     ∧ V2.downloaded st' = S (V2.downloaded st)).
Proof.
  cbv zeta. unfold V2.page_step. cbv zeta.
  destruct (V2.fetch_page http_text _ _ _) as [[[|c html]|] w1]; try (by left).
  destruct (V2.first_page_image http_bytes entity_type eid _ w1) as [[] w2];
    [by right|by left].
Qed.

Lemma page_steps_stems st ids :
  Forall (missing entity_type) ids → stems_ok st →
  stems_ok (foldl (V2.page_step http_text http_bytes img_tags title entity_type)
                  st ids).
Proof.
  intros Hids. revert st.
  induction Hids as [|eid ids Heid _ IH]; intros st Hst; [done|].
  cbn [foldl]. apply IH. by apply page_step_stems.
Qed.

Lemma page_steps_count st ids :
  NoDup ids → Forall (λ eid, eid ∉ V2.matched st) ids →
  V2.downloaded st = size (V2.matched st) →
  let st' := foldl (V2.page_step http_text http_bytes img_tags title entity_type)
                   st ids in
  V2.downloaded st' = size (V2.matched st').
Proof.
  intros Hnd. revert st.
  induction Hnd as [|eid ids Hnot Hnd IH]; intros st Hfresh Hc; [done|].
  cbn [foldl]. apply Forall_cons in Hfresh as [Heid Hfresh]. apply IH.
  - destruct (page_step_matched st eid) as [[-> _]|[-> _]]; [done|].
    apply Forall_forall. intros x Hx. rewrite Forall_forall in Hfresh.
    specialize (Hfresh x Hx). set_solver.
  - destruct (page_step_matched st eid) as [[-> ->]|[-> ->]]; [done|].
    rewrite size_union by set_solver. rewrite size_singleton. simpl.
    by rewrite Hc.
Qed.

End v2_files.

Section v2_run_files.
Variable iter_set : gset pystr → list pystr.
Variable http_text : nat → pystr → option pystr.
Variable http_bytes : nat → pystr → option payload.
Variable img_tags : pystr → list (pystr * pystr).
Variable title : pystr → pystr.

Lemma load_entities_missing_records json_file w entity_type :
  (V2.load_entities iter_set json_file w entity_type).2
  = filter (λ eid, eid ∉ existing_stems w entity_type)
           (entry_id <$> file_records json_file entity_type).
Proof.
  destruct json_file as [data|]; [|done]. apply load_entities_missing_ids.
Qed.

Lemma v2_scrape_entity_type_stems json_file entity_type wiki_path w :
  ids_given (file_records json_file entity_type) →
  ∃ st,
    V2.scrape_entity_type iter_set http_text http_bytes img_tags title
                          json_file entity_type wiki_path w
    = (V2.downloaded st, V2.now st)
    ∧ pass_stems entity_type w st
    ∧ (ids_distinct (file_records json_file entity_type) →
       V2.downloaded st = size (V2.matched st)).
Proof.
  intros Hgiven. unfold V2.scrape_entity_type.
  pose proof (load_entities_missing iter_set json_file w entity_type)
    as [Hvals _].
  pose proof (load_entities_missing_records json_file w entity_type) as Hm.
  destruct (V2.load_entities iter_set json_file w entity_type)
    as [name_to_id missing_ids].
  simpl in Hvals, Hm.
  assert (pass_stems entity_type w (V2.Pass 0 ∅ [] w)) as Hinit.
  { split; simpl; [apply writes_refl|set_solver|set_solver]. }
  destruct missing_ids as [|m0 missing_ids].
  { exists (V2.Pass 0 ∅ [] w). split; [done|]. split; [exact Hinit|done]. }
  set (missing := m0 :: missing_ids) in *.
  unfold V2.fetch_page.
  set (w1 := record_request Listing (V2.BASE_URL ++ wiki_path) w).
  assert (pass_stems entity_type w (V2.Pass 0 ∅ [] w1)) as Hinit1.
  { split; simpl; [apply writes_record_request|set_solver|set_solver]. }
  destruct (http_text (length (log w)) (V2.BASE_URL ++ wiki_path))
    as [[|c html]|];
    try (exists (V2.Pass 0 ∅ [] w1); split; [done|]; split; [exact Hinit1|done]).
  set (st := V2.match_pass iter_set http_bytes name_to_id entity_type
               (V2.parse_images img_tags (c :: html)) w1) in *.
  assert (pass_stems entity_type w st ∧ V2.downloaded st = size (V2.matched st))
    as [Hst Hcount].
  { unfold st, V2.match_pass. by apply match_pass_stems. }
  case_match; [|exists st; split; [done|]; split; [exact Hst|done]].
  eexists. split; [reflexivity|]. split.
  - apply page_steps_stems; [|done].
    apply Forall_forall. intros eid [_ Hin]%list_elem_of_filter.
    rewrite Hm in Hin. apply list_elem_of_filter in Hin as [Hex Hin].
    apply list_elem_of_fmap in Hin as (e & -> & He).
    unfold ids_given in Hgiven. rewrite Forall_forall in Hgiven.
    split; [done|]. split; [by apply Hgiven|done].
  - intros Hdistinct. apply page_steps_count; [| |done].
    + apply NoDup_filter. rewrite Hm. by apply NoDup_filter.
    + apply Forall_forall. by intros eid [Hnot _]%list_elem_of_filter.
Qed.

Lemma v2_scrape_entity_type_writes json_file entity_type wiki_path w :
  ids_given (file_records json_file entity_type) →
  writes (missing_entry entity_type w) any_payload w
         (V2.scrape_entity_type iter_set http_text http_bytes img_tags title
            json_file entity_type wiki_path w).2.
Proof.
  intros Hgiven.
  destruct (v2_scrape_entity_type_stems json_file entity_type wiki_path w Hgiven)
    as (st & -> & [Hw _ _] & _).
  exact Hw.
Qed.

(** X14.  When every record of the catalog has an id, [scrape_entity_type] of
    scrape-images-v2.py overwrites nothing: every file that was there when it
    started is still there with the same content, and every other file is the
    asset [<id>.<ext>] of an entry of the type with no asset file at the
    start. *)
Theorem v2_scrape_keeps_files (json_file : option catalog)
    (entity_type wiki_path : pystr) (w : world) :
  ids_given (file_records json_file entity_type) →
  let w' := (V2.scrape_entity_type iter_set http_text http_bytes img_tags title
               json_file entity_type wiki_path w).2 in
  keeps w w' ∧ writes (missing_entry entity_type w) any_payload w w'.
Proof.
  intros Hgiven. cbv zeta.
  pose proof (v2_scrape_entity_type_writes json_file entity_type wiki_path w
                Hgiven) as Hw.
  split; [|done]. by eapply writes_keeps.
Qed.

(** X15.  When every record of the catalog has an id and no two records share
    one, the number [scrape_entity_type] of scrape-images-v2.py returns is
    the number of entries that have an asset file after the run and had none
    before it. *)
Theorem v2_scrape_count (json_file : option catalog)
    (entity_type wiki_path : pystr) (w : world) :
  ids_given (file_records json_file entity_type) →
  ids_distinct (file_records json_file entity_type) →
  let r := V2.scrape_entity_type iter_set http_text http_bytes img_tags title
             json_file entity_type wiki_path w in
  r.1 = size (existing_stems r.2 entity_type ∖ existing_stems w entity_type).
Proof.
  intros Hgiven Hdistinct. cbv zeta.
  destruct (v2_scrape_entity_type_stems json_file entity_type wiki_path w Hgiven)
    as (st & -> & [_ Hs Hn] & Hc).
  simpl. rewrite Hc by done. f_equal. rewrite Hs. set_solver.
Qed.

End v2_run_files.

Lemma anvil_catalog_ids :
  ids_given (file_records (Some anvil_catalog) (str "items"))
  ∧ ids_distinct (file_records (Some anvil_catalog) (str "items")).
Proof.
  split.
  - repeat constructor; discriminate.
  - apply (bool_decide_unpack _). by vm_compute.
Qed.

Lemma v2_scrape_keeps_files_witness :
  let w' := (V2.scrape_entity_type elements one_page one_payload anvil_tags id
               (Some anvil_catalog) (str "items") (str "/wiki/Items")
               anvil_world).2 in
  keeps anvil_world w'
  ∧ writes (missing_entry (str "items") anvil_world) any_payload anvil_world w'.
Proof.
  apply (v2_scrape_keeps_files elements one_page one_payload anvil_tags id
           (Some anvil_catalog) (str "items") (str "/wiki/Items") anvil_world).
  apply anvil_catalog_ids.
Defined.

Lemma v2_scrape_count_witness :
  let r := V2.scrape_entity_type elements one_page one_payload anvil_tags id
             (Some anvil_catalog) (str "items") (str "/wiki/Items") anvil_world in
  r.1 = size (existing_stems r.2 (str "items")
              ∖ existing_stems anvil_world (str "items")).
Proof.
  apply (v2_scrape_count elements one_page one_payload anvil_tags id
           (Some anvil_catalog) (str "items") (str "/wiki/Items") anvil_world);
    apply anvil_catalog_ids.
Defined.

(** Without an id a record is looked for under the empty name, and the file
    [.png] written for it replaces one that was there. *)
Example v2_scrape_overwrites_without_id :
  let w := World {[ (str "items", str ".png") := [Byte.x00] ]} [] in
  let w' := (V2.scrape_entity_type elements one_page one_payload anvil_tags id
               (Some {[ str "items" := [{[ str "name" := JStr (str "Bow") ]}] ]})
               (str "items") (str "/wiki/Items") w).2 in
  fs w' !! (str "items", str ".png") = Some [Byte.x89].
Proof. compute_done. Qed.

(** ** The whole of scrape-images-v2.py *)

Lemma writes_keeps_any Q w w' : writes (missing_any w) Q w w' → keeps w w'.
Proof.
  intros Hw p data Hp.
  destruct (Hw p) as [Heq|(ty & e & ext & d & -> & (He & Hmiss) & Hext & _)];
    [congruence|].
  destruct Hmiss. apply asset_in_existing_stems with ext; [done..|].
  apply elem_of_dom. by eexists.
Qed.

Section v2_main.
Variable iter_set : gset pystr → list pystr.
Variable http_text : nat → pystr → option pystr.
Variable http_bytes : nat → pystr → option payload.
Variable img_tags : pystr → list (pystr * pystr).
Variable title : pystr → pystr.
Variable json_files : gmap pystr catalog.
Variable w0 : world.

Local Abbreviation scrape_step :=
  (λ (acc : nat * world) (page : pystr * pystr),
     let '(total_downloaded, w) := acc in
     let '(entity_type, wiki_path) := page in
     let '(count, w) :=
       V2.scrape_entity_type iter_set http_text http_bytes img_tags title
         (json_files !! entity_type) entity_type wiki_path w in
     (total_downloaded + count, w)).

Lemma v2_scrape_all_grows pages st :
  grows (without_asset w0) w0 st.2 →
  grows (without_asset w0) w0 (foldl scrape_step st pages).2.
Proof.
  revert st. induction pages as [|[ty path] pages IH]; intros [total w] Hw;
    [done|].
  cbn [foldl]. apply IH. simpl in Hw.
  pose proof (v2_scrape_entity_type_grows iter_set http_text http_bytes img_tags
                title (json_files !! ty) ty path w) as Hstep.
  destruct (V2.scrape_entity_type _ _ _ _ _ _ _ _ w) as [count w']. simpl in *.
  eapply grows_trans; [exact Hw|].
  eapply grows_weaken; [|exact Hstep].
  intros ty' e [-> Hmiss] Hin. apply Hmiss.
  eapply existing_stems_mono; [|exact Hin]. by destruct Hw.
Qed.

Lemma v2_scrape_all_writes pages st :
  (∀ page, page ∈ pages → ids_given (records json_files page.1)) →
  writes (missing_any w0) any_payload w0 st.2 →
  writes (missing_any w0) any_payload w0 (foldl scrape_step st pages).2.
Proof.
  revert st. induction pages as [|[ty path] pages IH]; intros [total w] Hids Hw;
    [done|].
  cbn [foldl]. apply IH.
  { intros page Hpage. apply Hids. by right. }
  simpl in Hw.
  assert (ids_given (file_records (json_files !! ty) ty)) as Hgiven.
  { apply (Hids (ty, path)). left. }
  pose proof (v2_scrape_entity_type_writes iter_set http_text http_bytes
                img_tags title (json_files !! ty) ty path w Hgiven) as Hstep.
  destruct (V2.scrape_entity_type _ _ _ _ _ _ _ _ w) as [count w']. simpl in *.
  eapply writes_trans; [exact Hw|].
  eapply writes_weaken; [| |exact Hstep]; [|done].
  intros ty' e (-> & He & Hmiss). split; [done|]. intros Hin. apply Hmiss.
  eapply existing_stems_mono; [|exact Hin]. by eapply writes_dom.
Qed.

End v2_main.

(** X16.  A whole run of scrape-images-v2.py, over its four types, makes no
    request for an entry that has an asset file when the run starts; and when
    every record of the four catalogs has an id, every file that is there
    when the run starts is still there afterwards, with the same content. *)
Theorem v2_main_spares_resolved
    (iter_set : gset pystr → list pystr)
    (http_text : nat → pystr → option pystr)
    (http_bytes : nat → pystr → option payload)
    (img_tags : pystr → list (pystr * pystr)) (title : pystr → pystr)
    (iterdir : pystr → world → option (list pystr))
    (json_files : gmap pystr catalog) (w : world) :
  let w' := (V2.main iter_set http_text http_bytes img_tags title iterdir
               json_files w).2 in
  (∀ ty E, E ∈ existing_stems w ty →
     ∃ new, log w' = log w ++ new ∧ ∀ r, r ∈ new → ¬ for_entry ty E r.1)
  ∧ ((∀ ty, ty ∈ V2.WIKI_PAGES.*1 → ids_given (records json_files ty)) →
     keeps w w').
Proof.
  cbv zeta.
  assert ((V2.main iter_set http_text http_bytes img_tags title iterdir
             json_files w).2
          = (V2.scrape_all iter_set http_text http_bytes img_tags title
               json_files w).2) as ->.
  { unfold V2.main. by destruct (V2.scrape_all _ _ _ _ _ _ _) as [total w']. }
  unfold V2.scrape_all. split.
  - intros ty E HE. eapply grows_no_request.
    + apply (v2_scrape_all_grows iter_set http_text http_bytes img_tags title
               json_files w V2.WIKI_PAGES (0, w)). apply grows_refl.
    + unfold without_asset. tauto.
  - intros Hids. apply writes_keeps_any with any_payload.
    apply (v2_scrape_all_writes iter_set http_text http_bytes img_tags title
             json_files w V2.WIKI_PAGES (0, w)); [|apply writes_refl].
    intros [ty path] Hpage. apply Hids. apply list_elem_of_fmap.
    by exists (ty, path).
Qed.

Lemma v2_main_spares_resolved_witness :
  let w' := (V2.main elements one_page one_payload anvil_tags id (λ _ _, None)
               {[ str "items" := anvil_catalog ]} anvil_world).2 in
  (∃ new, log w' = log anvil_world ++ new
          ∧ ∀ r, r ∈ new → ¬ for_entry (str "items") (str "anvil") r.1)
  ∧ keeps anvil_world w'.
Proof.
  destruct (v2_main_spares_resolved elements one_page one_payload anvil_tags id
              (λ _ _, None) {[ str "items" := anvil_catalog ]} anvil_world)
    as [Hreq Hkeep].
  split.
  - apply Hreq. compute_done.
  - apply Hkeep. intros ty Hty. unfold V2.WIKI_PAGES in Hty. simpl in Hty.
    rewrite !elem_of_cons, elem_of_nil in Hty.
    destruct Hty as [->|[->|[->|[->|[]]]]];
      [apply anvil_catalog_ids|constructor..].
Defined.

(** ** The catalogs after a run of scrape-images-v2.py *)





Lemma update_json_type_no_file listing ty out :
  V2.update_json_type None listing ty = Some out → out = None.
Proof. by intros [= <-]. Qed.


Section v2_update.
Variable iterdir : pystr → world → option (list pystr).
Variable w : world.

Local Abbreviation update_step :=
  (λ (acc : option (gmap pystr catalog)) (entity_type : pystr),
     files ← acc;
     out ← V2.update_json_type (files !! entity_type) (iterdir entity_type w)
                               entity_type;
     match out with
     | Some data => Some (<[entity_type := data]> files)
     | None => Some files
     end).




End v2_update.



Example v2_main_items :
  let r := V2.main elements one_page one_payload anvil_tags id items_listing
             {[ str "items" := anvil_catalog ]} anvil_world in
  r.1.2 = 1
  ∧ image_refs (r.1.1 ≫= λ files, files !! str "items") (str "items")
    = Some [ Some (JStr (str "images/items/anvil.png"));
             Some (JStr (str "images/items/bow.png")) ].
Proof. split; compute_done. Qed.

(** * Further properties of scrape-megabonk-wiki.py *)

(** ** The files and requests of a run *)

Section wiki_files.
Variable http_text : nat → pystr → option pystr.
Variable http_bytes : nat → pystr → option payload.
Variable img_tags : pystr → list (pystr * pystr).
Variable entity_type : pystr.
Variable w0 : world.

Lemma wiki_download_image_cases who url save_path w :
  (∃ data, accepted data
           ∧ Wiki.download_image http_bytes who url save_path w
             = (true, write_file save_path data (record_request who url w)))
  ∨ Wiki.download_image http_bytes who url save_path w
    = (false, record_request who url w).
Proof.
  unfold Wiki.download_image, accepted, rejected.
  destruct (http_bytes (length (log w)) url) as [data|]; [|by right].
  simpl. destruct (len data <? 500)%Z eqn:Hsmall; [by right|].
  destruct (len data =? 5320)%Z eqn:Hlogo; [by right|].
  left. exists data. split; [lia|done].
Qed.

Lemma wiki_match_step_ok name_to_id st img :
  wiki_pass_ok entity_type w0 st →
  wiki_pass_ok entity_type w0
    (Wiki.match_step http_bytes name_to_id (existing_stems w0 entity_type)
                     entity_type st img).
Proof.
  intros [Hw Hg Hs Hc]. unfold Wiki.match_step. destruct img as [img_name img_url].
  destruct (Wiki.match_image_to_entity img_name name_to_id) as [e|]; [|done].
  destruct (bool_decide (e ≠ [])) eqn:He; [|done].
  destruct (bool_decide (e ∉ Wiki.matched st)) eqn:Hm; [|done]. simpl.
  apply bool_decide_eq_true in He. apply bool_decide_eq_true in Hm.
  destruct (decide (e ∈ existing_stems w0 entity_type)) as [Hex|Hex].
  { split; cbn [Wiki.now Wiki.matched Wiki.downloaded]; [done|done| |].
    - rewrite Hs. set_solver.
    - rewrite Hc. f_equal. set_solver. }
  assert (missing_entry entity_type w0 entity_type e) as HP by done.
  assert (unresolved entity_type w0 entity_type e) as HU by done.
  pose proof (wiki_image_ext_elem img_url) as Hext.
  destruct (wiki_download_image_cases (ImageOf entity_type e) img_url
              (asset_path entity_type e (Wiki.image_ext img_url)) (Wiki.now st))
    as [(data & Hacc & ->)| ->].
  - split; cbn [Wiki.now Wiki.matched Wiki.downloaded].
    + eapply writes_trans; [exact Hw|]. eapply writes_trans.
      * apply writes_record_request.
      * by apply writes_write_file.
    + eapply grows_trans; [exact Hg|]. eapply grows_trans.
      * by apply (grows_record_request _ (ImageOf entity_type e)).
      * apply grows_write_file.
    + rewrite existing_stems_write by done.
      change (existing_stems (record_request _ _ (Wiki.now st)) entity_type)
        with (existing_stems (Wiki.now st) entity_type).
      rewrite Hs. set_solver.
    + rewrite Hc.
      assert (({[e]} ∪ Wiki.matched st) ∖ existing_stems w0 entity_type
              = ({[e]} : gset pystr)
                ∪ (Wiki.matched st ∖ existing_stems w0 entity_type)) as Heq
        by set_solver.
      rewrite Heq.
      rewrite (size_union (C:=gset pystr) {[e]}
                 (Wiki.matched st ∖ existing_stems w0 entity_type))
        by set_solver.
      by rewrite size_singleton.
  - split; cbn [Wiki.now Wiki.matched Wiki.downloaded]; [done| |done|done].
    eapply grows_trans; [exact Hg|].
    by apply (grows_record_request _ (ImageOf entity_type e)).
Qed.

Lemma wiki_match_steps_ok name_to_id images st :
  wiki_pass_ok entity_type w0 st →
  wiki_pass_ok entity_type w0
    (foldl (Wiki.match_step http_bytes name_to_id
              (existing_stems w0 entity_type) entity_type) st images).
Proof.
  revert st. induction images as [|img images IH]; intros st Hst; [done|].
  cbn [foldl]. apply IH. by apply wiki_match_step_ok.
Qed.

Lemma wiki_scrape_entity_type_ok json_file wiki_path :
  ∃ st,
    Wiki.scrape_entity_type http_text http_bytes img_tags json_file entity_type
                            wiki_path w0
    = (Wiki.downloaded st, Wiki.now st)
    ∧ wiki_pass_ok entity_type w0 st.
Proof.
  unfold Wiki.scrape_entity_type.
  assert (wiki_pass_ok entity_type w0 (Wiki.Pass 0 ∅ w0)) as Hinit.
  { split; simpl; [apply writes_refl|apply grows_refl|set_solver|].
    replace (∅ ∖ existing_stems w0 entity_type) with (∅ : gset pystr)
      by set_solver.
    done. }
  destruct (Wiki.load_entity_ids json_file entity_type) as [|kv name_to_id].
  { by exists (Wiki.Pass 0 ∅ w0). }
  unfold Wiki.fetch_page.
  set (w1 := record_request Listing (Wiki.BASE_URL ++ wiki_path) w0).
  assert (wiki_pass_ok entity_type w0 (Wiki.Pass 0 ∅ w1)) as Hinit1.
  { destruct Hinit as [Hw Hg Hs Hc].
    split; simpl; [apply writes_record_request| |exact Hs|exact Hc].
    by apply (grows_record_request _ Listing). }
  destruct (http_text (length (log w0)) (Wiki.BASE_URL ++ wiki_path))
    as [[|c html]|]; try (by exists (Wiki.Pass 0 ∅ w1)).
  eexists. split; [reflexivity|]. by apply wiki_match_steps_ok.
Qed.

End wiki_files.

(** X18.  [scrape_entity_type] of scrape-megabonk-wiki.py makes no request
    for an entry that has an asset file when it starts, and overwrites
    nothing: every file that was there is still there with the same content,
    and every other file is the asset of an entry of the type that had none,
    with a payload of at least 500 bytes and not of 5320 bytes. *)
Theorem wiki_scrape_spares_resolved
    (http_text : nat → pystr → option pystr)
    (http_bytes : nat → pystr → option payload)
    (img_tags : pystr → list (pystr * pystr))
    (json_file : option catalog) (entity_type wiki_path : pystr) (w : world) :
  let w' := (Wiki.scrape_entity_type http_text http_bytes img_tags json_file
               entity_type wiki_path w).2 in
  (∀ E, E ∈ existing_stems w entity_type →
     ∃ new, log w' = log w ++ new
            ∧ ∀ r, r ∈ new → ¬ for_entry entity_type E r.1)
  ∧ keeps w w'
  ∧ writes (missing_entry entity_type w) accepted w w'.
Proof.
  cbv zeta.
  destruct (wiki_scrape_entity_type_ok http_text http_bytes img_tags entity_type
              w json_file wiki_path) as (st & -> & [Hw Hg _ _]).
  simpl. split; [|split; [by eapply writes_keeps|done]].
  intros E HE. eapply grows_no_request; [exact Hg|]. unfold unresolved. tauto.
Qed.

(** X19.  The number [scrape_entity_type] of scrape-megabonk-wiki.py returns
    is the number of entries that have an asset file after the run and had
    none before it. *)
Theorem wiki_scrape_count
    (http_text : nat → pystr → option pystr)
    (http_bytes : nat → pystr → option payload)
    (img_tags : pystr → list (pystr * pystr))
    (json_file : option catalog) (entity_type wiki_path : pystr) (w : world) :
  let r := Wiki.scrape_entity_type http_text http_bytes img_tags json_file
             entity_type wiki_path w in
  r.1 = size (existing_stems r.2 entity_type ∖ existing_stems w entity_type).
Proof.
  cbv zeta.
  destruct (wiki_scrape_entity_type_ok http_text http_bytes img_tags entity_type
              w json_file wiki_path) as (st & -> & [_ _ Hs Hc]).
  simpl. rewrite Hc, Hs. f_equal. set_solver.
Qed.

Lemma wiki_scrape_spares_resolved_witness :
  let w' := (Wiki.scrape_entity_type one_page one_payload anvil_tags
               (Some anvil_catalog) (str "items") (str "/wiki/Items")
               anvil_world).2 in
  ∃ new, log w' = log anvil_world ++ new
         ∧ ∀ r, r ∈ new → ¬ for_entry (str "items") (str "anvil") r.1.
Proof.
  apply (wiki_scrape_spares_resolved one_page one_payload anvil_tags
           (Some anvil_catalog) (str "items") (str "/wiki/Items") anvil_world).
  compute_done.
Defined.

(** A run of scrape-megabonk-wiki.py on a page with one candidate, for the
    anvil: with the anvil present nothing is downloaded; without it the
    payload of one byte is turned down and nothing is written. *)
Example wiki_scrape_items :
  let r := Wiki.scrape_entity_type one_page one_payload anvil_tags
             (Some anvil_catalog) (str "items") (str "/wiki/Items") anvil_world in
  let r' := Wiki.scrape_entity_type one_page one_payload anvil_tags
              (Some anvil_catalog) (str "items") (str "/wiki/Items")
              (World ∅ []) in
  r.1 = 0
  ∧ log r.2 = [ (Listing, str "https://megabonk.wiki/wiki/Items") ]
  ∧ r'.1 = 0
  ∧ log r'.2 = [ (Listing, str "https://megabonk.wiki/wiki/Items");
                 (ImageOf (str "items") (str "anvil"), anvil_url) ]
  ∧ fs r'.2 = ∅.
Proof. repeat split; compute_done. Qed.

(** ** The index of scrape-megabonk-wiki.py *)

Lemma dict_get_set d k v key :
  dict_get (dict_set d k v) key
  = if decide (k = key) then Some v else dict_get d key.
Proof.
  induction d as [|[k' v'] d IH]; simpl.
  - by destruct (decide (k = key)).
  - destruct (decide (k' = k)) as [->|Hne]; simpl.
    + by destruct (decide (k = key)).
    + rewrite IH. destruct (decide (k' = key)) as [->|]; [|done].
      by rewrite decide_False by (by intros ->).
Qed.

Lemma wiki_load_entity_get d e key :
  dict_get (Wiki.load_entity d e) key
  = if decide (entry_id e ≠ [] ∧ key ∈ wiki_keys e)
    then Some (entry_id e) else dict_get d key.
Proof.
  unfold Wiki.load_entity, wiki_keys. cbv zeta. fold (entry_id e).
  set (name := entity_get_str e (str "name")).
  destruct (decide (entry_id e = [])) as [Hid|Hid].
  { rewrite bool_decide_eq_true_2 by done.
    by rewrite decide_False by (by intros [? _]). }
  rewrite bool_decide_eq_false_2 by done.
  destruct (contains (str "'") name); destruct (contains (str "(") name);
    rewrite ?dict_get_set; simpl;
    repeat (destruct (decide (_ = key)) as [?|?]);
    try (rewrite decide_True; [done|]; split; [done|];
         subst; rewrite ?elem_of_cons; tauto);
    (rewrite decide_False; [done|]; intros [_ Hin];
     rewrite ?elem_of_cons, elem_of_nil in Hin; naive_solver).
Qed.

Lemma wiki_load_entities_get entities d key :
  dict_get (foldl Wiki.load_entity d entities) key
  = match last_writer entities key with
    | Some A => Some A
    | None => dict_get d key
    end.
Proof.
  revert d. induction entities as [|e entities IH]; intros d; [done|].
  cbn [foldl last_writer]. rewrite IH, wiki_load_entity_get.
  destruct (last_writer entities key); [done|].
  by destruct (decide (entry_id e ≠ [] ∧ key ∈ wiki_keys e)).
Qed.

Lemma last_writer_Some entities key A :
  last_writer entities key = Some A →
  ∃ e, e ∈ entities ∧ entry_id e = A ∧ A ≠ [] ∧ key ∈ wiki_keys e.
Proof.
  induction entities as [|e entities IH]; simpl; [done|].
  destruct (last_writer entities key) as [B|].
  - intros [= ->]. destruct IH as (e' & ? & ? & ? & ?); [done|].
    exists e'. split; [by right|done].
  - destruct (decide (entry_id e ≠ [] ∧ key ∈ wiki_keys e)) as [[Hid Hk]|];
      [|done].
    intros [= <-]. exists e. split; [left|done].
Qed.

(** X20.  In the index of scrape-megabonk-wiki.py a key belongs to the last
    record, in catalog order and among the records with an id, that files
    itself under it: the normalised name, the id read as a name, the id, and
    the name without apostrophes or without its parenthesised part when it
    has any.  No key leads to an empty id. *)
Theorem load_entity_ids_last_writer (data : catalog) (entity_type key : pystr) :
  let name_to_id := Wiki.load_entity_ids (Some data) entity_type in
  dict_get name_to_id key = last_writer (default [] (data !! entity_type)) key
  ∧ ∀ A, dict_get name_to_id key = Some A →
      ∃ e, e ∈ default [] (data !! entity_type) ∧ entry_id e = A ∧ A ≠ []
           ∧ key ∈ wiki_keys e.
Proof.
  cbv zeta. unfold Wiki.load_entity_ids.
  rewrite wiki_load_entities_get. simpl.
  assert (∀ x : option pystr, match x with Some A => Some A | None => None end = x)
    as -> by (by intros []).
  split; [done|]. intros A. apply last_writer_Some.
Qed.

(** Two records that share a key: the catalog order decides, and it decides
    the other way round in scrape-images-v2.py. *)
Example load_entity_ids_shared_key :
  let bow2 : entity :=
    {[ str "id" := JStr (str "longbow"); str "name" := JStr (str "Bow") ]} in
  let data : catalog := {[ str "items" := [bow_entity; bow2] ]} in
  dict_get (Wiki.load_entity_ids (Some data) (str "items")) (str "bow")
  = Some (str "longbow")
  ∧ dict_get (V2.load_entities elements (Some data) (World ∅ []) (str "items")).1
             (str "bow")
    = Some (str "bow").
Proof. split; compute_done. Qed.

(** * Further properties of the resolvers *)

(** ** The partial match *)

Lemma starts_with_prefix p s : starts_with p s = true ↔ ∃ l, s = p ++ l.
Proof.
  revert s. induction p as [|a p IH]; intros s; simpl.
  - split; [|done]. intros _. by exists s.
  - destruct s as [|c s].
    + split; [done|]. by intros (l & [=]).
    + rewrite andb_true_iff, bool_decide_eq_true, IH. split.
      * intros [-> (l & ->)]. by exists l.
      * intros (l & [= -> ->]). split; [done|]. by exists l.
Qed.

Lemma contains_substring a b : contains a b = true ↔ substring a b.
Proof.
  unfold substring. induction b as [|c b IH]; simpl.
  - rewrite orb_false_r, starts_with_prefix. split.
    + intros (l & Hl). by exists [], l.
    + intros (l1 & l2 & Hl). symmetry in Hl.
      apply app_eq_nil in Hl as [-> Hl]. apply app_eq_nil in Hl as [-> ->].
      by exists [].
  - rewrite orb_true_iff, starts_with_prefix, IH. split.
    + intros [(l & Hl)|(l1 & l2 & ->)].
      * by exists [], l.
      * by exists (c :: l1), l2.
    + intros (l1 & l2 & Hl). destruct l1 as [|c' l1]; simpl in Hl.
      * left. by exists l2.
      * right. injection Hl as -> ->. by exists l1, l2.
Qed.

Lemma weak_test_hit normalized name :
  (3 <? len name)%Z && (3 <? len normalized)%Z
  && (contains name normalized || contains normalized name) = true
  ↔ weak_hit normalized name.
Proof.
  unfold weak_hit.
  rewrite !andb_true_iff, orb_true_iff, !Z.ltb_lt, !contains_substring. tauto.
Qed.

Lemma weak_tier_Some normalized d A :
  V2.weak_tier normalized d = Some A
  ↔ ∃ before name after,
      d = before ++ (name, A) :: after ∧ weak_hit normalized name
      ∧ Forall (λ kv, ¬ weak_hit normalized kv.1) before.
Proof.
  induction d as [|[k v] d IH]; simpl.
  - split; [done|]. intros (before & name & after & Hd & _).
    by destruct before.
  - destruct ((3 <? len k)%Z && (3 <? len normalized)%Z
              && (contains k normalized || contains normalized k)) eqn:Htest.
    + apply weak_test_hit in Htest. split.
      * intros [= ->]. exists [], k, d. split; [done|]. split; [done|constructor].
      * intros (before & name & after & Hd & Hhit & Hbefore).
        destruct before as [|kv before]; simpl in Hd.
        -- by injection Hd as -> ->.
        -- injection Hd as <- ->. apply Forall_cons in Hbefore as [Hno _].
           by destruct Hno.
    + assert (¬ weak_hit normalized k) as Hno.
      { intros Hhit%weak_test_hit. congruence. }
      rewrite IH. split.
      * intros (before & name & after & -> & Hhit & Hbefore).
        exists ((k, v) :: before), name, after. split; [done|]. split; [done|].
        by constructor.
      * intros (before & name & after & Hd & Hhit & Hbefore).
        destruct before as [|kv before]; simpl in Hd.
        -- injection Hd as -> ->. by destruct Hno.
        -- injection Hd as <- ->. apply Forall_cons in Hbefore as [_ Hbefore].
           by exists before, name, after.
Qed.

Section weak_tier.
Variable iter_set : gset pystr → list pystr.
Hypothesis iter_set_perm : ∀ X, iter_set X ≡ₚ elements X.

(** X21.  When no variant of a candidate's name is a key of the index, the
    resolver of scrape-images-v2.py returns the entry of the first item of
    the index, in the order in which the keys were added, whose key and the
    normalised name of the candidate both have more than 3 characters and
    one of which occurs in the other; it returns nothing when there is no
    such item, and so for every candidate whose normalised name has at most 3
    characters. *)
Theorem match_image_to_entity_partial (img_name : pystr) (name_to_id : dict) :
  (∀ v, v ∈ create_name_variants img_name → dict_get name_to_id v = None) →
  let normalized := normalize_name img_name in
  (∀ A, V2.match_image_to_entity iter_set img_name name_to_id = Some A
        ↔ ∃ before name after,
            name_to_id = before ++ (name, A) :: after
            ∧ weak_hit normalized name
            ∧ Forall (λ kv, ¬ weak_hit normalized kv.1) before)
  ∧ ((len normalized ≤ 3)%Z →
     V2.match_image_to_entity iter_set img_name name_to_id = None).
Proof.
  intros Hno. cbv zeta. unfold V2.match_image_to_entity.
  assert (V2.exact_tier (iter_set (create_name_variants img_name)) name_to_id
          = None) as ->.
  { apply exact_tier_None. intros v Hv. apply Hno.
    by apply (elem_of_iter_set iter_set iter_set_perm). }
  split; [intros A; apply weak_tier_Some|].
  intros Hshort.
  destruct (V2.weak_tier (normalize_name img_name) name_to_id) as [A|] eqn:Hw;
    [|done].
  apply weak_tier_Some in Hw as (_ & name & _ & _ & (_ & Hlong & _) & _). lia.
Qed.

End weak_tier.

Lemma match_image_to_entity_partial_witness :
  let normalized := normalize_name (str "Sword Icon Large") in
  (∀ A, V2.match_image_to_entity elements (str "Sword Icon Large") swords_index
        = Some A
        ↔ ∃ before name after,
            swords_index = before ++ (name, A) :: after
            ∧ weak_hit normalized name
            ∧ Forall (λ kv, ¬ weak_hit normalized kv.1) before)
  ∧ ((len normalized ≤ 3)%Z →
     V2.match_image_to_entity elements (str "Sword Icon Large") swords_index
     = None).
Proof.
  apply (match_image_to_entity_partial elements elements_perm
           (str "Sword Icon Large") swords_index).
  intros v Hv.
  apply (proj1 (exact_tier_None
                  (elements (create_name_variants (str "Sword Icon Large")))
                  swords_index)).
  - compute_done.
  - by apply elem_of_elements.
Defined.

(** * Further properties of fetch-missing-images.py *)

Section missing_files.
Variable http_text : nat → pystr → option pystr.
Variable http_bytes : nat → pystr → option payload.
Variable extract_images : pystr → list pystr.

Lemma found_one_after output_dir entity_id w w1 r :
  (∃ new, log w1 = log w ++ new) → fs w1 = fs w →
  found_one output_dir entity_id w1 r → found_one output_dir entity_id w r.
Proof.
  intros (new & Hnew) Hfs [(new' & Hnew') Hr]. split.
  - exists (new ++ new'). by rewrite Hnew', Hnew, <- app_assoc.
  - destruct r.1; by rewrite <- Hfs.
Qed.

Lemma found_one_longer output_dir entity_id w r :
  found_one output_dir entity_id w r → length (log w) ≤ length (log r.2).
Proof. intros [(new & ->) _]. rewrite length_app. lia. Qed.

Lemma missing_download_image_found who url output_dir entity_id w :
  found_one output_dir entity_id w
    (Missing.download_image http_bytes who url
       (asset_path output_dir entity_id (image_ext url)) w).
Proof.
  unfold Missing.download_image.
  destruct (http_bytes (length (log w)) url) as [data|]; split; simpl;
    try (by eexists).
  exists (image_ext url), data. split; [apply image_ext_elem|done].
Qed.

Lemma first_image_found entity_id output_dir accept images w :
  found_one output_dir entity_id w
    (Missing.first_image http_bytes entity_id output_dir accept images w).
Proof.
  revert w. induction images as [|img_url images IH]; intros w; simpl.
  - split; [exists []; by rewrite app_nil_r|done].
  - destruct (accept img_url); [|apply IH].
    pose proof (missing_download_image_found (ImageOf output_dir entity_id)
                  img_url output_dir entity_id w) as Hd.
    destruct (Missing.download_image http_bytes _ _ _ _) as [[] w']; [done|].
    destruct Hd as [Hlog Hfs]. simpl in Hlog, Hfs.
    by eapply found_one_after.
Qed.

Lemma try_page_found entity_id output_dir accept url w :
  let r := Missing.try_page http_text http_bytes extract_images
             entity_id output_dir accept url w in
  found_one output_dir entity_id w r ∧ length (log w) < length (log r.2).
Proof.
  cbv zeta. unfold Missing.try_page, Missing.fetch_page.
  set (w1 := record_request (PageOf output_dir entity_id) url w).
  assert (length (log w) < length (log w1)) as Hlt.
  { simpl. rewrite length_app. simpl. lia. }
  assert (found_one output_dir entity_id w (false, w1)) as Hsame.
  { split; simpl; [by eexists|done]. }
  destruct (http_text _ _) as [[|c html]|]; try (by split).
  pose proof (first_image_found entity_id output_dir accept
                (extract_images (c :: html)) w1) as Hf.
  split.
  - eapply found_one_after; [| |exact Hf]; [by eexists|done].
  - apply found_one_longer in Hf. lia.
Qed.

Lemma try_fetch_from_wiki_found entity_id page_names output_dir w :
  let r := Missing.try_fetch_from_wiki http_text http_bytes extract_images
             entity_id page_names output_dir w in
  found_one output_dir entity_id w r
  ∧ (page_names ≠ [] → length (log w) < length (log r.2)).
Proof.
  cbv zeta. revert w.
  induction page_names as [|page_name rest IH]; intros w; simpl.
  - split; [|done]. split; [exists []; by rewrite app_nil_r|done].
  - match goal with
    | |- context [Missing.try_page _ _ _ ?e ?d ?a ?u w] =>
        pose proof (try_page_found e d a u w) as [Hp Hlt];
        destruct (Missing.try_page http_text http_bytes extract_images e d a u w)
          as [[] w1]
    end; [by split|].
    destruct (IH w1) as [Hrest _]. destruct Hp as [Hlog Hfs].
    simpl in Hlog, Hfs, Hlt. split.
    + by eapply found_one_after.
    + intros _. apply found_one_longer in Hrest. lia.
Qed.

Lemma search_term_found entity_id output_dir term w :
  let r := Missing.search_term http_text http_bytes extract_images
             entity_id output_dir term w in
  found_one output_dir entity_id w r ∧ length (log w) < length (log r.2).
Proof.
  cbv zeta. unfold Missing.search_term. cbv zeta.
  match goal with
  | |- context [Missing.try_page _ _ _ ?e ?d ?a ?u w] =>
      pose proof (try_page_found e d a u w) as [Hp Hlt];
      destruct (Missing.try_page http_text http_bytes extract_images e d a u w)
        as [[] w1]
  end; [by split|].
  match goal with
  | |- context [Missing.try_page _ _ _ ?e ?d ?a ?u w1] =>
      pose proof (try_page_found e d a u w1) as [Hp' Hlt']
  end.
  destruct Hp as [Hlog Hfs]. simpl in Hlog, Hfs, Hlt. split.
  - by eapply found_one_after.
  - lia.
Qed.

Lemma search_terms_loop_found entity_id output_dir terms w :
  let r := Missing.search_terms_loop http_text http_bytes extract_images
             entity_id output_dir terms w in
  found_one output_dir entity_id w r
  ∧ (terms ≠ [] → length (log w) < length (log r.2)).
Proof.
  cbv zeta. revert w. induction terms as [|term rest IH]; intros w; simpl.
  - split; [|done]. split; [exists []; by rewrite app_nil_r|done].
  - pose proof (search_term_found entity_id output_dir term w) as [Hp Hlt].
    destruct (Missing.search_term _ _ _ _ _ _ _) as [[] w1]; [by split|].
    destruct (IH w1) as [Hrest _]. destruct Hp as [Hlog Hfs].
    simpl in Hlog, Hfs, Hlt. split.
    + by eapply found_one_after.
    + intros _. apply found_one_longer in Hrest. lia.
Qed.

Lemma glob_exists_asset w output_dir entity_id ext :
  asset_path output_dir entity_id ext ∈ dom (fs w) →
  Missing.glob_exists w output_dir entity_id = true.
Proof.
  intros Hin. unfold Missing.glob_exists. apply bool_decide_eq_true.
  exists (asset_path output_dir entity_id ext). split; [done|]. simpl.
  split; [done|]. apply starts_with_prefix. exists ext.
  by rewrite <- app_assoc.
Qed.

Lemma found_so_far_write w0 total w output_dir entity_id ext data w' :
  found_so_far w0 (total, w) →
  Missing.glob_exists w output_dir entity_id = false →
  fs w' = <[asset_path output_dir entity_id ext := data]> (fs w) →
  length (log w) ≤ length (log w') →
  found_so_far w0 (S total, w').
Proof.
  intros (Hcount & Hkeep & Hdom & Hlog) Hglob Hfs Hlog'.
  assert (asset_path output_dir entity_id ext ∉ dom (fs w)) as Hnew.
  { intros Hin%glob_exists_asset. congruence. }
  unfold found_so_far. simpl in *. rewrite Hfs, dom_insert_L.
  split; [|split; [|split]].
  - rewrite Hcount.
    assert (({[asset_path output_dir entity_id ext]} ∪ dom (fs w)) ∖ dom (fs w0)
            = ({[asset_path output_dir entity_id ext]} : gset path)
              ∪ (dom (fs w) ∖ dom (fs w0))) as -> by set_solver.
    rewrite (size_union (C:=gset path) {[asset_path output_dir entity_id ext]}
               (dom (fs w) ∖ dom (fs w0))) by set_solver.
    by rewrite size_singleton.
  - intros p d Hp. rewrite Hfs, lookup_insert_ne; [by apply Hkeep|].
    intros <-. apply Hnew, Hdom. apply elem_of_dom. by eexists.
  - set_solver.
  - lia.
Qed.

Lemma found_so_far_same w0 total w w' :
  found_so_far w0 (total, w) → fs w' = fs w →
  length (log w) ≤ length (log w') →
  found_so_far w0 (total, w').
Proof.
  intros (Hcount & Hkeep & Hdom & Hlog) Hfs Hlog'. unfold found_so_far, keeps.
  simpl in *. rewrite Hfs. repeat split; try done. lia.
Qed.

Lemma find_entity_found w0 output_dir total w row :
  let r := Missing.find_entity http_text http_bytes extract_images
             output_dir (total, w) row in
  found_so_far w0 (total, w) →
  found_so_far w0 r
  ∧ (Missing.glob_exists w output_dir row.1 = false →
     length (log w) < length (log r.2)).
Proof.
  cbv zeta. intros Hst. unfold Missing.find_entity.
  destruct row as [entity_id page_names]. simpl.
  destruct (Missing.glob_exists w output_dir entity_id) eqn:Hglob; [by split|].
  pose proof (try_fetch_from_wiki_found entity_id page_names output_dir w)
    as [H1 Hlt1].
  destruct (Missing.try_fetch_from_wiki _ _ _ _ _ _ _) as [[] w1] eqn:Htry.
  - destruct H1 as [(new & Hnew) (ext & data & Hext & Hfs)].
    simpl in Hnew, Hfs, Hlt1. split.
    + eapply found_so_far_write; [exact Hst|exact Hglob|exact Hfs|].
      rewrite Hnew, length_app. lia.
    + intros _. apply Hlt1. intros ->. by simpl in Htry.
  - unfold Missing.search_in_gallery.
    match goal with
    | |- context [Missing.search_terms_loop _ _ _ ?e ?d ?ts w1] =>
        pose proof (search_terms_loop_found e d ts w1) as [H2 Hlt2];
        destruct (Missing.search_terms_loop http_text http_bytes extract_images
                    e d ts w1) as [[] w2]
    end.
    all: destruct H1 as [(new1 & Hnew1) Hfs1]; simpl in Hnew1, Hfs1.
    all: assert (length (log w1) < length (log w2)) as Hlt by (by apply Hlt2).
    all: assert (length (log w) ≤ length (log w1)) as Hle
           by (rewrite Hnew1, length_app; lia).
    + destruct H2 as [_ (ext & data & Hext & Hfs)]. simpl in Hfs.
      split; [|simpl; lia].
      eapply found_so_far_write; [exact Hst|exact Hglob| |lia].
      by rewrite Hfs, Hfs1.
    + destruct H2 as [_ Hfs]. simpl in Hfs. split; [|simpl; lia].
      eapply found_so_far_same; [exact Hst| |lia]. by rewrite Hfs, Hfs1.
Qed.

End missing_files.

Section missing_run.
Variable http_text : nat → pystr → option pystr.
Variable http_bytes : nat → pystr → option payload.
Variable extract_images : pystr → list pystr.

Local Abbreviation find_entity :=
  (Missing.find_entity http_text http_bytes extract_images).
Local Abbreviation find_table :=
  (Missing.find_table http_text http_bytes extract_images).

Lemma find_table_found w0 rows output_dir st :
  found_so_far w0 st → found_so_far w0 (find_table rows output_dir st).
Proof.
  unfold Missing.find_table. revert st.
  induction rows as [|row rows IH]; intros [total w] Hst; [done|].
  cbn [foldl]. pose proof (find_entity_found http_text http_bytes extract_images
                             w0 output_dir total w row Hst) as [Hnext _].
  destruct (find_entity output_dir (total, w) row) as [total' w'].
  by apply IH.
Qed.

Lemma find_entity_log_mono output_dir st row :
  length (log st.2) ≤ length (log (find_entity output_dir st row).2).
Proof.
  destruct st as [total w].
  destruct (find_entity_grows http_text http_bytes extract_images w output_dir
              total w row (grows_refl _ _)) as [(new & -> & _) _].
  simpl. rewrite length_app. lia.
Qed.

Lemma find_table_log_mono rows output_dir st :
  length (log st.2) ≤ length (log (find_table rows output_dir st).2).
Proof.
  unfold Missing.find_table. revert st.
  induction rows as [|row rows IH]; intros st; [done|].
  cbn [foldl]. etrans; [apply (find_entity_log_mono output_dir st row)|apply IH].
Qed.

Lemma find_entity_present output_dir st row :
  Missing.glob_exists st.2 output_dir row.1 = true →
  find_entity output_dir st row = st.
Proof.
  destruct st as [total w], row as [entity_id page_names]. simpl.
  by intros ->.
Qed.

Lemma find_table_present rows output_dir st :
  (∀ row, row ∈ rows → Missing.glob_exists st.2 output_dir row.1 = true) →
  find_table rows output_dir st = st.
Proof.
  unfold Missing.find_table.
  induction rows as [|row rows IH]; intros Hall; [done|].
  cbn [foldl]. rewrite find_entity_present by (apply Hall; left).
  apply IH. intros r Hr. apply Hall. by right.
Qed.

Lemma find_table_idle rows output_dir st :
  length (log (find_table rows output_dir st).2) = length (log st.2) →
  ∀ row, row ∈ rows → Missing.glob_exists st.2 output_dir row.1 = true.
Proof.
  unfold Missing.find_table.
  induction rows as [|row rows IH]; intros Hlen r Hr;
    [by apply elem_of_nil in Hr|].
  cbn [foldl] in Hlen.
  pose proof (find_table_log_mono rows output_dir (find_entity output_dir st row))
    as Hmono.
  unfold Missing.find_table in Hmono.
  destruct (Missing.glob_exists st.2 output_dir row.1) eqn:Hglob.
  - rewrite find_entity_present in Hlen by done.
    apply elem_of_cons in Hr as [->|Hr]; [done|]. by apply IH.
  - destruct st as [total w]. simpl in Hglob.
    assert (found_so_far w (0, w)) as Hinit.
    { unfold found_so_far, keeps. simpl. repeat split; try done.
      replace (dom (fs w) ∖ dom (fs w)) with (∅ : gset path) by set_solver.
      done. }
    pose proof (find_entity_found http_text http_bytes extract_images
                  w output_dir 0 w row Hinit) as [_ Hlt].
    specialize (Hlt Hglob).
    assert ((find_entity output_dir (total, w) row).2
            = (find_entity output_dir (0, w) row).2) as Heq.
    { unfold Missing.find_entity. destruct row as [entity_id page_names].
      simpl in Hglob. rewrite Hglob.
      destruct (Missing.try_fetch_from_wiki _ _ _ _ _ _ _) as [[] w1]; [done|].
      by destruct (Missing.search_in_gallery _ _ _ _ _ _ _) as [[] w2]. }
    rewrite <- Heq in Hlt. change ((total, w).2) with w in Hlen. exfalso. lia.
Qed.

Lemma main_fetch_found w :
  found_so_far w (Missing.main_fetch http_text http_bytes extract_images w).
Proof.
  unfold Missing.main_fetch. do 3 apply find_table_found.
  unfold found_so_far, keeps. simpl. repeat split; try done.
  replace (dom (fs w) ∖ dom (fs w)) with (∅ : gset path) by set_solver.
  done.
Qed.

Lemma main_fetch_idle w :
  (Missing.main_fetch http_text http_bytes extract_images w).2 = w
  ↔ ∀ row, row ∈ missing_rows → Missing.glob_exists w row.1 row.2 = true.
Proof.
  unfold Missing.main_fetch, missing_rows. split.
  - intros Hsame.
    set (s1 := find_table Missing.MISSING_ITEMS (str "items") (0, w)) in *.
    set (s2 := find_table Missing.MISSING_WEAPONS (str "weapons") s1) in *.
    set (s3 := find_table Missing.MISSING_TOMES (str "tomes") s2) in *.
    pose proof (find_table_log_mono Missing.MISSING_ITEMS (str "items") (0, w))
      as H1.
    pose proof (find_table_log_mono Missing.MISSING_WEAPONS (str "weapons") s1)
      as H2.
    pose proof (find_table_log_mono Missing.MISSING_TOMES (str "tomes") s2)
      as H3.
    fold s1 in H1, H2. fold s2 in H2, H3. fold s3 in H3.
    change ((0, w).2) with w in H1.
    rewrite Hsame in H3.
    assert (length (log s1.2) = length (log w)) as E1 by lia.
    assert (length (log s2.2) = length (log s1.2)) as E2 by lia.
    assert (length (log s3.2) = length (log s2.2)) as E3
      by (rewrite Hsame; lia).
    pose proof (find_table_idle _ _ (0, w) E1) as G1.
    assert (s1 = (0, w)) as Hs1 by (by apply find_table_present).
    pose proof (find_table_idle _ _ s1 E2) as G2.
    assert (s2 = s1) as Hs2 by (by apply find_table_present).
    pose proof (find_table_idle _ _ s2 E3) as G3.
    rewrite Hs2, Hs1 in G3. rewrite Hs1 in G2.
    change ((0, w).2) with w in G1, G2, G3.
    intros [dir eid] Hrow. simpl.
    rewrite !elem_of_app, !list_elem_of_fmap in Hrow.
    destruct Hrow as [(row & [= -> ->] & Hrow)|[(row & [= -> ->] & Hrow)
                                               |(row & [= -> ->] & Hrow)]];
      auto.
  - intros Hall.
    assert (∀ (rows : Missing.table) dir,
              (∀ row, row ∈ rows → (dir, row.1) ∈ missing_rows) →
              find_table rows dir (0, w) = (0, w)) as Hstep.
    { intros rows dir Hrows. apply find_table_present. intros row Hrow.
      apply (Hall (dir, row.1)). by apply Hrows. }
    rewrite !Hstep; [done|..]; intros row Hrow; unfold missing_rows;
      rewrite !elem_of_app, !list_elem_of_fmap; eauto.
Qed.

End missing_run.

(** X22.  The loops of [main] of fetch-missing-images.py count the files they
    add: the number of images found is the number of files that are there
    after the run and were not before it.  Nothing is overwritten: a file
    that was there before the run is there afterwards with the same
    content.  When no file is added the catalogs are left as they are. *)
Theorem missing_main_count
    (http_text : nat → pystr → option pystr)
    (http_bytes : nat → pystr → option payload)
    (extract_images : pystr → list pystr)
    (iterdir : pystr → world → option (list pystr))
    (json_files : gmap pystr catalog) (w : world) :
  let found := Missing.main_fetch http_text http_bytes extract_images w in
  let r := Missing.main http_text http_bytes extract_images iterdir
             json_files w in
  r.2 = found.2
  ∧ found.1 = size (dom (fs r.2) ∖ dom (fs w))
  ∧ keeps w r.2
  ∧ (dom (fs r.2) = dom (fs w) → r.1 = Some json_files).
Proof.
  cbv zeta. rewrite missing_main_world.
  destruct (main_fetch_found http_text http_bytes extract_images w)
    as (Hcount & Hkeep & _ & _).
  repeat split; try done.
  intros Hdom. unfold Missing.main.
  destruct (Missing.main_fetch http_text http_bytes extract_images w)
    as [total w'] eqn:Hfetch.
  simpl in *. rewrite Hdom in Hcount.
  replace (dom (fs w) ∖ dom (fs w)) with (∅ : gset path) in Hcount
    by set_solver.
  rewrite size_empty in Hcount. by rewrite Hcount.
Qed.

(** X23.  A run of fetch-missing-images.py leaves the world as it is, without
    a single request, exactly when every entry of its three tables has a file
    [<id>.*] in the directory of its type. *)
Theorem missing_main_idle
    (http_text : nat → pystr → option pystr)
    (http_bytes : nat → pystr → option payload)
    (extract_images : pystr → list pystr)
    (iterdir : pystr → world → option (list pystr))
    (json_files : gmap pystr catalog) (w : world) :
  (Missing.main http_text http_bytes extract_images iterdir json_files w).2 = w
  ↔ ∀ row, row ∈ missing_rows → Missing.glob_exists w row.1 row.2 = true.
Proof. rewrite missing_main_world. apply main_fetch_idle. Qed.

(** One image found for the bow: the count, the file, and the references of
    the catalog of the weapons afterwards. *)
Example missing_main_finds_bow :
  let net := λ (_ : nat) (url : pystr),
    if decide (url = str "https://megabonk.fandom.com/wiki/Bow")
    then Some (str "<html>") else None in
  let listing := λ (ty : pystr) (_ : world),
    if decide (ty = str "weapons") then Some [str "bow.png"] else Some [] in
  let files : gmap pystr catalog :=
    {[ str "items" := ∅; str "tomes" := ∅;
       str "weapons" := {[ str "weapons" := [bow_entity] ]} ]} in
  let r := Missing.main net one_payload (λ _, [anvil_url]) listing files
             (World ∅ []) in
  dom (fs r.2) = {[ asset_path (str "weapons") (str "bow") (str "png") ]}
  ∧ image_refs (r.1 ≫= λ out, out !! str "weapons") (str "weapons")
    = Some [Some (JStr (str "images/weapons/bow.png"))].
Proof. split; compute_done. Qed.

(** * Further properties of scrape-images.py *)





Section v1_run.
Variable http_text : nat → pystr → option pystr.
Variable http_bytes : nat → pystr → option payload.
Variable img_tags : pystr → list (pystr * pystr).



End v1_run.


(** * Whole runs of the scrapers *)

Lemma existing_stems_other Q ty w w' ty' :
  writes (missing_entry ty w) Q w w' → ty' ≠ ty →
  existing_stems w' ty' = existing_stems w ty'.
Proof.
  intros Hw Hne. apply set_eq. intros s. rewrite !existing_stems_elem.
  assert (∀ f, (ty', f) ∈ dom (fs w') ↔ (ty', f) ∈ dom (fs w)) as Hdom.
  { intros f. rewrite !elem_of_dom.
    destruct (Hw (ty', f))
      as [->|(ty0 & e & ext & data & Hp & (-> & _) & _)]; [done|].
    by injection Hp as -> _. }
  by setoid_rewrite Hdom.
Qed.

(** A loop that runs a scraper over a list of types, as the [main] of
    scrape-images-v2.py and of scrape-megabonk-wiki.py do. *)
Section scrape_all.
Variable scrape : pystr → pystr → world → nat * world.
Variable Q : payload → Prop.
Variable pages : list (pystr * pystr).
Hypothesis scrape_grows :
  ∀ ty path w, grows (unresolved ty w) w (scrape ty path w).2.
Hypothesis scrape_writes :
  ∀ ty path w, (ty, path) ∈ pages →
    writes (missing_entry ty w) Q w (scrape ty path w).2.
Hypothesis scrape_count :
  ∀ ty path w, (ty, path) ∈ pages →
    (scrape ty path w).1 = new_stems w (scrape ty path w).2 ty.

Local Abbreviation scrape_step :=
  (λ (acc : nat * world) (page : pystr * pystr),
     let '(total_downloaded, w) := acc in
     let '(entity_type, wiki_path) := page in
     let '(count, w) := scrape entity_type wiki_path w in
     (total_downloaded + count, w)).

Lemma scrape_all_run ps t w1 :
  ps ⊆ pages → NoDup ps.*1 →
  let r := foldl scrape_step (t, w1) ps in
  grows (without_asset w1) w1 r.2
  ∧ writes (missing_any w1) Q w1 r.2
  ∧ r.1 = t + sum_list (new_stems w1 r.2 <$> ps.*1)
  ∧ ∀ ty, ty ∉ ps.*1 → existing_stems r.2 ty = existing_stems w1 ty.
Proof.
  cbv zeta. revert t w1.
  induction ps as [|[ty path] ps IH]; intros t w1 Hsub Hnd.
  - simpl. split; [apply grows_refl|]. split; [apply writes_refl|].
    split; [lia|done].
  - cbn [foldl]. rewrite fmap_cons in Hnd. apply NoDup_cons in Hnd as [Hty Hnd].
    assert ((ty, path) ∈ pages) as Hpage by (apply Hsub; left).
    pose proof (scrape_grows ty path w1) as Hg.
    pose proof (scrape_writes ty path w1 Hpage) as Hw.
    pose proof (scrape_count ty path w1 Hpage) as Hc.
    destruct (scrape ty path w1) as [count w2]. simpl in Hg, Hw, Hc.
    destruct (IH (t + count) w2) as (Hg' & Hw' & Hc' & Hf'); [set_solver|done|].
    set (r := foldl scrape_step (t + count, w2) ps) in *.
    assert (dom (fs w1) ⊆ dom (fs w2)) as Hdom by (by destruct Hg).
    assert (∀ ty', existing_stems w1 ty' ⊆ existing_stems w2 ty') as Hmono
      by (intros ty'; by apply existing_stems_mono).
    split; [|split; [|split]].
    + eapply grows_trans.
      * eapply grows_weaken; [|exact Hg]. by intros ty' e [-> Hmiss].
      * eapply grows_weaken; [|exact Hg'].
        intros ty' e Hmiss Hin. apply Hmiss. by apply Hmono.
    + eapply writes_trans.
      * eapply writes_weaken; [| |exact Hw]; [|done].
        by intros ty' e (-> & He & Hmiss).
      * eapply writes_weaken; [| |exact Hw']; [|done].
        intros ty' e [He Hmiss]. split; [done|]. intros Hin.
        apply Hmiss. by apply Hmono.
    + rewrite Hc'. rewrite fmap_cons. cbn [fmap list_fmap sum_list_with sum_list].
      rewrite Hc.
      assert (new_stems w1 r.2 ty = new_stems w1 w2 ty) as E1.
      { unfold new_stems. by rewrite (Hf' ty Hty). }
      assert (new_stems w2 r.2 <$> ps.*1 = new_stems w1 r.2 <$> ps.*1) as E2.
      { apply list_fmap_ext. intros i ty' Hi.
        assert (ty' ≠ ty) as Hne.
        { intros ->. apply Hty. by eapply list_elem_of_lookup_2. }
        unfold new_stems. by rewrite (existing_stems_other _ _ _ _ _ Hw Hne). }
      change (id (new_stems w1 r.2 (ty, path).1)) with (new_stems w1 r.2 ty).
      rewrite E1, E2. lia.
    + intros ty' [Hne Hnot]%not_elem_of_cons. rewrite (Hf' ty' Hnot).
      by eapply existing_stems_other.
Qed.

End scrape_all.

Lemma wiki_main_world http_text http_bytes img_tags iterdir json_files w :
  Wiki.main http_text http_bytes img_tags iterdir json_files w
  = (Wiki.update_json_with_images iterdir json_files
       (Wiki.scrape_all http_text http_bytes img_tags json_files w).2,
     (Wiki.scrape_all http_text http_bytes img_tags json_files w).1,
     (Wiki.scrape_all http_text http_bytes img_tags json_files w).2).
Proof.
  unfold Wiki.main. by destruct (Wiki.scrape_all _ _ _ _ _) as [total w'].
Qed.

(** X25.  A whole run of scrape-megabonk-wiki.py, over its four types, makes
    no request for an entry that has an asset file when the run starts and
    overwrites nothing; every file it adds is the asset of an entry that had
    none, with a payload of at least 500 bytes and not of 5320 bytes; and the
    total it reports is the number of entries, over the four types, that
    have an asset file after the run and had none before it. *)
Theorem wiki_main_run
    (http_text : nat → pystr → option pystr)
    (http_bytes : nat → pystr → option payload)
    (img_tags : pystr → list (pystr * pystr))
    (iterdir : pystr → world → option (list pystr))
    (json_files : gmap pystr catalog) (w : world) :
  let r := Wiki.main http_text http_bytes img_tags iterdir json_files w in
  (∀ ty E, E ∈ existing_stems w ty →
     ∃ new, log r.2 = log w ++ new ∧ ∀ q, q ∈ new → ¬ for_entry ty E q.1)
  ∧ keeps w r.2
  ∧ writes (missing_any w) accepted w r.2
  ∧ r.1.2 = new_stems w r.2 (str "items") + new_stems w r.2 (str "weapons")
            + new_stems w r.2 (str "tomes") + new_stems w r.2 (str "characters").
Proof.
  cbv zeta. rewrite wiki_main_world. simpl. unfold Wiki.scrape_all.
  destruct (scrape_all_run
              (λ ty path w,
                 Wiki.scrape_entity_type http_text http_bytes img_tags
                   (json_files !! ty) ty path w)
              accepted Wiki.WIKI_PAGES) with (ps := Wiki.WIKI_PAGES) (t := 0)
              (w1 := w) as (Hg & Hw & Hc & _).
  - intros ty path w1.
    destruct (wiki_scrape_entity_type_ok http_text http_bytes img_tags ty w1
                (json_files !! ty) path) as (st & -> & [_ Hg _ _]).
    exact Hg.
  - intros ty path w1 _.
    destruct (wiki_scrape_entity_type_ok http_text http_bytes img_tags ty w1
                (json_files !! ty) path) as (st & -> & [Hw _ _ _]).
    exact Hw.
  - intros ty path w1 _.
    destruct (wiki_scrape_entity_type_ok http_text http_bytes img_tags ty w1
                (json_files !! ty) path) as (st & -> & [_ _ Hs Hc]).
    simpl. unfold new_stems. rewrite Hc, Hs. f_equal. set_solver.
  - done.
  - apply (bool_decide_unpack _). by vm_compute.
  - split; [|split; [|split]].
    + intros ty E HE. eapply grows_no_request; [exact Hg|].
      unfold without_asset. tauto.
    + by eapply writes_keeps_any.
    + exact Hw.
    + rewrite Hc. simpl. lia.
Qed.

Lemma v2_main_world iter_set http_text http_bytes img_tags title iterdir
    json_files w :
  (V2.main iter_set http_text http_bytes img_tags title iterdir json_files w).1.2
  = (V2.scrape_all iter_set http_text http_bytes img_tags title json_files w).1
  ∧ (V2.main iter_set http_text http_bytes img_tags title iterdir json_files w).2
    = (V2.scrape_all iter_set http_text http_bytes img_tags title json_files w).2.
Proof.
  unfold V2.main. by destruct (V2.scrape_all _ _ _ _ _ _ _) as [total w'].
Qed.

(** X26.  When, in each of the four catalogs, every record has an id and no
    two records share one, the total a run of scrape-images-v2.py reports is
    the number of entries, over the four types, that have an asset file
    after the run and had none before it. *)
Theorem v2_main_total
    (iter_set : gset pystr → list pystr)
    (http_text : nat → pystr → option pystr)
    (http_bytes : nat → pystr → option payload)
    (img_tags : pystr → list (pystr * pystr)) (title : pystr → pystr)
    (iterdir : pystr → world → option (list pystr))
    (json_files : gmap pystr catalog) (w : world) :
  (∀ ty, ty ∈ V2.WIKI_PAGES.*1 →
     ids_given (records json_files ty) ∧ ids_distinct (records json_files ty)) →
  let r := V2.main iter_set http_text http_bytes img_tags title iterdir
             json_files w in
  r.1.2 = new_stems w r.2 (str "items") + new_stems w r.2 (str "weapons")
          + new_stems w r.2 (str "characters") + new_stems w r.2 (str "tomes").
Proof.
  intros Hids. cbv zeta.
  destruct (v2_main_world iter_set http_text http_bytes img_tags title iterdir
              json_files w) as [-> ->].
  unfold V2.scrape_all.
  destruct (scrape_all_run
              (λ ty path w,
                 V2.scrape_entity_type iter_set http_text http_bytes img_tags
                   title (json_files !! ty) ty path w)
              any_payload V2.WIKI_PAGES) with (ps := V2.WIKI_PAGES) (t := 0)
              (w1 := w) as (_ & _ & Hc & _).
  - intros ty path w1. apply v2_scrape_entity_type_grows.
  - intros ty path w1 Hpage. apply v2_scrape_entity_type_writes.
    apply (Hids ty). apply list_elem_of_fmap. by exists (ty, path).
  - intros ty path w1 Hpage.
    destruct (Hids ty) as [Hgiven Hdistinct].
    { apply list_elem_of_fmap. by exists (ty, path). }
    destruct (v2_scrape_entity_type_stems iter_set http_text http_bytes img_tags
                title (json_files !! ty) ty path w1 Hgiven)
      as (st & -> & [_ Hs Hn] & Hcount).
    simpl. unfold new_stems. rewrite Hcount by done. f_equal. rewrite Hs.
    set_solver.
  - done.
  - apply (bool_decide_unpack _). by vm_compute.
  - rewrite Hc. simpl. lia.
Qed.

Lemma v2_main_total_witness :
  let r := V2.main elements one_page one_payload anvil_tags id items_listing
             {[ str "items" := anvil_catalog ]} anvil_world in
  r.1.2 = new_stems anvil_world r.2 (str "items")
          + new_stems anvil_world r.2 (str "weapons")
          + new_stems anvil_world r.2 (str "characters")
          + new_stems anvil_world r.2 (str "tomes").
Proof.
  apply (v2_main_total elements one_page one_payload anvil_tags id items_listing
           {[ str "items" := anvil_catalog ]} anvil_world).
  intros ty Hty. unfold V2.WIKI_PAGES in Hty. simpl in Hty.
  rewrite !elem_of_cons, elem_of_nil in Hty.
  destruct Hty as [->|[->|[->|[->|[]]]]];
    [apply anvil_catalog_ids|split; constructor..].
Defined.

(** A run of scrape-megabonk-wiki.py with a network that serves 600 bytes for
    every image: the anvil is there already, the candidate of the page
    resolves to it, and nothing is asked for or written. *)
Example wiki_main_items :
  let big := λ (_ : nat) (_ : pystr), Some (replicate 600 Byte.x00) in
  let r := Wiki.main one_page big anvil_tags items_listing
             {[ str "items" := anvil_catalog ]} anvil_world in
  r.1.2 = 0
  ∧ fs r.2 = fs anvil_world
  ∧ length (log r.2) = 1.
Proof. repeat split; compute_done. Qed.
